(** * FFmpeg Template Composer: geometry engine and filter-graph compiler

    A shallow embedding of [components/video-template-composer.tsx].

    Conventions of the embedding:
    - a JavaScript [number] holding a coordinate or a size is a rational
      ([Q]); [Math.round] is [Qfloor (v + 1/2)] (round half up),
      [Math.max]/[Math.min] are [Qmax]/[Qmin].  The engine is given twice:
      with exact arithmetic, for the properties that do not depend on
      rounding, and in the module [Double] with every sum, difference,
      product and quotient rounded to the nearest IEEE 754 double
      ([binary64]), for the properties that do.  NaN, the infinities and
      overflow are outside both: results that divide by a grid size or an
      aspect ratio are stated for non-zero divisors;
    - [zIndex] and the canvas dimensions are integers ([Z]): the code only
      ever stores integers there ([max + 1], an image's pixel size);
    - strings are [string]; the React state hooks become the fields of the
      record [State], and every handler is a function from [State] to
      [State]. *)

From Stdlib Require Import QArith Qround Qminmax Qabs Qpower ZArith List String Ascii Bool.
From Stdlib Require Import Lia Lqa.
From Stdlib Require Import DecimalString DecimalPos DecimalZ Sorted Permutation FinFun.
Import ListNotations.

Open Scope string_scope.
Open Scope Z_scope.
Open Scope Q_scope.

(** ** Layer model *)

Inductive LayerType := video | text.

Module BaseLayer.
Record t := mk {
  id      : string;
  name    : string;
  x       : Q;
  y       : Q;
  visible : bool;
  zIndex  : Z
}.
End BaseLayer.

Module VideoLayer.
Record t := mk {
  width        : Q;
  height       : Q;
  aspectLocked : bool;
  aspectRatio  : Q
}.
End VideoLayer.

Module TextLayer.
Record t := mk {
  text       : string;
  fontSize   : Q;
  fontFamily : string;
  color      : string;
  bold       : bool;
  italic     : bool
}.
End TextLayer.

(** [type Layer = VideoLayer | TextLayer]: the fields of [BaseLayer] that
    both variants extend, and the fields of the variant. *)
Inductive Layer :=
| Video (b : BaseLayer.t) (v : VideoLayer.t)
| Text  (b : BaseLayer.t) (t : TextLayer.t).

Definition base (l : Layer) : BaseLayer.t :=
  match l with Video b _ => b | Text b _ => b end.

Definition type (l : Layer) : LayerType :=
  match l with Video _ _ => video | Text _ _ => text end.

Definition typeName (t : LayerType) : string :=
  match t with video => "video" | text => "text" end.

Definition id (l : Layer) : string := BaseLayer.id (base l).
Definition zIndex (l : Layer) : Z := BaseLayer.zIndex (base l).
Definition visible (l : Layer) : bool := BaseLayer.visible (base l).

Module CanvasSize.
Record t := mk { width : Z; height : Z }.
End CanvasSize.

(** [type ResizeHandle]; the source's [null] is [None] of
    [option ResizeHandle]. *)
Inductive ResizeHandle := h_nw | h_n | h_ne | h_e | h_se | h_s | h_sw | h_w.

Definition HANDLE_SIZE : Q := 10.
Definition MIN_SIZE : Q := 50.

(** [Math.round]: the nearest integer, halves rounded up. *)
Definition Math_round (v : Q) : Z := Qfloor (v + (1 # 2)).

(** ** Snap utility *)

(** [snapValue]: [if (!snapToGrid) return value;
    return Math.round(value / gridSize) * gridSize]. *)
Definition snapValue (snapToGrid : bool) (gridSize : Q) (value : Q) : Q :=
  if negb snapToGrid then value
  else inject_Z (Math_round (value / gridSize)) * gridSize.

(** ** Doubles

    A JavaScript number is an IEEE 754 binary64 value.  The finite doubles
    are rationals, and an arithmetic operation of the language gives the
    double nearest to the exact result, ties going to the even significand.
    [binary64] is that rounding: 53 significant bits, with gradual
    underflow below [2^-1022]; a result of magnitude [2^1024] or more,
    which the language turns into an infinity, is not modelled. *)

(** The integer part of the binary logarithm of a positive rational. *)
Definition Qlog2 (q : Q) : Z :=
  let e := (Z.log2 (Qnum q) - Z.log2 (Zpos (Qden q)))%Z in
  if Qle_bool (2 ^ e) q then e else (e - 1)%Z.

(** The nearest integer, ties to the even one. *)
Definition roundHalfEven (q : Q) : Z :=
  let f := Qfloor q in
  match Qcompare (q - inject_Z f) (1 # 2) with
  | Lt => f
  | Gt => (f + 1)%Z
  | Eq => if Z.even f then f else (f + 1)%Z
  end.

Definition binary64 (q : Q) : Q :=
  if Qeq_bool q 0 then 0
  else
    let e := Z.max (Qlog2 (Qabs q) - 52) (-1074) in
    inject_Z (roundHalfEven (q / 2 ^ e)) * 2 ^ e.

(** The operators [+], [-], [*] and [/] of the language on doubles. *)
Definition fadd (a b : Q) : Q := binary64 (a + b).
Definition fsub (a b : Q) : Q := binary64 (a - b).
Definition fmul (a b : Q) : Q := binary64 (a * b).
Definition fdiv (a b : Q) : Q := binary64 (a / b).

(** The unit roundoff [2^-53], the least normal double [2^-1022] and half
    the least subnormal double, [2^-1075]. *)
Definition unitRoundoff : Q := 1 # 9007199254740992.
Definition minNormal : Q := 2 ^ (-1022).
Definition halfMinSubnormal : Q := 2 ^ (-1075).

(** ** Strings *)

Definition nl : string := String (ascii_of_nat 10) EmptyString.
Definition dq : string := String (ascii_of_nat 34) EmptyString.

(** A number that holds an integer prints in decimal. *)
Definition string_of_Z (z : Z) : string := NilZero.string_of_int (Z.to_int z).
Definition string_of_nat (k : nat) : string := string_of_Z (Z.of_nat k).

(** [String.prototype.toLowerCase], on the ASCII letters. *)
Definition lowerChar (c : ascii) : ascii :=
  let k := nat_of_ascii c in
  if (65 <=? k)%nat && (k <=? 90)%nat then ascii_of_nat (k + 32) else c.

Fixpoint toLowerCase (str : string) : string :=
  match str with
  | EmptyString => EmptyString
  | String c r => String (lowerChar c) (toLowerCase r)
  end.

(** The class [\s], on ASCII: tab, line feed, vertical tab, form feed,
    carriage return and space. *)
Definition isSpace (c : ascii) : bool :=
  let k := nat_of_ascii c in
  ((9 <=? k)%nat && (k <=? 13)%nat) || (k =? 32)%nat.

(** [str.replace(/\s+/g, by)]: every maximal run of white space becomes one
    [by]; [inRun] tells that the previous character was white space. *)
Fixpoint replaceSpaceRuns (by_ : string) (inRun : bool) (str : string) : string :=
  match str with
  | EmptyString => EmptyString
  | String c r =>
      if isSpace c
      then (if inRun then replaceSpaceRuns by_ true r
            else by_ ++ replaceSpaceRuns by_ true r)
      else String c (replaceSpaceRuns by_ false r)
  end.

(** [str.replace(/c/g, by)] for one character [c]. *)
Fixpoint replaceAllChar (c : ascii) (by_ : string) (str : string) : string :=
  match str with
  | EmptyString => EmptyString
  | String d r =>
      if Ascii.eqb d c then by_ ++ replaceAllChar c by_ r
      else String d (replaceAllChar c by_ r)
  end.

Fixpoint dropChars (k : nat) (str : string) : string :=
  match k, str with
  | O, _ => str
  | S k', String _ r => dropChars k' r
  | S _, EmptyString => EmptyString
  end.

(** [str.replace(pat, by)] with a string pattern: the first occurrence
    only. *)
Fixpoint replaceFirst (pat by_ : string) (str : string) : string :=
  if String.prefix pat str then by_ ++ dropChars (String.length pat) str
  else match str with
       | EmptyString => EmptyString
       | String c r => String c (replaceFirst pat by_ r)
       end.

(** [str.includes(pat)]. *)
Fixpoint includes (pat : string) (str : string) : bool :=
  if String.prefix pat str then true
  else match str with
       | EmptyString => false
       | String _ r => includes pat r
       end.

(** A [string | null] state variable used as a condition: [null] and the
    empty string are falsy. *)
Definition truthy (o : option string) : bool :=
  match o with
  | Some str => negb (str =? "")%string
  | None => false
  end.

(** ** The single update operation *)

(** [Partial<Layer>]: the fields an update may supply.  No caller supplies
    [id] or [type], and they are left out; a field of the other variant
    would only add a property that no code reads. *)
Module Updates.
Record t := mk {
  name         : option string;
  x            : option Q;
  y            : option Q;
  visible      : option bool;
  zIndex       : option Z;
  width        : option Q;
  height       : option Q;
  aspectLocked : option bool;
  aspectRatio  : option Q;
  text         : option string;
  fontSize     : option Q;
  fontFamily   : option string;
  color        : option string;
  bold         : option bool;
  italic       : option bool
}.
Definition none : t :=
  mk None None None None None None None None None None None None None None None.
End Updates.

(** One field of [{ ...layer, ...updates }]. *)
Definition spread {A : Type} (old : A) (upd : option A) : A :=
  match upd with Some v => v | None => old end.

Definition spreadBase (b : BaseLayer.t) (updates : Updates.t) : BaseLayer.t :=
  BaseLayer.mk (BaseLayer.id b)
    (spread (BaseLayer.name b) (Updates.name updates))
    (spread (BaseLayer.x b) (Updates.x updates))
    (spread (BaseLayer.y b) (Updates.y updates))
    (spread (BaseLayer.visible b) (Updates.visible updates))
    (spread (BaseLayer.zIndex b) (Updates.zIndex updates)).

Definition spreadVideo (v : VideoLayer.t) (updates : Updates.t) : VideoLayer.t :=
  VideoLayer.mk
    (spread (VideoLayer.width v) (Updates.width updates))
    (spread (VideoLayer.height v) (Updates.height updates))
    (spread (VideoLayer.aspectLocked v) (Updates.aspectLocked updates))
    (spread (VideoLayer.aspectRatio v) (Updates.aspectRatio updates)).

Definition spreadText (t : TextLayer.t) (updates : Updates.t) : TextLayer.t :=
  TextLayer.mk
    (spread (TextLayer.text t) (Updates.text updates))
    (spread (TextLayer.fontSize t) (Updates.fontSize updates))
    (spread (TextLayer.fontFamily t) (Updates.fontFamily updates))
    (spread (TextLayer.color t) (Updates.color updates))
    (spread (TextLayer.bold t) (Updates.bold updates))
    (spread (TextLayer.italic t) (Updates.italic updates)).

Definition setWidth (v : VideoLayer.t) (q : Q) : VideoLayer.t :=
  VideoLayer.mk q (VideoLayer.height v) (VideoLayer.aspectLocked v) (VideoLayer.aspectRatio v).
Definition setHeight (v : VideoLayer.t) (q : Q) : VideoLayer.t :=
  VideoLayer.mk (VideoLayer.width v) q (VideoLayer.aspectLocked v) (VideoLayer.aspectRatio v).
Definition setAspectRatio (v : VideoLayer.t) (q : Q) : VideoLayer.t :=
  VideoLayer.mk (VideoLayer.width v) (VideoLayer.height v) (VideoLayer.aspectLocked v) q.

(** The body of the [map] callback of [updateLayer] for the layer whose id
    matches: [layer] is the layer before the update. *)
Definition updatedLayer (layer : Layer) (updates : Updates.t) : Layer :=
  match layer with
  | Video b v =>
      let upd := spreadVideo v updates in
      (* Handle aspect ratio locking for video width/height changes *)
      let upd :=
        match VideoLayer.aspectLocked v, Updates.width updates, Updates.height updates with
        | true, Some uw, None =>
            setHeight upd (inject_Z (Math_round (uw / VideoLayer.aspectRatio v)))
        | true, None, Some uh =>
            setWidth upd (inject_Z (Math_round (uh * VideoLayer.aspectRatio v)))
        | _, _, _ => upd
        end in
      (* Update aspect ratio when locking *)
      let upd :=
        match Updates.aspectLocked updates with
        | Some true => setAspectRatio upd (VideoLayer.width v / VideoLayer.height v)
        | _ => upd
        end in
      Video (spreadBase b updates) upd
  | Text b t => Text (spreadBase b updates) (spreadText t updates)
  end.

Definition updateLayer (ident : string) (updates : Updates.t) (ls : list Layer)
  : list Layer :=
  map (fun layer =>
         if negb (id layer =? ident)%string then layer
         else updatedLayer layer updates) ls.

(** ** Z-order manager *)

(** [{ ...l, zIndex: z }] *)
Definition withZIndex (l : Layer) (z : Z) : Layer :=
  let b := base l in
  let b' := BaseLayer.mk (BaseLayer.id b) (BaseLayer.name b) (BaseLayer.x b)
              (BaseLayer.y b) (BaseLayer.visible b) z in
  match l with
  | Video _ v => Video b' v
  | Text _ t => Text b' t
  end.

(** [layers.find(l => l.id === id)] *)
Definition findLayer (ident : string) (ls : list Layer) : option Layer :=
  find (fun l => (id l =? ident)%string) ls.

(** [arr.reduce(f)] without an initial value, on a non-empty array. *)
Definition reduce1 {A : Type} (f : A -> A -> A) (first : A) (rest : list A) : A :=
  fold_left f rest first.

Definition moveLayerUp (ident : string) (ls : list Layer) : list Layer :=
  match findLayer ident ls with
  | None => ls
  | Some layer =>
      let higherLayers := filter (fun l => (zIndex l >? zIndex layer)%Z) ls in
      match higherLayers with
      | [] => ls
      | first :: rest =>
          let nextHigher :=
            reduce1 (fun min l => if (zIndex l <? zIndex min)%Z then l else min)
                    first rest in
          map (fun l =>
                 if (id l =? ident)%string then withZIndex l (zIndex nextHigher)
                 else if (id l =? id nextHigher)%string then withZIndex l (zIndex layer)
                 else l) ls
      end
  end.

Definition moveLayerDown (ident : string) (ls : list Layer) : list Layer :=
  match findLayer ident ls with
  | None => ls
  | Some layer =>
      let lowerLayers := filter (fun l => (zIndex l <? zIndex layer)%Z) ls in
      match lowerLayers with
      | [] => ls
      | first :: rest =>
          let nextLower :=
            reduce1 (fun max l => if (zIndex l >? zIndex max)%Z then l else max)
                    first rest in
          map (fun l =>
                 if (id l =? ident)%string then withZIndex l (zIndex nextLower)
                 else if (id l =? id nextLower)%string then withZIndex l (zIndex layer)
                 else l) ls
      end
  end.

(** The exchange both operations perform: the target takes [zn], the
    neighbour [other] takes [zt]. *)
Definition swapZ (ident other : string) (zn zt : Z) (l : Layer) : Layer :=
  if (id l =? ident)%string then withZIndex l zn
  else if (id l =? other)%string then withZIndex l zt
  else l.

(** The exchange of two zIndex values, on the values themselves. *)
Definition transposeZ (a b z : Z) : Z :=
  if (z =? a)%Z then b else if (z =? b)%Z then a else z.

(** ** Application state *)

Module Point.
Record t := mk { x : Q; y : Q }.
End Point.

Module Rect.
Record t := mk { x : Q; y : Q; width : Q; height : Q }.
End Rect.

Module Size.
Record t := mk { width : Q; height : Q }.
End Size.

(** The [useState] cells of the component that the handlers read or
    write. *)
Module State.
Record t := mk {
  templateImage : option string;
  canvasSize    : CanvasSize.t;
  layers        : list Layer;
  selectedLayer : option string;
  draggingLayer : option string;
  resizingLayer : option string;
  resizeHandle  : option ResizeHandle;
  dragStart     : Point.t;
  layerStart    : Rect.t;
  ffmpegCommand : string;
  snapToGrid    : bool;
  gridSize      : Q
}.

Definition setLayers (st : t) (ls : list Layer) : t :=
  mk (templateImage st) (canvasSize st) ls (selectedLayer st) (draggingLayer st)
     (resizingLayer st) (resizeHandle st) (dragStart st) (layerStart st)
     (ffmpegCommand st) (snapToGrid st) (gridSize st).

Definition setSelectedLayer (st : t) (sel : option string) : t :=
  mk (templateImage st) (canvasSize st) (layers st) sel (draggingLayer st)
     (resizingLayer st) (resizeHandle st) (dragStart st) (layerStart st)
     (ffmpegCommand st) (snapToGrid st) (gridSize st).

Definition setDraggingLayer (st : t) (d : option string) : t :=
  mk (templateImage st) (canvasSize st) (layers st) (selectedLayer st) d
     (resizingLayer st) (resizeHandle st) (dragStart st) (layerStart st)
     (ffmpegCommand st) (snapToGrid st) (gridSize st).

Definition setResizingLayer (st : t) (r : option string) : t :=
  mk (templateImage st) (canvasSize st) (layers st) (selectedLayer st)
     (draggingLayer st) r (resizeHandle st) (dragStart st) (layerStart st)
     (ffmpegCommand st) (snapToGrid st) (gridSize st).

Definition setResizeHandle (st : t) (h : option ResizeHandle) : t :=
  mk (templateImage st) (canvasSize st) (layers st) (selectedLayer st)
     (draggingLayer st) (resizingLayer st) h (dragStart st) (layerStart st)
     (ffmpegCommand st) (snapToGrid st) (gridSize st).

Definition setDragStart (st : t) (p : Point.t) : t :=
  mk (templateImage st) (canvasSize st) (layers st) (selectedLayer st)
     (draggingLayer st) (resizingLayer st) (resizeHandle st) p (layerStart st)
     (ffmpegCommand st) (snapToGrid st) (gridSize st).

Definition setLayerStart (st : t) (r : Rect.t) : t :=
  mk (templateImage st) (canvasSize st) (layers st) (selectedLayer st)
     (draggingLayer st) (resizingLayer st) (resizeHandle st) (dragStart st) r
     (ffmpegCommand st) (snapToGrid st) (gridSize st).

Definition setFfmpegCommand (st : t) (cmd : string) : t :=
  mk (templateImage st) (canvasSize st) (layers st) (selectedLayer st)
     (draggingLayer st) (resizingLayer st) (resizeHandle st) (dragStart st)
     (layerStart st) cmd (snapToGrid st) (gridSize st).
End State.

(** [snapValue] as the handlers call it, closed over the state. *)
Definition snap (st : State.t) (value : Q) : Q :=
  snapValue (State.snapToGrid st) (State.gridSize st) value.

(** [Math.max(...zs)]; the callers below reach it with a non-empty list
    only (on the empty list JavaScript answers [-Infinity]). *)
Definition Math_max_list (zs : list Z) : Z :=
  match zs with
  | [] => 0%Z
  | z :: rest => fold_left Z.max rest z
  end.

(** ** Duplicating and removing layers *)

(** [duplicateLayer]; [now] is the value of [Date.now()]. *)
Definition duplicateLayer (now : Z) (st : State.t) (ident : string) : State.t :=
  match findLayer ident (State.layers st) with
  | None => st
  | Some layer =>
      let maxZIndex := Math_max_list (map zIndex (State.layers st)) in
      let b := base layer in
      let canvas := State.canvasSize st in
      let b' :=
        BaseLayer.mk
          (typeName (type layer) ++ "-" ++ string_of_Z now)
          (BaseLayer.name b ++ " (copy)")
          (snap st (Qmin (BaseLayer.x b + 30) (inject_Z (CanvasSize.width canvas) - 100)))
          (snap st (Qmin (BaseLayer.y b + 30) (inject_Z (CanvasSize.height canvas) - 100)))
          (BaseLayer.visible b)
          (maxZIndex + 1)%Z in
      let newLayer :=
        match layer with
        | Video _ v => Video b' v
        | Text _ t => Text b' t
        end in
      State.setSelectedLayer
        (State.setLayers st (State.layers st ++ [newLayer])%list)
        (Some (id newLayer))
  end.

Definition removeLayer (st : State.t) (ident : string) : State.t :=
  let st' := State.setLayers st
               (filter (fun layer => negb (id layer =? ident)%string) (State.layers st)) in
  match State.selectedLayer st with
  | Some sel => if (sel =? ident)%string then State.setSelectedLayer st' None else st'
  | None => st'
  end.

(** ** Sorting by zIndex *)

(** [Array.prototype.sort] is a stable sort; with the comparator [cmp] an
    element goes before the first later element it does not compare greater
    than. *)
Fixpoint insertSorted (cmp : Layer -> Layer -> Z) (a : Layer) (ls : list Layer)
  : list Layer :=
  match ls with
  | [] => [a]
  | b :: rest =>
      if (cmp a b <=? 0)%Z then a :: b :: rest
      else b :: insertSorted cmp a rest
  end.

Definition sortLayers (cmp : Layer -> Layer -> Z) (ls : list Layer) : list Layer :=
  fold_right (insertSorted cmp) [] ls.

(** [(a, b) => a.zIndex - b.zIndex] and [(a, b) => b.zIndex - a.zIndex]. *)
Definition byZIndexAsc (a b : Layer) : Z := (zIndex a - zIndex b)%Z.
Definition byZIndexDesc (a b : Layer) : Z := (zIndex b - zIndex a)%Z.

(** ** Pieces of a command *)

(** One filter chain of the graph: the link labels it reads, the input
    streams it reads, its text, the link label it writes and the separator
    that follows it. *)
Module Stage.
Record t := mk {
  consumes   : list string;
  streams    : list nat;
  body       : string;
  produces   : string;
  terminator : string
}.
End Stage.

(** The pieces [generateFFmpegCommand] appends to [command]. *)
Inductive Chunk :=
| Raw (str : string)
| Filter (st : Stage.t)
| MapOutput (label : string).

Section Composer.

(** JavaScript's conversion of a number to a string, for the numbers the
    code prints without rounding them first. *)
Variable numberToString : Q -> string.

(** The 2D context of the canvas: [ctx font str] is
    [ctx.measureText(str).width] under [ctx.font = font]; [None] when
    [canvasRef.current] or [getContext("2d")] is null. *)
Variable ctx : option (string -> string -> Q).

(** ** Geometry engine *)

Definition measureText (textLayer : TextLayer.t) : Size.t :=
  match ctx with
  | None => Size.mk 100 50
  | Some measure =>
      let fontStyle :=
        (if TextLayer.italic textLayer then "italic " else "") ++
        (if TextLayer.bold textLayer then "bold " else "") ++
        numberToString (TextLayer.fontSize textLayer) ++ "px " ++
        TextLayer.fontFamily textLayer in
      let shown :=
        if (TextLayer.text textLayer =? "")%string then "Text"
        else TextLayer.text textLayer in
      Size.mk (measure fontStyle shown + 20)               (* padding *)
              (TextLayer.fontSize textLayer * (14 # 10))   (* line height *)
  end.

(** The bounding box the code uses for a layer: the stored size of a video
    layer, the measured size of a text layer. *)
Definition layerSize (layer : Layer) : Size.t :=
  match layer with
  | Video _ v => Size.mk (VideoLayer.width v) (VideoLayer.height v)
  | Text _ t => measureText t
  end.

Definition getResizeHandles (b : BaseLayer.t) (v : VideoLayer.t)
  : list (ResizeHandle * Point.t) :=
  let halfHandle := HANDLE_SIZE / 2 in
  let lx := BaseLayer.x b in
  let ly := BaseLayer.y b in
  let lw := VideoLayer.width v in
  let lh := VideoLayer.height v in
  [ (h_nw, Point.mk (lx - halfHandle) (ly - halfHandle));
    (h_n,  Point.mk (lx + lw / 2 - halfHandle) (ly - halfHandle));
    (h_ne, Point.mk (lx + lw - halfHandle) (ly - halfHandle));
    (h_e,  Point.mk (lx + lw - halfHandle) (ly + lh / 2 - halfHandle));
    (h_se, Point.mk (lx + lw - halfHandle) (ly + lh - halfHandle));
    (h_s,  Point.mk (lx + lw / 2 - halfHandle) (ly + lh - halfHandle));
    (h_sw, Point.mk (lx - halfHandle) (ly + lh - halfHandle));
    (h_w,  Point.mk (lx - halfHandle) (ly + lh / 2 - halfHandle)) ].

Definition getHandleAtPoint (layer : Layer) (px py : Q) : option ResizeHandle :=
  match layer with
  | Video b v =>
      option_map fst
        (find (fun handle =>
                 Qle_bool (Point.x (snd handle)) px &&
                 Qle_bool px (Point.x (snd handle) + HANDLE_SIZE) &&
                 Qle_bool (Point.y (snd handle)) py &&
                 Qle_bool py (Point.y (snd handle) + HANDLE_SIZE))
              (getResizeHandles b v))
  | Text _ _ => None
  end.

Definition isPointInLayer (layer : Layer) (px py : Q) : bool :=
  match layer with
  | Video b v =>
      Qle_bool (BaseLayer.x b) px && Qle_bool px (BaseLayer.x b + VideoLayer.width v) &&
      Qle_bool (BaseLayer.y b) py && Qle_bool py (BaseLayer.y b + VideoLayer.height v)
  | Text b t =>
      let dimensions := measureText t in
      Qle_bool (BaseLayer.x b) px && Qle_bool px (BaseLayer.x b + Size.width dimensions) &&
      Qle_bool (BaseLayer.y b) py && Qle_bool py (BaseLayer.y b + Size.height dimensions)
  end.

(** The lookup of [handleCanvasMouseDown]: the layers sorted by descending
    zIndex, then the first one that is visible and contains the point. *)
Definition clickedLayer (ls : list Layer) (px py : Q) : option Layer :=
  let sortedLayers := sortLayers byZIndexDesc ls in
  find (fun layer => visible layer && isPointInLayer layer px py) sortedLayers.

Definition handleCanvasMouseDown (st : State.t) (px py : Q) : State.t :=
  let onHandle :=
    if truthy (State.selectedLayer st) then
      match State.selectedLayer st with
      | Some sel =>
          match findLayer sel (State.layers st) with
          | Some (Video b v) =>
              match getHandleAtPoint (Video b v) px py with
              | Some handle =>
                  Some (State.setLayerStart
                          (State.setDragStart
                             (State.setResizeHandle
                                (State.setResizingLayer st (Some sel))
                                (Some handle))
                             (Point.mk px py))
                          (Rect.mk (BaseLayer.x b) (BaseLayer.y b)
                                   (VideoLayer.width v) (VideoLayer.height v)))
              | None => None
              end
          | _ => None
          end
      | None => None
      end
    else None in
  match onHandle with
  | Some st' => st'
  | None =>
      match clickedLayer (State.layers st) px py with
      | Some clicked =>
          State.setDragStart
            (State.setDraggingLayer
               (State.setSelectedLayer st (Some (id clicked)))
               (Some (id clicked)))
            (Point.mk (px - BaseLayer.x (base clicked)) (py - BaseLayer.y (base clicked)))
      | None => State.setSelectedLayer st None
      end
  end.

(** The [switch (resizeHandle)] of [handleCanvasMouseMove]: the new
    geometry before it is constrained to the canvas. *)
Definition resizeGeometry (handle : ResizeHandle) (aspectLocked : bool)
    (aspectRatio : Q) (layerStart : Rect.t) (dx dy : Q) : Rect.t :=
  let x0 := Rect.x layerStart in
  let y0 := Rect.y layerStart in
  let w0 := Rect.width layerStart in
  let h0 := Rect.height layerStart in
  match handle with
  | h_nw =>
      let newWidth := Qmax MIN_SIZE (w0 - dx) in
      let newHeight := if aspectLocked then newWidth / aspectRatio
                       else Qmax MIN_SIZE (h0 - dy) in
      Rect.mk (x0 + w0 - newWidth) (y0 + h0 - newHeight) newWidth newHeight
  | h_n =>
      let newHeight := Qmax MIN_SIZE (h0 - dy) in
      let newWidth := if aspectLocked then newHeight * aspectRatio else w0 in
      Rect.mk x0 (y0 + h0 - newHeight) newWidth newHeight
  | h_ne =>
      let newWidth := Qmax MIN_SIZE (w0 + dx) in
      let newHeight := if aspectLocked then newWidth / aspectRatio
                       else Qmax MIN_SIZE (h0 - dy) in
      Rect.mk x0 (y0 + h0 - newHeight) newWidth newHeight
  | h_e =>
      let newWidth := Qmax MIN_SIZE (w0 + dx) in
      let newHeight := if aspectLocked then newWidth / aspectRatio else h0 in
      Rect.mk x0 y0 newWidth newHeight
  | h_se =>
      let newWidth := Qmax MIN_SIZE (w0 + dx) in
      let newHeight := if aspectLocked then newWidth / aspectRatio
                       else Qmax MIN_SIZE (h0 + dy) in
      Rect.mk x0 y0 newWidth newHeight
  | h_s =>
      let newHeight := Qmax MIN_SIZE (h0 + dy) in
      let newWidth := if aspectLocked then newHeight * aspectRatio else w0 in
      Rect.mk x0 y0 newWidth newHeight
  | h_sw =>
      let newWidth := Qmax MIN_SIZE (w0 - dx) in
      let newHeight := if aspectLocked then newWidth / aspectRatio
                       else Qmax MIN_SIZE (h0 + dy) in
      Rect.mk (x0 + w0 - newWidth) y0 newWidth newHeight
  | h_w =>
      let newWidth := Qmax MIN_SIZE (w0 - dx) in
      let newHeight := if aspectLocked then newWidth / aspectRatio else h0 in
      Rect.mk (x0 + w0 - newWidth) y0 newWidth newHeight
  end.

(** [Math.max(0, Math.min(limit - size, pos))] *)
Definition constrain (limit : Z) (size pos : Q) : Q :=
  Qmax 0 (Qmin (inject_Z limit - size) pos).

(** The updates a resize pointer-move passes to [updateLayer]. *)
Definition resizeUpdates (st : State.t) (v : VideoLayer.t) (handle : ResizeHandle)
    (px py : Q) : Updates.t :=
  let dx := px - Point.x (State.dragStart st) in
  let dy := py - Point.y (State.dragStart st) in
  let g := resizeGeometry handle (VideoLayer.aspectLocked v) (VideoLayer.aspectRatio v)
             (State.layerStart st) dx dy in
  let canvas := State.canvasSize st in
  (* Constrain to canvas bounds *)
  let newX := constrain (CanvasSize.width canvas) (Rect.width g) (Rect.x g) in
  let newY := constrain (CanvasSize.height canvas) (Rect.height g) (Rect.y g) in
  Updates.mk None (Some (snap st newX)) (Some (snap st newY)) None None
    (Some (snap st (Rect.width g))) (Some (snap st (Rect.height g)))
    None None None None None None None None.

(** The updates a drag pointer-move passes to [updateLayer]. *)
Definition dragUpdates (st : State.t) (layer : Layer) (px py : Q) : Updates.t :=
  let newX := px - Point.x (State.dragStart st) in
  let newY := py - Point.y (State.dragStart st) in
  let maxWidth := Size.width (layerSize layer) in
  let maxHeight := Size.height (layerSize layer) in
  let canvas := State.canvasSize st in
  Updates.mk None
    (Some (snap st (constrain (CanvasSize.width canvas) maxWidth newX)))
    (Some (snap st (constrain (CanvasSize.height canvas) maxHeight newY)))
    None None None None None None None None None None None None.

(** The dragging branch of [handleCanvasMouseMove]. *)
Definition dragMove (st : State.t) (px py : Q) : State.t :=
  match State.draggingLayer st with
  | Some did =>
      if truthy (Some did) then
        match findLayer did (State.layers st) with
        | Some layer =>
            State.setLayers st
              (updateLayer did (dragUpdates st layer px py) (State.layers st))
        | None => st
        end
      else st
  | None => st
  end.

(** [handleCanvasMouseMove], without the cursor hint it sets on the
    canvas element at the end: the resizing branch is taken when
    [resizingLayer && resizeHandle] holds and returns early. *)
Definition handleCanvasMouseMove (st : State.t) (px py : Q) : State.t :=
  match State.resizingLayer st, State.resizeHandle st with
  | Some rid, Some handle =>
      if truthy (Some rid) then
        match findLayer rid (State.layers st) with
        | Some (Video b v) =>
            State.setLayers st
              (updateLayer rid (resizeUpdates st v handle px py) (State.layers st))
        | _ => st
        end
      else dragMove st px py
  | _, _ => dragMove st px py
  end.

Definition handleCanvasMouseUp (st : State.t) : State.t :=
  State.setResizeHandle
    (State.setResizingLayer (State.setDraggingLayer st None) None) None.

(** ** Filter-graph compiler *)

Definition bracket (label : string) : string := "[" ++ label ++ "]".

Definition renderStage (st : Stage.t) : string :=
  "    " ++ String.concat "" (map bracket (Stage.consumes st)) ++
  String.concat "" (map (fun k => bracket (string_of_nat k ++ ":v")) (Stage.streams st)) ++
  Stage.body st ++ bracket (Stage.produces st) ++ Stage.terminator st.

Definition renderChunk (c : Chunk) : string :=
  match c with
  | Raw str => str
  | Filter st => renderStage st
  | MapOutput label => "  -map " ++ dq ++ bracket label ++ dq ++ " \" ++ nl
  end.

Definition render (command : list Chunk) : string :=
  String.concat "" (map renderChunk command).

Definition roundStr (q : Q) : string := string_of_Z (Math_round q).

(** [arr.forEach((layer, idx) => ...)] with an accumulator. *)
Definition forEachIdx {A S : Type} (f : S -> A -> nat -> S) (arr : list A) (init : S) : S :=
  fold_left (fun acc p => f acc (snd p) (fst p)) (combine (seq 0 (List.length arr)) arr) init.

Definition videosOf (ls : list Layer) : list (BaseLayer.t * VideoLayer.t) :=
  flat_map (fun l => match l with Video b v => [(b, v)] | Text _ _ => [] end) ls.

Definition textsOf (ls : list Layer) : list (BaseLayer.t * TextLayer.t) :=
  flat_map (fun l => match l with Text b t => [(b, t)] | Video _ _ => [] end) ls.

Definition diagnostic : string := "# Add at least one visible layer first".

Definition scaleStage (layer : BaseLayer.t * VideoLayer.t) (idx : nat) : Stage.t :=
  let v := snd layer in
  Stage.mk [] [idx]
    ("scale=" ++ roundStr (VideoLayer.width v) ++ ":" ++ roundStr (VideoLayer.height v) ++
     ":force_original_aspect_ratio=decrease," ++ nl ++
     "    pad=" ++ roundStr (VideoLayer.width v) ++ ":" ++ roundStr (VideoLayer.height v) ++
     ":(ow-iw)/2:(oh-ih)/2")
    ("v" ++ string_of_nat idx)
    (";" ++ nl ++ nl).

Definition overlayStage (currentBase : string) (layer : BaseLayer.t * VideoLayer.t)
    (idx : nat) (nextBase : string) : Stage.t :=
  let b := fst layer in
  Stage.mk [currentBase; "v" ++ string_of_nat idx] []
    ("overlay=" ++ roundStr (BaseLayer.x b) ++ ":" ++ roundStr (BaseLayer.y b))
    nextBase
    (";" ++ nl).

Definition drawtextStage (currentBase : string) (layer : BaseLayer.t * TextLayer.t)
    (nextBase : string) : Stage.t :=
  let b := fst layer in
  let t := snd layer in
  let escapedText :=
    replaceAllChar ":" "\:" (replaceAllChar "'" "\'" (TextLayer.text t)) in
  let fontfile := "/System/Library/Fonts/" ++ TextLayer.fontFamily t ++ ".ttf" in
  Stage.mk [currentBase] []
    ("drawtext=text='" ++ escapedText ++ "':" ++
     "fontfile='" ++ fontfile ++ "':" ++
     "fontsize=" ++ numberToString (TextLayer.fontSize t) ++ ":" ++
     "fontcolor=" ++ replaceFirst "#" "0x" (TextLayer.color t) ++ ":" ++
     "x=" ++ roundStr (BaseLayer.x b) ++ ":y=" ++ roundStr (BaseLayer.y b) ++
     (if TextLayer.bold t && TextLayer.italic t
      then ":font='" ++ TextLayer.fontFamily t ++ " Bold Italic'"
      else if TextLayer.bold t then ":font='" ++ TextLayer.fontFamily t ++ " Bold'"
      else if TextLayer.italic t then ":font='" ++ TextLayer.fontFamily t ++ " Italic'"
      else ""))
    nextBase
    (";" ++ nl).

(** The phases of [generateFFmpegCommand], one per commented block of the
    source.  [command] is the list of pieces appended so far; the phases
    that chain stages thread the pair [(command, currentBase)]. *)

(** Input files *)
Definition inputFiles (videoLayers : list (BaseLayer.t * VideoLayer.t))
    (templateImage : option string) (command : list Chunk) : list Chunk :=
  let command :=
    forEachIdx (fun command layer _ =>
      (command ++ [Raw ("  -i " ++ dq ++
                        replaceSpaceRuns "_" false (toLowerCase (BaseLayer.name (fst layer))) ++
                        ".mp4" ++ dq ++ " \" ++ nl)])%list)
      videoLayers command in
  if truthy templateImage
  then (command ++ [Raw ("  -i " ++ dq ++ "template.png" ++ dq ++ " \" ++ nl)])%list
  else command.

(** Create base *)
Definition createBase (canvasSize : CanvasSize.t) (command : list Chunk) : list Chunk :=
  (command ++
   [Filter (Stage.mk [] []
              ("color=size=" ++ string_of_Z (CanvasSize.width canvasSize) ++ "x" ++
               string_of_Z (CanvasSize.height canvasSize) ++ ":color=black:d=1")
              "base" (";" ++ nl ++ nl))])%list.

(** Scale videos *)
Definition scaleVideos (videoLayers : list (BaseLayer.t * VideoLayer.t))
    (command : list Chunk) : list Chunk :=
  forEachIdx (fun command layer idx => (command ++ [Filter (scaleStage layer idx)])%list)
    videoLayers command.

(** Overlay videos *)
Definition overlayVideos (videoLayers : list (BaseLayer.t * VideoLayer.t))
    (acc : list Chunk * string) : list Chunk * string :=
  forEachIdx (fun acc layer idx =>
    let nextBase := if (idx =? List.length videoLayers - 1)%nat then "videos"
                    else "tmp" ++ string_of_nat idx in
    ((fst acc ++ [Filter (overlayStage (snd acc) layer idx nextBase)])%list, nextBase))
    videoLayers acc.

(** Add text overlays *)
Definition addTextOverlays (textLayers : list (BaseLayer.t * TextLayer.t))
    (acc : list Chunk * string) : list Chunk * string :=
  if (0 <? List.length textLayers)%nat then
    forEachIdx (fun acc layer idx =>
      let nextBase := if (idx =? List.length textLayers - 1)%nat then "final"
                      else "txt" ++ string_of_nat idx in
      ((fst acc ++ [Filter (drawtextStage (snd acc) layer nextBase)])%list, nextBase))
      textLayers acc
  else
    (fst acc,
     if (snd acc =? "base")%string then "final"
     else replaceFirst "videos" "final" (snd acc)).

(** Final PNG overlay if template exists *)
Definition finalOverlay (templateImage : option string) (videoCount : nat)
    (acc : list Chunk * string) : list Chunk * string :=
  if truthy templateImage then
    ((fst acc ++ [Raw nl;
                  Filter (Stage.mk [snd acc] [videoCount] "overlay=0:0" "output" nl)])%list,
     "output")
  else acc.

(** Output options *)
Definition outputOptions (acc : list Chunk * string) : list Chunk :=
  (fst acc ++
   [Raw ("  " ++ dq ++ " \" ++ nl);
    MapOutput (snd acc);
    Raw ("  -c:v libx264 -pix_fmt yuv420p -crf 18 -preset medium \" ++ nl);
    Raw ("  -shortest \" ++ nl);
    Raw ("  " ++ dq ++ "output.mp4" ++ dq)])%list.

(** The pieces of the command for a layer list, a canvas size and the
    template state. *)
Definition commandChunks (ls : list Layer) (canvasSize : CanvasSize.t)
    (templateImage : option string) : list Chunk :=
  let visibleLayers := sortLayers byZIndexAsc (filter visible ls) in
  let videoLayers := videosOf visibleLayers in
  let textLayers := textsOf visibleLayers in
  if (List.length visibleLayers =? 0)%nat then [Raw diagnostic]
  else
    let command := [Raw ("ffmpeg \" ++ nl)] in
    let command := inputFiles videoLayers templateImage command in
    (* Filter complex *)
    let command := (command ++ [Raw ("  -filter_complex " ++ dq ++ nl)])%list in
    let command := createBase canvasSize command in
    let command := scaleVideos videoLayers command in
    let acc := overlayVideos videoLayers (command, "base") in
    let acc := addTextOverlays textLayers acc in
    let acc := finalOverlay templateImage (List.length videoLayers) acc in
    outputOptions acc.

(** [generateFFmpegCommand]: the text it stores in [ffmpegCommand]. *)
Definition generateFFmpegCommand (st : State.t) : State.t :=
  State.setFfmpegCommand st
    (render (commandChunks (State.layers st) (State.canvasSize st)
               (State.templateImage st))).

(** The labels the overlay phase writes. *)
Definition overlayLabel (label : string) : Prop :=
  label = "videos" \/ exists k : nat, label = "tmp" ++ string_of_nat k.

(** The labels the scale phase and the text phase write. *)
Definition scaleLabel (label : string) : Prop :=
  exists k : nat, label = "v" ++ string_of_nat k.

Definition textLabel (label : string) : Prop :=
  label = "final" \/ exists k : nat, label = "txt" ++ string_of_nat k.

(** ** Chaining of the filter graph *)

(** [wellChainedFrom defined command]: reading the command from left to
    right with the link labels [defined] so far, every stage reads only
    labels that an earlier stage wrote, and so does the output mapping. *)
Fixpoint wellChainedFrom (defined : list string) (command : list Chunk) : bool :=
  match command with
  | [] => true
  | Raw _ :: rest => wellChainedFrom defined rest
  | Filter st :: rest =>
      forallb (fun label => existsb (String.eqb label) defined) (Stage.consumes st) &&
      wellChainedFrom (Stage.produces st :: defined) rest
  | MapOutput label :: rest =>
      existsb (String.eqb label) defined && wellChainedFrom defined rest
  end.

Definition wellChained (command : list Chunk) : bool := wellChainedFrom [] command.

(** The link labels some stage of the command writes. *)
Definition producedLabels (command : list Chunk) : list string :=
  flat_map (fun c => match c with Filter st => [Stage.produces st] | _ => [] end) command.

(** The label of the output mapping, when the command has one. *)
Definition mappedLabel (command : list Chunk) : option string :=
  match flat_map (fun c => match c with MapOutput l => [l] | _ => [] end) command with
  | l :: _ => Some l
  | [] => None
  end.

End Composer.

(** * The engine in double precision

    The snap utility, the duplication, the hit tests and the pointer
    handlers once more, with each arithmetic operation of the source
    rounded by [binary64].  Comparisons, [Math.max], [Math.min] and
    [Math.round] are exact on doubles.  The update operation is shared with
    the exact engine: the handlers pass it either both the width and the
    height or neither, so it has nothing to derive. *)

Module Double.

(** [snapValue]: [Math.round(value / gridSize) * gridSize]. *)
Definition snapValue (snapToGrid : bool) (gridSize : Q) (value : Q) : Q :=
  if negb snapToGrid then value
  else fmul (inject_Z (Math_round (fdiv value gridSize))) gridSize.

Definition snap (st : State.t) (value : Q) : Q :=
  snapValue (State.snapToGrid st) (State.gridSize st) value.

(** [duplicateLayer]; [now] is the value of [Date.now()]. *)
Definition duplicateLayer (now : Z) (st : State.t) (ident : string) : State.t :=
  match findLayer ident (State.layers st) with
  | None => st
  | Some layer =>
      let maxZIndex := Math_max_list (map zIndex (State.layers st)) in
      let b := base layer in
      let canvas := State.canvasSize st in
      let b' :=
        BaseLayer.mk
          (typeName (type layer) ++ "-" ++ string_of_Z now)
          (BaseLayer.name b ++ " (copy)")
          (snap st (Qmin (fadd (BaseLayer.x b) 30)
                         (fsub (inject_Z (CanvasSize.width canvas)) 100)))
          (snap st (Qmin (fadd (BaseLayer.y b) 30)
                         (fsub (inject_Z (CanvasSize.height canvas)) 100)))
          (BaseLayer.visible b)
          (maxZIndex + 1)%Z in
      let newLayer :=
        match layer with
        | Video _ v => Video b' v
        | Text _ t => Text b' t
        end in
      State.setSelectedLayer
        (State.setLayers st (State.layers st ++ [newLayer])%list)
        (Some (id newLayer))
  end.

Section Engine.

Variable numberToString : Q -> string.
Variable ctx : option (string -> string -> Q).

Definition measureText (textLayer : TextLayer.t) : Size.t :=
  match ctx with
  | None => Size.mk 100 50
  | Some measure =>
      let fontStyle :=
        (if TextLayer.italic textLayer then "italic " else "") ++
        (if TextLayer.bold textLayer then "bold " else "") ++
        numberToString (TextLayer.fontSize textLayer) ++ "px " ++
        TextLayer.fontFamily textLayer in
      let shown :=
        if (TextLayer.text textLayer =? "")%string then "Text"
        else TextLayer.text textLayer in
      Size.mk (fadd (measure fontStyle shown) 20)                          (* padding *)
              (fmul (TextLayer.fontSize textLayer) (binary64 (14 # 10)))   (* line height *)
  end.

Definition layerSize (layer : Layer) : Size.t :=
  match layer with
  | Video _ v => Size.mk (VideoLayer.width v) (VideoLayer.height v)
  | Text _ t => measureText t
  end.

Definition getResizeHandles (b : BaseLayer.t) (v : VideoLayer.t)
  : list (ResizeHandle * Point.t) :=
  let halfHandle := fdiv HANDLE_SIZE 2 in
  let lx := BaseLayer.x b in
  let ly := BaseLayer.y b in
  let lw := VideoLayer.width v in
  let lh := VideoLayer.height v in
  [ (h_nw, Point.mk (fsub lx halfHandle) (fsub ly halfHandle));
    (h_n,  Point.mk (fsub (fadd lx (fdiv lw 2)) halfHandle) (fsub ly halfHandle));
    (h_ne, Point.mk (fsub (fadd lx lw) halfHandle) (fsub ly halfHandle));
    (h_e,  Point.mk (fsub (fadd lx lw) halfHandle)
                    (fsub (fadd ly (fdiv lh 2)) halfHandle));
    (h_se, Point.mk (fsub (fadd lx lw) halfHandle) (fsub (fadd ly lh) halfHandle));
    (h_s,  Point.mk (fsub (fadd lx (fdiv lw 2)) halfHandle)
                    (fsub (fadd ly lh) halfHandle));
    (h_sw, Point.mk (fsub lx halfHandle) (fsub (fadd ly lh) halfHandle));
    (h_w,  Point.mk (fsub lx halfHandle) (fsub (fadd ly (fdiv lh 2)) halfHandle)) ].

Definition getHandleAtPoint (layer : Layer) (px py : Q) : option ResizeHandle :=
  match layer with
  | Video b v =>
      option_map fst
        (find (fun handle =>
                 Qle_bool (Point.x (snd handle)) px &&
                 Qle_bool px (fadd (Point.x (snd handle)) HANDLE_SIZE) &&
                 Qle_bool (Point.y (snd handle)) py &&
                 Qle_bool py (fadd (Point.y (snd handle)) HANDLE_SIZE))
              (getResizeHandles b v))
  | Text _ _ => None
  end.

Definition isPointInLayer (layer : Layer) (px py : Q) : bool :=
  match layer with
  | Video b v =>
      Qle_bool (BaseLayer.x b) px &&
      Qle_bool px (fadd (BaseLayer.x b) (VideoLayer.width v)) &&
      Qle_bool (BaseLayer.y b) py &&
      Qle_bool py (fadd (BaseLayer.y b) (VideoLayer.height v))
  | Text b t =>
      let dimensions := measureText t in
      Qle_bool (BaseLayer.x b) px &&
      Qle_bool px (fadd (BaseLayer.x b) (Size.width dimensions)) &&
      Qle_bool (BaseLayer.y b) py &&
      Qle_bool py (fadd (BaseLayer.y b) (Size.height dimensions))
  end.

Definition clickedLayer (ls : list Layer) (px py : Q) : option Layer :=
  let sortedLayers := sortLayers byZIndexDesc ls in
  find (fun layer => visible layer && isPointInLayer layer px py) sortedLayers.

Definition handleCanvasMouseDown (st : State.t) (px py : Q) : State.t :=
  let onHandle :=
    if truthy (State.selectedLayer st) then
      match State.selectedLayer st with
      | Some sel =>
          match findLayer sel (State.layers st) with
          | Some (Video b v) =>
              match getHandleAtPoint (Video b v) px py with
              | Some handle =>
                  Some (State.setLayerStart
                          (State.setDragStart
                             (State.setResizeHandle
                                (State.setResizingLayer st (Some sel))
                                (Some handle))
                             (Point.mk px py))
                          (Rect.mk (BaseLayer.x b) (BaseLayer.y b)
                                   (VideoLayer.width v) (VideoLayer.height v)))
              | None => None
              end
          | _ => None
          end
      | None => None
      end
    else None in
  match onHandle with
  | Some st' => st'
  | None =>
      match clickedLayer (State.layers st) px py with
      | Some clicked =>
          State.setDragStart
            (State.setDraggingLayer
               (State.setSelectedLayer st (Some (id clicked)))
               (Some (id clicked)))
            (Point.mk (fsub px (BaseLayer.x (base clicked)))
                      (fsub py (BaseLayer.y (base clicked))))
      | None => State.setSelectedLayer st None
      end
  end.

(** The [switch (resizeHandle)] of [handleCanvasMouseMove]. *)
Definition resizeGeometry (handle : ResizeHandle) (aspectLocked : bool)
    (aspectRatio : Q) (layerStart : Rect.t) (dx dy : Q) : Rect.t :=
  let x0 := Rect.x layerStart in
  let y0 := Rect.y layerStart in
  let w0 := Rect.width layerStart in
  let h0 := Rect.height layerStart in
  match handle with
  | h_nw =>
      let newWidth := Qmax MIN_SIZE (fsub w0 dx) in
      let newHeight := if aspectLocked then fdiv newWidth aspectRatio
                       else Qmax MIN_SIZE (fsub h0 dy) in
      Rect.mk (fsub (fadd x0 w0) newWidth) (fsub (fadd y0 h0) newHeight)
              newWidth newHeight
  | h_n =>
      let newHeight := Qmax MIN_SIZE (fsub h0 dy) in
      let newWidth := if aspectLocked then fmul newHeight aspectRatio else w0 in
      Rect.mk x0 (fsub (fadd y0 h0) newHeight) newWidth newHeight
  | h_ne =>
      let newWidth := Qmax MIN_SIZE (fadd w0 dx) in
      let newHeight := if aspectLocked then fdiv newWidth aspectRatio
                       else Qmax MIN_SIZE (fsub h0 dy) in
      Rect.mk x0 (fsub (fadd y0 h0) newHeight) newWidth newHeight
  | h_e =>
      let newWidth := Qmax MIN_SIZE (fadd w0 dx) in
      let newHeight := if aspectLocked then fdiv newWidth aspectRatio else h0 in
      Rect.mk x0 y0 newWidth newHeight
  | h_se =>
      let newWidth := Qmax MIN_SIZE (fadd w0 dx) in
      let newHeight := if aspectLocked then fdiv newWidth aspectRatio
                       else Qmax MIN_SIZE (fadd h0 dy) in
      Rect.mk x0 y0 newWidth newHeight
  | h_s =>
      let newHeight := Qmax MIN_SIZE (fadd h0 dy) in
      let newWidth := if aspectLocked then fmul newHeight aspectRatio else w0 in
      Rect.mk x0 y0 newWidth newHeight
  | h_sw =>
      let newWidth := Qmax MIN_SIZE (fsub w0 dx) in
      let newHeight := if aspectLocked then fdiv newWidth aspectRatio
                       else Qmax MIN_SIZE (fadd h0 dy) in
      Rect.mk (fsub (fadd x0 w0) newWidth) y0 newWidth newHeight
  | h_w =>
      let newWidth := Qmax MIN_SIZE (fsub w0 dx) in
      let newHeight := if aspectLocked then fdiv newWidth aspectRatio else h0 in
      Rect.mk (fsub (fadd x0 w0) newWidth) y0 newWidth newHeight
  end.

(** [Math.max(0, Math.min(limit - size, pos))] *)
Definition constrain (limit : Z) (size pos : Q) : Q :=
  Qmax 0 (Qmin (fsub (inject_Z limit) size) pos).

(** The updates a resize pointer-move passes to [updateLayer]. *)
Definition resizeUpdates (st : State.t) (v : VideoLayer.t) (handle : ResizeHandle)
    (px py : Q) : Updates.t :=
  let dx := fsub px (Point.x (State.dragStart st)) in
  let dy := fsub py (Point.y (State.dragStart st)) in
  let g := resizeGeometry handle (VideoLayer.aspectLocked v) (VideoLayer.aspectRatio v)
             (State.layerStart st) dx dy in
  let canvas := State.canvasSize st in
  (* Constrain to canvas bounds *)
  let newX := constrain (CanvasSize.width canvas) (Rect.width g) (Rect.x g) in
  let newY := constrain (CanvasSize.height canvas) (Rect.height g) (Rect.y g) in
  Updates.mk None (Some (snap st newX)) (Some (snap st newY)) None None
    (Some (snap st (Rect.width g))) (Some (snap st (Rect.height g)))
    None None None None None None None None.

(** The updates a drag pointer-move passes to [updateLayer]. *)
Definition dragUpdates (st : State.t) (layer : Layer) (px py : Q) : Updates.t :=
  let newX := fsub px (Point.x (State.dragStart st)) in
  let newY := fsub py (Point.y (State.dragStart st)) in
  let maxWidth := Size.width (layerSize layer) in
  let maxHeight := Size.height (layerSize layer) in
  let canvas := State.canvasSize st in
  Updates.mk None
    (Some (snap st (constrain (CanvasSize.width canvas) maxWidth newX)))
    (Some (snap st (constrain (CanvasSize.height canvas) maxHeight newY)))
    None None None None None None None None None None None None.

(** The dragging branch of [handleCanvasMouseMove]. *)
Definition dragMove (st : State.t) (px py : Q) : State.t :=
  match State.draggingLayer st with
  | Some did =>
      if truthy (Some did) then
        match findLayer did (State.layers st) with
        | Some layer =>
            State.setLayers st
              (updateLayer did (dragUpdates st layer px py) (State.layers st))
        | None => st
        end
      else st
  | None => st
  end.

(** [handleCanvasMouseMove], without the cursor hint. *)
Definition handleCanvasMouseMove (st : State.t) (px py : Q) : State.t :=
  match State.resizingLayer st, State.resizeHandle st with
  | Some rid, Some handle =>
      if truthy (Some rid) then
        match findLayer rid (State.layers st) with
        | Some (Video b v) =>
            State.setLayers st
              (updateLayer rid (resizeUpdates st v handle px py) (State.layers st))
        | _ => st
        end
      else dragMove st px py
  | _, _ => dragMove st px py
  end.

End Engine.

End Double.

(** ** Adding and resetting layers *)

Definition isVideo (l : Layer) : bool :=
  match type l with video => true | text => false end.

Definition isText (l : Layer) : bool :=
  match type l with text => true | video => false end.

(** [layers.length > 0 ? Math.max(...layers.map(l => l.zIndex)) : 0] *)
Definition maxZIndexOrZero (ls : list Layer) : Z :=
  if (0 <? List.length ls)%nat then Math_max_list (map zIndex ls) else 0%Z.

(** [addVideoLayer]; [now] is the value of [Date.now()]. *)
Definition addVideoLayer (now : Z) (st : State.t) : State.t :=
  let ls := State.layers st in
  let maxZIndex := maxZIndexOrZero ls in
  let videoLayers := filter isVideo ls in
  let offset := 20 + inject_Z (Z.of_nat (List.length ls mod 3)) * 30 in
  let newLayer :=
    Video (BaseLayer.mk ("video-" ++ string_of_Z now)
             ("Video " ++ string_of_nat (List.length videoLayers + 1))
             (snap st offset) (snap st offset) true (maxZIndex + 1)%Z)
          (VideoLayer.mk 340 340 false 1) in
  State.setSelectedLayer (State.setLayers st (ls ++ [newLayer])%list)
    (Some (id newLayer)).

(** [addTextLayer]; [now] is the value of [Date.now()]. *)
Definition addTextLayer (now : Z) (st : State.t) : State.t :=
  let ls := State.layers st in
  let maxZIndex := maxZIndexOrZero ls in
  let textLayers := filter isText ls in
  let newLayer :=
    Text (BaseLayer.mk ("text-" ++ string_of_Z now)
            ("Text " ++ string_of_nat (List.length textLayers + 1))
            (snap st 50)
            (snap st (50 + inject_Z (Z.of_nat (List.length textLayers)) * 80))
            true (maxZIndex + 1)%Z)
         (TextLayer.mk "Sample Text" 48 "Arial" "#ffffff" false false) in
  State.setSelectedLayer (State.setLayers st (ls ++ [newLayer])%list)
    (Some (id newLayer)).

(** The updates [resetLayer] passes for a video layer and for a text
    layer. *)
Definition resetVideoUpdates : Updates.t :=
  Updates.mk None (Some 20) (Some 20) None None (Some 340) (Some 340)
    (Some false) (Some 1) None None None None None None.

Definition resetTextUpdates : Updates.t :=
  Updates.mk None (Some 50) (Some 50) None None None None None None
    None (Some 48) None None (Some false) (Some false).

Definition resetLayer (st : State.t) (ident : string) : State.t :=
  match findLayer ident (State.layers st) with
  | None => st
  | Some (Video _ _) =>
      State.setLayers st (updateLayer ident resetVideoUpdates (State.layers st))
  | Some (Text _ _) =>
      State.setLayers st (updateLayer ident resetTextUpdates (State.layers st))
  end.

(** The update the visibility button passes: [{ visible: v }]. *)
Definition visibleOnly (v : bool) : Updates.t :=
  Updates.mk None None None (Some v) None None None None None None None None None None None.

(** The update the aspect button passes: [{ aspectLocked: v }]. *)
Definition aspectLockedOnly (v : bool) : Updates.t :=
  Updates.mk None None None None None None None (Some v) None None None None None None None.

(** ** Reading a command *)

(** An input declaration: a piece of text that starts with [  -i ]. *)
Definition isInputDecl (c : Chunk) : bool :=
  match c with
  | Raw str => String.prefix "  -i " str
  | _ => false
  end.

(** The number of inputs a command declares; they are numbered from 0 in the
    order of their declarations. *)
Definition inputCount (command : list Chunk) : nat :=
  List.length (filter isInputDecl command).

(** The input streams the stages of a command read, in order. *)
Definition streamsRead (command : list Chunk) : list nat :=
  flat_map (fun c => match c with Filter st => Stage.streams st | _ => [] end) command.

(** The text of a drawtext stage as the compiler escapes it. *)
Definition escapedText (str : string) : string :=
  replaceAllChar ":" "\:" (replaceAllChar "'" "\'" str).

(** Reading an escaped text back: a backslash that stands right before a
    quote or a colon is dropped, every other character is kept. *)
Fixpoint unescapedText (str : string) : string :=
  match str with
  | EmptyString => EmptyString
  | String c r =>
      match r with
      | String d _ =>
          if Ascii.eqb c "\" && (Ascii.eqb d "'" || Ascii.eqb d ":")
          then unescapedText r
          else String c (unescapedText r)
      | EmptyString => String c EmptyString
      end
  end.

(** [guarded afterBackslash str]: every quote and every colon of [str]
    comes right after a backslash; [afterBackslash] tells whether the
    character before [str] is one. *)
Fixpoint guarded (afterBackslash : bool) (str : string) : bool :=
  match str with
  | EmptyString => true
  | String c r =>
      if Ascii.eqb c "'" || Ascii.eqb c ":"
      then afterBackslash && guarded false r
      else guarded (Ascii.eqb c "\") r
  end.

(** [str.includes(c)] for one character. *)
Fixpoint hasChar (c : ascii) (str : string) : bool :=
  match str with
  | EmptyString => false
  | String d r => Ascii.eqb d c || hasChar c r
  end.

(** ** Interaction modes *)

(** The state is in a resize gesture on the layer [ident] by [handle]:
    the test [resizingLayer && resizeHandle] of the pointer-move handler
    succeeds. *)
Definition resizing (st : State.t) (ident : string) (handle : ResizeHandle) : Prop :=
  State.resizingLayer st = Some ident /\ ident <> ""
  /\ State.resizeHandle st = Some handle.


(** No gesture is under way. *)
Definition idle (st : State.t) : Prop :=
  State.draggingLayer st = None /\ State.resizingLayer st = None
  /\ State.resizeHandle st = None.

(** A layer without its geometry: position and size are put to zero, the
    other fields are kept. *)
Definition eraseGeometry (l : Layer) : Layer :=
  let b := base l in
  let b' := BaseLayer.mk (BaseLayer.id b) (BaseLayer.name b) 0 0
              (BaseLayer.visible b) (BaseLayer.zIndex b) in
  match l with
  | Video _ v => Video b' (VideoLayer.mk 0 0 (VideoLayer.aspectLocked v)
                             (VideoLayer.aspectRatio v))
  | Text _ t => Text b' t
  end.

(** An update that supplies position and size fields only. *)
Definition geometryOnly (updates : Updates.t) : Prop :=
  Updates.name updates = None /\ Updates.visible updates = None
  /\ Updates.zIndex updates = None /\ Updates.aspectLocked updates = None
  /\ Updates.aspectRatio updates = None /\ Updates.text updates = None
  /\ Updates.fontSize updates = None /\ Updates.fontFamily updates = None
  /\ Updates.color updates = None /\ Updates.bold updates = None
  /\ Updates.italic updates = None.

(** The handles whose pointer delta sets the height; the other six set the
    width. *)
Definition drivesHeight (handle : ResizeHandle) : bool :=
  match handle with
  | h_n | h_s => true
  | _ => false
  end.

(** Width over height is the ratio [ratio] up to the rounding of one
    operation on doubles: a relative error of at most [2^-52]. *)
Definition ratioWithinRounding (ratio width height : Q) : Prop :=
  0 < height /\ Qabs (width / height - ratio) <= 2 * unitRoundoff * ratio.

(** ** The initial state and sample layers *)

(** The initial values of the state hooks. *)
Definition initialState : State.t :=
  State.mk None (CanvasSize.mk 504 846) [] None None None None
    (Point.mk 0 0) (Rect.mk 0 0 0 0) "" false 20.

(** The layer "Add Video" creates on the initial state (at clock value
    1000), and the state that holds it. *)
Definition firstVideo : Layer :=
  Video (BaseLayer.mk "video-1000" "Video 1" 20 20 true 1) (VideoLayer.mk 340 340 false 1).

Definition oneVideoState : State.t := State.setLayers initialState [firstVideo].

(** The text the compiler produces for [oneVideoState]. *)
Definition oneVideoCommand : string :=
  "ffmpeg \" ++ nl ++
  "  -i " ++ dq ++ "video_1.mp4" ++ dq ++ " \" ++ nl ++
  "  -filter_complex " ++ dq ++ nl ++
  "    color=size=504x846:color=black:d=1[base];" ++ nl ++ nl ++
  "    [0:v]scale=340:340:force_original_aspect_ratio=decrease," ++ nl ++
  "    pad=340:340:(ow-iw)/2:(oh-ih)/2[v0];" ++ nl ++ nl ++
  "    [base][v0]overlay=20:20[videos];" ++ nl ++
  "  " ++ dq ++ " \" ++ nl ++
  "  -map " ++ dq ++ "[final]" ++ dq ++ " \" ++ nl ++
  "  -c:v libx264 -pix_fmt yuv420p -crf 18 -preset medium \" ++ nl ++
  "  -shortest \" ++ nl ++
  "  " ++ dq ++ "output.mp4" ++ dq.

(** A second layer, added after [firstVideo]. *)
Definition secondText : Layer :=
  Text (BaseLayer.mk "text-2000" "Text 1" 50 50 true 2)
       (TextLayer.mk "Sample Text" 48 "Arial" "#ffffff" false false).

Definition thirdVideo : Layer :=
  Video (BaseLayer.mk "video-3000" "Video 2" 50 50 true 3) (VideoLayer.mk 340 340 false 1).

(** A stand-in for the number printer in the examples: it prints the
    integral numbers, which are the only ones the examples hold. *)
Definition printIntegral (q : Q) : string := string_of_Z (Qfloor q).



(** A video layer 100 wide and 50 high, locked at ratio 2, and the state of a
    resize gesture on its east handle with snapping on a grid of 20. *)
Definition wideLocked : Layer :=
  Video (BaseLayer.mk "video-1000" "Video 1" 20 20 true 1)
        (VideoLayer.mk 100 50 true 2).


(** The same gesture with snapping off. *)
Definition wideResizeState : State.t :=
  State.mk None (CanvasSize.mk 504 846) [wideLocked] (Some "video-1000") None
    (Some "video-1000") (Some h_e) (Point.mk 120 45) (Rect.mk 20 20 100 50)
    "" false 20.



(** A resize gesture on the east handle of [firstVideo] with snapping on
    a grid of 40. *)
Definition coarseSnapState : State.t :=
  State.mk None (CanvasSize.mk 504 846) [firstVideo] (Some "video-1000") None
    (Some "video-1000") (Some h_e) (Point.mk 360 190) (Rect.mk 20 20 340 340)
    "" true 40.


(** ** Pointer coordinates *)

(** The rectangle [getBoundingClientRect()] gives for the canvas element. *)
Module ClientRect.
Record t : Type := mk {
  left : Q;
  top : Q;
  width : Q;
  height : Q
}.
End ClientRect.

(** [getMousePosition]: the pointer's client coordinates in the coordinates
    of the canvas; [canvas] is the bounding rectangle of the canvas element,
    [None] when [canvasRef.current] is null. *)
Definition getMousePosition (canvas : option ClientRect.t) (canvasSize : CanvasSize.t)
    (clientX clientY : Q) : Point.t :=
  match canvas with
  | None => Point.mk 0 0
  | Some rect =>
      let scaleX := inject_Z (CanvasSize.width canvasSize) / ClientRect.width rect in
      let scaleY := inject_Z (CanvasSize.height canvasSize) / ClientRect.height rect in
      Point.mk ((clientX - ClientRect.left rect) * scaleX)
               ((clientY - ClientRect.top rect) * scaleY)
  end.

(** The canvas of 504 by 846 shown at half its size, 100 from the left and
    60 from the top of the window. *)
Definition halfSizeRect : ClientRect.t := ClientRect.mk 100 60 252 423.

(** The double nearest to 7.3, a grid size the grid input accepts. *)
Definition fractionalGrid : Q := binary64 (73 # 10).

(** A video layer 340 wide that ends at the right edge of the canvas of
    504, and the state that holds it. *)
Definition rightVideo : Layer :=
  Video (BaseLayer.mk "video-1000" "Video 1" 164 20 true 1) (VideoLayer.mk 340 340 false 1).

Definition rightVideoState : State.t := State.setLayers initialState [rightVideo].

(** [firstVideo] in a resize gesture by its east handle, with snapping
    off. *)
Definition plainResizeState : State.t :=
  State.mk None (CanvasSize.mk 504 846) [firstVideo] (Some "video-1000") None
    (Some "video-1000") (Some h_e) (Point.mk 360 190) (Rect.mk 20 20 340 340)
    "" false 20.



(** The double nearest to 10.95, one and a half cells of [fractionalGrid]. *)
Definition oneAndHalfCells : Q := binary64 (219 # 20).

(** A video layer at a position that is not a whole number of pixels, as a
    drag on a scaled canvas leaves it, the state that holds it, and the same
    state with the layer selected. *)
Definition offGridVideo : Layer :=
  Video (BaseLayer.mk "video-1000" "Video 1" (binary64 (201 # 10)) (binary64 (403 # 10))
           true 1)
        (VideoLayer.mk 340 340 false 1).

Definition offGridState : State.t := State.setLayers initialState [offGridVideo].

Definition offGridSelectedState : State.t :=
  State.setSelectedLayer offGridState (Some "video-1000").

(** The three sample layers as one collection, the same collection held in
    another order, and the state that holds the first. *)
Definition threeLayers : list Layer := [firstVideo; secondText; thirdVideo].

Definition threeLayersRotated : list Layer := [thirdVideo; firstVideo; secondText].

Definition threeLayerState : State.t := State.setLayers initialState threeLayers.


(** [firstVideo] selected, with no gesture under way. *)
Definition selectedVideoState : State.t :=
  State.setSelectedLayer oneVideoState (Some "video-1000").

(** * Properties *)

(** ** Rounding and snapping *)

Lemma Math_round_bounds (q : Q) :
  q - (1 # 2) < inject_Z (Math_round q) /\ inject_Z (Math_round q) <= q + (1 # 2).
Proof.
  unfold Math_round. split.
  - pose proof (Qlt_floor (q + (1 # 2))) as Hlt.
    rewrite inject_Z_plus in Hlt. change (inject_Z 1) with 1 in Hlt. lra.
  - apply Qfloor_le.
Qed.

Lemma Math_round_inject_Z (k : Z) : Math_round (inject_Z k) = k.
Proof.
  destruct (Math_round_bounds (inject_Z k)) as [Hlo Hhi].
  assert (Hlt1 : inject_Z (k - 1) < inject_Z (Math_round (inject_Z k))).
  { unfold Z.sub. rewrite inject_Z_plus. change (inject_Z (Z.opp 1)) with (-1 # 1). lra. }
  assert (Hlt2 : inject_Z (Math_round (inject_Z k)) < inject_Z (k + 1)).
  { rewrite inject_Z_plus. change (inject_Z 1) with 1. lra. }
  rewrite <- Zlt_Qlt in Hlt1, Hlt2. lia.
Qed.

Lemma Math_round_comp (p q : Q) : p == q -> Math_round p = Math_round q.
Proof.
  intros Heq. unfold Math_round. apply Qfloor_comp. rewrite Heq. reflexivity.
Qed.


Lemma snapValue_on (g v : Q) :
  snapValue true g v = inject_Z (Math_round (v / g)) * g.
Proof. reflexivity. Qed.

(** Snapping moves a value by at most half a grid cell. *)
Lemma snapValue_distance (g v : Q) :
  0 < g -> Qabs (snapValue true g v - v) <= g / 2.
Proof.
  intros Hg. rewrite snapValue_on.
  destruct (Math_round_bounds (v / g)) as [Hlo Hhi].
  assert (Hv : v == (v / g) * g) by (field; lra).
  remember (inject_Z (Math_round (v / g))) as k eqn:Ek. clear Ek.
  remember (v / g) as r eqn:Er. clear Er.
  assert (H1 : (r - (1 # 2)) * g <= k * g) by (apply Qmult_le_compat_r; lra).
  assert (H2 : k * g <= (r + (1 # 2)) * g) by (apply Qmult_le_compat_r; lra).
  apply Qabs_Qle_condition. unfold Qdiv. change (/ 2) with (1 # 2).
  split; lra.
Qed.


(** ** The update operation *)

Lemma id_updatedLayer (layer : Layer) (updates : Updates.t) :
  id (updatedLayer layer updates) = id layer.
Proof. destruct layer; reflexivity. Qed.

(** Looking a layer up after an update gives the updated layer. *)
Lemma findLayer_updateLayer (ident : string) (updates : Updates.t) (ls : list Layer) :
  findLayer ident (updateLayer ident updates ls)
  = option_map (fun layer => updatedLayer layer updates) (findLayer ident ls).
Proof.
  unfold findLayer, updateLayer.
  induction ls as [| l rest IH]; [reflexivity |].
  cbn [map find].
  destruct (id l =? ident)%string eqn:Eid; cbn [negb].
  - rewrite id_updatedLayer, Eid. reflexivity.
  - rewrite Eid. exact IH.
Qed.

Lemma findLayer_id (ident : string) (ls : list Layer) (layer : Layer) :
  findLayer ident ls = Some layer -> id layer = ident /\ In layer ls.
Proof.
  unfold findLayer. intros Hf. apply find_some in Hf as [Hin Heq].
  apply String.eqb_eq in Heq. split; assumption.
Qed.



(** ** Z-order manager *)

Lemma id_withZIndex (l : Layer) (z : Z) : id (withZIndex l z) = id l.
Proof. destruct l; reflexivity. Qed.

Lemma zIndex_withZIndex (l : Layer) (z : Z) : zIndex (withZIndex l z) = z.
Proof. destruct l; reflexivity. Qed.

Lemma withZIndex_restore (l : Layer) (z : Z) :
  withZIndex (withZIndex l z) (zIndex l) = l.
Proof. destruct l as [[] ?|[] ?]; reflexivity. Qed.

(** With pairwise distinct keys, two members with the same key are the same
    member. *)
Lemma NoDup_map_eq {A B : Type} (f : A -> B) (ls : list A) (a b : A) :
  NoDup (map f ls) -> In a ls -> In b ls -> f a = f b -> a = b.
Proof.
  induction ls as [| c rest IH]; intros Hnd Ha Hb Hf; [contradiction |].
  cbn [map] in Hnd. apply NoDup_cons_iff in Hnd as [Hnotin Hnd].
  destruct Ha as [-> | Ha], Hb as [-> | Hb].
  - reflexivity.
  - exfalso. apply Hnotin. rewrite Hf. apply in_map, Hb.
  - exfalso. apply Hnotin. rewrite <- Hf. apply in_map, Ha.
  - apply IH; assumption.
Qed.

Lemma filter_nil_iff {A : Type} (f : A -> bool) (ls : list A) :
  filter f ls = [] <-> forall a, In a ls -> f a = false.
Proof.
  split.
  - intros Hnil a Hin. destruct (f a) eqn:Efa; [| reflexivity].
    assert (Hmem : In a (filter f ls)) by (apply filter_In; split; assumption).
    rewrite Hnil in Hmem. contradiction.
  - intros Hall. induction ls as [| a rest IH]; [reflexivity |].
    cbn [filter]. rewrite (Hall a (or_introl eq_refl)).
    apply IH. intros c Hc. apply Hall. right. exact Hc.
Qed.

(** [reduce] with [(min, l) => l.zIndex < min.zIndex ? l : min] picks a
    member of least zIndex. *)
Lemma reduce1_min_spec (first : Layer) (rest : list Layer) :
  let r := reduce1 (fun min l => if (zIndex l <? zIndex min)%Z then l else min)
                   first rest in
  In r (first :: rest) /\ forall l, In l (first :: rest) -> (zIndex r <= zIndex l)%Z.
Proof.
  unfold reduce1. revert first.
  induction rest as [| a rest IH]; intros first; cbn [fold_left].
  - split; [left; reflexivity |].
    intros l [<- | []]. lia.
  - destruct (IH (if (zIndex a <? zIndex first)%Z then a else first)) as [Hin Hmin].
    split.
    + destruct Hin as [Heq | Hin]; [| right; right; exact Hin].
      rewrite <- Heq. destruct (zIndex a <? zIndex first)%Z; [right; left | left]; reflexivity.
    + intros l Hl.
      assert (Hacc : (zIndex (fold_left
                        (fun min l0 => if (zIndex l0 <? zIndex min)%Z then l0 else min)
                        rest (if (zIndex a <? zIndex first)%Z then a else first))
                      <= zIndex (if (zIndex a <? zIndex first)%Z then a else first))%Z).
      { apply Hmin. left. reflexivity. }
      destruct Hl as [<- | [<- | Hl]].
      * destruct (Z.ltb_spec (zIndex a) (zIndex first)); lia.
      * destruct (Z.ltb_spec (zIndex a) (zIndex first)); lia.
      * apply Hmin. right. exact Hl.
Qed.

(** [reduce] with [(max, l) => l.zIndex > max.zIndex ? l : max] picks a
    member of greatest zIndex. *)
Lemma reduce1_max_spec (first : Layer) (rest : list Layer) :
  let r := reduce1 (fun max l => if (zIndex l >? zIndex max)%Z then l else max)
                   first rest in
  In r (first :: rest) /\ forall l, In l (first :: rest) -> (zIndex l <= zIndex r)%Z.
Proof.
  unfold reduce1. revert first.
  induction rest as [| a rest IH]; intros first; cbn [fold_left].
  - split; [left; reflexivity |].
    intros l [<- | []]. lia.
  - destruct (IH (if (zIndex a >? zIndex first)%Z then a else first)) as [Hin Hmax].
    split.
    + destruct Hin as [Heq | Hin]; [| right; right; exact Hin].
      rewrite <- Heq. destruct (zIndex a >? zIndex first)%Z; [right; left | left]; reflexivity.
    + intros l Hl.
      assert (Hacc : (zIndex (if (zIndex a >? zIndex first)%Z then a else first)
                      <= zIndex (fold_left
                           (fun max l0 => if (zIndex l0 >? zIndex max)%Z then l0 else max)
                           rest (if (zIndex a >? zIndex first)%Z then a else first)))%Z).
      { apply Hmax. left. reflexivity. }
      destruct Hl as [<- | [<- | Hl]].
      * destruct (Z.gtb_spec (zIndex a) (zIndex first)); lia.
      * destruct (Z.gtb_spec (zIndex a) (zIndex first)); lia.
      * apply Hmax. right. exact Hl.
Qed.

Lemma id_swapZ ident other zn zt l : id (swapZ ident other zn zt l) = id l.
Proof.
  unfold swapZ. destruct (id l =? ident)%string; [apply id_withZIndex |].
  destruct (id l =? other)%string; [apply id_withZIndex | reflexivity].
Qed.

Lemma findLayer_map_swapZ ident other zn zt (ls : list Layer) (target : Layer) :
  findLayer ident ls = Some target ->
  findLayer ident (map (swapZ ident other zn zt) ls) = Some (withZIndex target zn).
Proof.
  unfold findLayer. induction ls as [| l rest IH]; [discriminate |].
  cbn [map find]. rewrite id_swapZ.
  destruct (id l =? ident)%string eqn:Eid.
  - intros [= <-]. unfold swapZ. rewrite Eid. reflexivity.
  - exact IH.
Qed.

Lemma map_fixed {A : Type} (f : A -> A) (ls : list A) :
  (forall a, In a ls -> f a = a) -> map f ls = ls.
Proof.
  intros Hfix. rewrite <- (map_id ls) at 2. apply map_ext_in. exact Hfix.
Qed.

(** Exchanging twice gives the collection back. *)
Lemma swapZ_twice (ident : string) (ls : list Layer) (target other : Layer) :
  NoDup (map id ls) -> In target ls -> In other ls ->
  id target = ident -> id other <> ident ->
  map (swapZ ident (id other) (zIndex target) (zIndex other))
      (map (swapZ ident (id other) (zIndex other) (zIndex target)) ls) = ls.
Proof.
  intros Hids Ht Ho Hid Hneq. rewrite map_map. apply map_fixed.
  intros l Hl. unfold swapZ at 2.
  destruct (id l =? ident)%string eqn:E1.
  - apply String.eqb_eq in E1.
    assert (l = target) as -> by (apply (NoDup_map_eq id ls); congruence).
    unfold swapZ. rewrite id_withZIndex, Hid, String.eqb_refl.
    apply withZIndex_restore.
  - destruct (id l =? id other)%string eqn:E2.
    + apply String.eqb_eq in E2.
      assert (l = other) as -> by (apply (NoDup_map_eq id ls); congruence).
      unfold swapZ. rewrite id_withZIndex, E1, String.eqb_refl.
      apply withZIndex_restore.
    + unfold swapZ. rewrite E1, E2. reflexivity.
Qed.

(** Raising a layer that is not topmost and lowering it again gives the
    collection back. *)
Lemma raise_then_lower (ident : string) (ls : list Layer) (target : Layer) :
  NoDup (map id ls) -> NoDup (map zIndex ls) ->
  findLayer ident ls = Some target ->
  (exists l, In l ls /\ (zIndex target < zIndex l)%Z) ->
  moveLayerDown ident (moveLayerUp ident ls) = ls.
Proof.
  intros Hids Hzs Hfind (above & Habove & Hgt).
  destruct (findLayer_id _ _ _ Hfind) as [Hid Hin].
  unfold moveLayerUp. rewrite Hfind.
  destruct (filter (fun l => (zIndex l >? zIndex target)%Z) ls)
    as [| first rest] eqn:Ehigher.
  { exfalso. rewrite filter_nil_iff in Ehigher.
    specialize (Ehigher above Habove). cbv beta in Ehigher.
    rewrite Z.gtb_ltb in Ehigher. apply Z.ltb_ge in Ehigher. lia. }
  destruct (reduce1_min_spec first rest) as [Hnh_in Hnh_min].
  set (nh := reduce1 (fun min l => if (zIndex l <? zIndex min)%Z then l else min)
                     first rest) in *.
  rewrite <- Ehigher in Hnh_in, Hnh_min.
  apply filter_In in Hnh_in as [Hnh_ls Hnh_gt].
  rewrite Z.gtb_ltb in Hnh_gt. apply Z.ltb_lt in Hnh_gt.
  assert (Hmin : forall l, In l ls -> (zIndex target < zIndex l)%Z ->
                           (zIndex nh <= zIndex l)%Z).
  { intros l Hl Hlt. apply Hnh_min. apply filter_In. split; [exact Hl |].
    rewrite Z.gtb_ltb. apply Z.ltb_lt. exact Hlt. }
  assert (Hnh_id : id nh <> ident).
  { intros Heq.
    assert (Hsame : nh = target) by (apply (NoDup_map_eq id ls); congruence).
    rewrite Hsame in Hnh_gt. lia. }
  change (map _ ls) with (map (swapZ ident (id nh) (zIndex nh) (zIndex target)) ls).
  unfold moveLayerDown.
  rewrite (findLayer_map_swapZ _ _ _ _ _ _ Hfind). rewrite zIndex_withZIndex.
  set (sw := swapZ ident (id nh) (zIndex nh) (zIndex target)).
  assert (Hsw_nh : sw nh = withZIndex nh (zIndex target)).
  { unfold sw, swapZ. apply String.eqb_neq in Hnh_id. rewrite Hnh_id.
    rewrite String.eqb_refl. reflexivity. }
  destruct (filter (fun l => (zIndex l <? zIndex nh)%Z) (map sw ls))
    as [| first' rest'] eqn:Elower.
  { exfalso. rewrite filter_nil_iff in Elower.
    specialize (Elower (sw nh) (in_map sw _ _ Hnh_ls)). cbv beta in Elower.
    rewrite Hsw_nh, zIndex_withZIndex in Elower. apply Z.ltb_ge in Elower. lia. }
  destruct (reduce1_max_spec first' rest') as [Hnl_in Hnl_max].
  set (nl := reduce1 (fun max l => if (zIndex l >? zIndex max)%Z then l else max)
                     first' rest') in *.
  rewrite <- Elower in Hnl_in, Hnl_max.
  assert (Hnl_ge : (zIndex target <= zIndex nl)%Z).
  { rewrite <- (zIndex_withZIndex nh (zIndex target)), <- Hsw_nh.
    apply Hnl_max. apply filter_In. split; [apply in_map, Hnh_ls |].
    rewrite Hsw_nh, zIndex_withZIndex. apply Z.ltb_lt. exact Hnh_gt. }
  apply filter_In in Hnl_in as [Hnl_ls Hnl_lt]. apply Z.ltb_lt in Hnl_lt.
  apply in_map_iff in Hnl_ls as (l0 & Hl0 & Hl0_in).
  assert (Hnl : id nl = id nh /\ zIndex nl = zIndex target).
  { rewrite <- Hl0 in *. unfold sw, swapZ in *.
    destruct (id l0 =? ident)%string eqn:E1.
    - rewrite zIndex_withZIndex in Hnl_lt. lia.
    - destruct (id l0 =? id nh)%string eqn:E2.
      + apply String.eqb_eq in E2. rewrite id_withZIndex, zIndex_withZIndex.
        split; [exact E2 | reflexivity].
      + exfalso. apply String.eqb_neq in E1.
        assert (Hne : zIndex l0 <> zIndex target).
        { intros Heq. apply E1. rewrite <- Hid. f_equal.
          apply (NoDup_map_eq zIndex ls); assumption. }
        specialize (Hmin l0 Hl0_in). lia. }
  destruct Hnl as [Hnl_id Hnl_z].
  change (map _ (map sw ls))
    with (map (swapZ ident (id nl) (zIndex nl) (zIndex nh)) (map sw ls)).
  rewrite Hnl_id, Hnl_z. unfold sw.
  apply swapZ_twice; assumption.
Qed.

(** Lowering a layer that is not bottommost and raising it again gives the
    collection back. *)
Lemma lower_then_raise (ident : string) (ls : list Layer) (target : Layer) :
  NoDup (map id ls) -> NoDup (map zIndex ls) ->
  findLayer ident ls = Some target ->
  (exists l, In l ls /\ (zIndex l < zIndex target)%Z) ->
  moveLayerUp ident (moveLayerDown ident ls) = ls.
Proof.
  intros Hids Hzs Hfind (below & Hbelow & Hlt).
  destruct (findLayer_id _ _ _ Hfind) as [Hid Hin].
  unfold moveLayerDown. rewrite Hfind.
  destruct (filter (fun l => (zIndex l <? zIndex target)%Z) ls)
    as [| first rest] eqn:Elower.
  { exfalso. rewrite filter_nil_iff in Elower.
    specialize (Elower below Hbelow). cbv beta in Elower.
    apply Z.ltb_ge in Elower. lia. }
  destruct (reduce1_max_spec first rest) as [Hnl_in Hnl_max].
  set (nl := reduce1 (fun max l => if (zIndex l >? zIndex max)%Z then l else max)
                     first rest) in *.
  rewrite <- Elower in Hnl_in, Hnl_max.
  apply filter_In in Hnl_in as [Hnl_ls Hnl_lt]. apply Z.ltb_lt in Hnl_lt.
  assert (Hmax : forall l, In l ls -> (zIndex l < zIndex target)%Z ->
                           (zIndex l <= zIndex nl)%Z).
  { intros l Hl Hl_lt. apply Hnl_max. apply filter_In. split; [exact Hl |].
    apply Z.ltb_lt. exact Hl_lt. }
  assert (Hnl_id : id nl <> ident).
  { intros Heq.
    assert (Hsame : nl = target) by (apply (NoDup_map_eq id ls); congruence).
    rewrite Hsame in Hnl_lt. lia. }
  change (map _ ls) with (map (swapZ ident (id nl) (zIndex nl) (zIndex target)) ls).
  unfold moveLayerUp.
  rewrite (findLayer_map_swapZ _ _ _ _ _ _ Hfind). rewrite zIndex_withZIndex.
  set (sw := swapZ ident (id nl) (zIndex nl) (zIndex target)).
  assert (Hsw_nl : sw nl = withZIndex nl (zIndex target)).
  { unfold sw, swapZ. apply String.eqb_neq in Hnl_id. rewrite Hnl_id.
    rewrite String.eqb_refl. reflexivity. }
  destruct (filter (fun l => (zIndex l >? zIndex nl)%Z) (map sw ls))
    as [| first' rest'] eqn:Ehigher.
  { exfalso. rewrite filter_nil_iff in Ehigher.
    specialize (Ehigher (sw nl) (in_map sw _ _ Hnl_ls)). cbv beta in Ehigher.
    rewrite Hsw_nl, zIndex_withZIndex, Z.gtb_ltb in Ehigher.
    apply Z.ltb_ge in Ehigher. lia. }
  destruct (reduce1_min_spec first' rest') as [Hnh_in Hnh_min].
  set (nh := reduce1 (fun min l => if (zIndex l <? zIndex min)%Z then l else min)
                     first' rest') in *.
  rewrite <- Ehigher in Hnh_in, Hnh_min.
  assert (Hnh_le : (zIndex nh <= zIndex target)%Z).
  { rewrite <- (zIndex_withZIndex nl (zIndex target)), <- Hsw_nl.
    apply Hnh_min. apply filter_In. split; [apply in_map, Hnl_ls |].
    rewrite Hsw_nl, zIndex_withZIndex, Z.gtb_ltb. apply Z.ltb_lt. exact Hnl_lt. }
  apply filter_In in Hnh_in as [Hnh_ls Hnh_gt].
  rewrite Z.gtb_ltb in Hnh_gt. apply Z.ltb_lt in Hnh_gt.
  apply in_map_iff in Hnh_ls as (l0 & Hl0 & Hl0_in).
  assert (Hnh : id nh = id nl /\ zIndex nh = zIndex target).
  { rewrite <- Hl0 in *. unfold sw, swapZ in *.
    destruct (id l0 =? ident)%string eqn:E1.
    - rewrite zIndex_withZIndex in Hnh_gt. lia.
    - destruct (id l0 =? id nl)%string eqn:E2.
      + apply String.eqb_eq in E2. rewrite id_withZIndex, zIndex_withZIndex.
        split; [exact E2 | reflexivity].
      + exfalso. apply String.eqb_neq in E1.
        assert (Hne : zIndex l0 <> zIndex target).
        { intros Heq. apply E1. rewrite <- Hid. f_equal.
          apply (NoDup_map_eq zIndex ls); assumption. }
        specialize (Hmax l0 Hl0_in). lia. }
  destruct Hnh as [Hnh_id Hnh_z].
  change (map _ (map sw ls))
    with (map (swapZ ident (id nh) (zIndex nh) (zIndex nl)) (map sw ls)).
  rewrite Hnh_id, Hnh_z. unfold sw.
  apply swapZ_twice; assumption.
Qed.

Lemma moveLayerUp_topmost (ident : string) (ls : list Layer) (target : Layer) :
  findLayer ident ls = Some target ->
  (forall l, In l ls -> (zIndex l <= zIndex target)%Z) ->
  moveLayerUp ident ls = ls.
Proof.
  intros Hfind Htop. unfold moveLayerUp. rewrite Hfind.
  replace (filter (fun l => (zIndex l >? zIndex target)%Z) ls) with (@nil Layer);
    [reflexivity |].
  symmetry. apply filter_nil_iff. intros l Hl.
  rewrite Z.gtb_ltb. apply Z.ltb_ge. apply Htop, Hl.
Qed.

Lemma moveLayerDown_bottommost (ident : string) (ls : list Layer) (target : Layer) :
  findLayer ident ls = Some target ->
  (forall l, In l ls -> (zIndex target <= zIndex l)%Z) ->
  moveLayerDown ident ls = ls.
Proof.
  intros Hfind Hbot. unfold moveLayerDown. rewrite Hfind.
  replace (filter (fun l => (zIndex l <? zIndex target)%Z) ls) with (@nil Layer);
    [reflexivity |].
  symmetry. apply filter_nil_iff. intros l Hl.
  apply Z.ltb_ge. apply Hbot, Hl.
Qed.

(** C7 (amended): in a collection with pairwise distinct ids and pairwise
    distinct zIndex values, raising a layer that is not topmost and then
    lowering it, or lowering a layer that is not bottommost and then
    raising it, gives the collection back; raising the topmost layer and
    lowering the bottommost layer change nothing. *)
Theorem raise_lower_inverse (ident : string) (ls : list Layer) (target : Layer)
    (Hids : NoDup (map id ls)) (Hzs : NoDup (map zIndex ls))
    (Hfind : findLayer ident ls = Some target) :
  ((exists l, In l ls /\ (zIndex target < zIndex l)%Z) ->
     moveLayerDown ident (moveLayerUp ident ls) = ls)
  /\ ((exists l, In l ls /\ (zIndex l < zIndex target)%Z) ->
     moveLayerUp ident (moveLayerDown ident ls) = ls)
  /\ ((forall l, In l ls -> (zIndex l <= zIndex target)%Z) ->
     moveLayerUp ident ls = ls)
  /\ ((forall l, In l ls -> (zIndex target <= zIndex l)%Z) ->
     moveLayerDown ident ls = ls).
Proof.
  split; [| split; [| split]].
  - apply raise_then_lower; assumption.
  - apply lower_then_raise; assumption.
  - apply moveLayerUp_topmost; assumption.
  - apply moveLayerDown_bottommost; assumption.
Qed.

(** ** Duplicating a layer *)

Lemma fold_left_max_ge (zs : list Z) (z0 : Z) :
  (z0 <= fold_left Z.max zs z0)%Z
  /\ forall z, In z zs -> (z <= fold_left Z.max zs z0)%Z.
Proof.
  revert z0. induction zs as [| a rest IH]; intros z0; cbn [fold_left].
  - split; [lia | intros z []].
  - destruct (IH (Z.max z0 a)) as [Hacc Hrest]. split; [lia |].
    intros z [<- | Hz]; [lia | apply Hrest, Hz].
Qed.

Lemma Math_max_list_ge (zs : list Z) (z : Z) :
  In z zs -> (z <= Math_max_list zs)%Z.
Proof.
  destruct zs as [| z0 rest]; [intros [] |].
  cbn [Math_max_list]. destruct (fold_left_max_ge rest z0) as [H0 Hrest].
  intros [<- | Hz]; [exact H0 | apply Hrest, Hz].
Qed.

(** ** Sorting *)

Lemma insertSorted_In (cmp : Layer -> Layer -> Z) (a l : Layer) (ls : list Layer) :
  In l (insertSorted cmp a ls) <-> l = a \/ In l ls.
Proof.
  induction ls as [| b rest IH]; cbn [insertSorted].
  - cbn [In]. intuition congruence.
  - destruct (cmp a b <=? 0)%Z; cbn [In] in *; [intuition congruence |].
    rewrite IH. intuition congruence.
Qed.

Lemma sortLayers_In (cmp : Layer -> Layer -> Z) (l : Layer) (ls : list Layer) :
  In l (sortLayers cmp ls) <-> In l ls.
Proof.
  unfold sortLayers. induction ls as [| a rest IH]; [reflexivity |].
  cbn [fold_right In]. rewrite insertSorted_In, IH. intuition congruence.
Qed.




(** ** Filter-graph compiler *)

Lemma existsb_eqb_In (label : string) (defined : list string) :
  existsb (String.eqb label) defined = true <-> In label defined.
Proof.
  rewrite existsb_exists. split.
  - intros (x & Hx & Heq). apply String.eqb_eq in Heq. subst x. exact Hx.
  - intros Hin. exists label. split; [exact Hin | apply String.eqb_refl].
Qed.

Lemma producedLabels_app (a b : list Chunk) :
  producedLabels (a ++ b) = (producedLabels a ++ producedLabels b)%list.
Proof. unfold producedLabels. apply flat_map_app. Qed.

Lemma forallb_pointwise {A : Type} (f g : A -> bool) (l : list A) :
  (forall a, f a = g a) -> forallb f l = forallb g l.
Proof.
  intros Hfg. induction l as [| a rest IH]; [reflexivity |].
  cbn [forallb]. rewrite Hfg, IH. reflexivity.
Qed.

(** Only the set of labels written so far matters. *)
Lemma wellChainedFrom_ext (d d' : list string) (command : list Chunk) :
  (forall label, In label d <-> In label d') ->
  wellChainedFrom d command = wellChainedFrom d' command.
Proof.
  revert d d'. induction command as [| c rest IH]; intros d d' Hsame; [reflexivity |].
  assert (Hmem : forall label,
             existsb (String.eqb label) d = existsb (String.eqb label) d').
  { intros label. apply eq_true_iff_eq. rewrite !existsb_eqb_In. apply Hsame. }
  destruct c as [str | st | label]; cbn [wellChainedFrom].
  - apply IH, Hsame.
  - f_equal.
    + apply forallb_pointwise. intros label. apply Hmem.
    + apply IH. intros label. cbn [In]. rewrite Hsame. reflexivity.
  - f_equal; [apply Hmem | apply IH, Hsame].
Qed.

Lemma wellChainedFrom_app (d : list string) (a b : list Chunk) :
  wellChainedFrom d (a ++ b)
  = wellChainedFrom d a && wellChainedFrom (producedLabels a ++ d) b.
Proof.
  revert d. induction a as [| c rest IH]; intros d; [reflexivity |].
  destruct c as [str | st | label]; cbn [app wellChainedFrom].
  - apply IH.
  - rewrite IH, <- andb_assoc. do 2 f_equal.
    apply wellChainedFrom_ext. intros label.
    cbn [producedLabels flat_map app]. fold (producedLabels rest).
    rewrite !in_app_iff. cbn [In]. rewrite in_app_iff. tauto.
  - rewrite IH, <- andb_assoc. reflexivity.
Qed.

(** Appending one stage to a well-chained command. *)
Lemma wellChained_snoc (command : list Chunk) (tail : list Chunk) :
  wellChained (command ++ tail)
  = wellChained command && wellChainedFrom (producedLabels command) tail.
Proof.
  unfold wellChained. rewrite wellChainedFrom_app. f_equal.
  apply wellChainedFrom_ext. intros label. rewrite app_nil_r. reflexivity.
Qed.

(** Induction over a [forEach] loop: the invariant holds of the elements
    visited so far and the accumulator. *)
Lemma fold_left_invariant {A S : Type} (f : S -> A -> S) (P : list A -> S -> Prop)
    (l : list A) (init : S) :
  P [] init ->
  (forall pre a acc, In a l -> P pre acc -> P (pre ++ [a])%list (f acc a)) ->
  P l (fold_left f l init).
Proof.
  revert P init. induction l as [| a rest IH]; intros P init Hinit Hstep; [exact Hinit |].
  cbn [fold_left].
  apply (IH (fun pre acc => P (a :: pre) acc)).
  - apply (Hstep [] a init); [left; reflexivity | exact Hinit].
  - intros pre c acc Hc Hacc. apply (Hstep (a :: pre) c acc); [right; exact Hc | exact Hacc].
Qed.

Section Compiler.

Variable numberToString : Q -> string.

(** C9: with no visible layer (the empty list included) the compiler
    answers the diagnostic placeholder, whatever the canvas size and the
    template: the text is the placeholder alone, with no input declaration,
    no filter graph and no output mapping. *)
Theorem generateFFmpegCommand_no_visible_layer (st : State.t)
    (Hnone : forall l, In l (State.layers st) -> visible l = false) :
  State.ffmpegCommand (generateFFmpegCommand numberToString st)
    = "# Add at least one visible layer first"
  /\ commandChunks numberToString (State.layers st) (State.canvasSize st)
       (State.templateImage st) = [Raw diagnostic]
  /\ includes "-i " (State.ffmpegCommand (generateFFmpegCommand numberToString st)) = false
  /\ includes "-filter_complex"
       (State.ffmpegCommand (generateFFmpegCommand numberToString st)) = false
  /\ includes "-map" (State.ffmpegCommand (generateFFmpegCommand numberToString st)) = false
  /\ includes "ffmpeg" (State.ffmpegCommand (generateFFmpegCommand numberToString st)) = false.
Proof.
  assert (Hchunks : commandChunks numberToString (State.layers st) (State.canvasSize st)
                      (State.templateImage st) = [Raw diagnostic]).
  { unfold commandChunks.
    replace (filter visible (State.layers st)) with (@nil Layer)
      by (symmetry; apply filter_nil_iff; exact Hnone).
    reflexivity. }
  unfold generateFFmpegCommand. cbn [State.setFfmpegCommand State.ffmpegCommand].
  rewrite Hchunks. repeat split; reflexivity.
Qed.


(** *** Which labels each phase writes, and that it reads written ones *)

Lemma inputFiles_chained (videoLayers : list (BaseLayer.t * VideoLayer.t))
    (templateImage : option string) (command : list Chunk) :
  wellChained command = true ->
  wellChained (inputFiles videoLayers templateImage command) = true
  /\ producedLabels (inputFiles videoLayers templateImage command)
     = producedLabels command.
Proof.
  intros Hwc. unfold inputFiles.
  assert (Hloop : forall f : BaseLayer.t * VideoLayer.t -> string,
             wellChained (forEachIdx (fun cmd layer (_ : nat) => (cmd ++ [Raw (f layer)])%list)
                            videoLayers command) = true
             /\ producedLabels (forEachIdx (fun cmd layer (_ : nat) =>
                                  (cmd ++ [Raw (f layer)])%list) videoLayers command)
                = producedLabels command).
  { intros f. unfold forEachIdx.
    apply (fold_left_invariant _
             (fun _ cmd => wellChained cmd = true
                           /\ producedLabels cmd = producedLabels command)).
    - split; [exact Hwc | reflexivity].
    - intros pre p acc _ [Hacc Hlabels]. split.
      + rewrite wellChained_snoc, Hacc. reflexivity.
      + rewrite producedLabels_app, Hlabels. apply app_nil_r. }
  match goal with
  | |- context [forEachIdx (fun cmd layer _ => (cmd ++ [Raw (@?g layer)])%list) _ _] =>
      destruct (Hloop g) as [Hwc1 Hlab1]
  end.
  destruct (truthy templateImage).
  - split.
    + rewrite wellChained_snoc, Hwc1. reflexivity.
    + rewrite producedLabels_app, Hlab1. apply app_nil_r.
  - split; assumption.
Qed.

Lemma scaleVideos_chained (videoLayers : list (BaseLayer.t * VideoLayer.t))
    (command : list Chunk) :
  wellChained command = true ->
  wellChained (scaleVideos videoLayers command) = true
  /\ producedLabels (scaleVideos videoLayers command)
     = (producedLabels command
        ++ map (fun p => ("v" ++ string_of_nat (fst p))%string)
               (combine (seq 0 (List.length videoLayers)) videoLayers))%list.
Proof.
  intros Hwc. unfold scaleVideos, forEachIdx.
  apply (fold_left_invariant _
           (fun pre cmd =>
              wellChained cmd = true
              /\ producedLabels cmd
                 = (producedLabels command
                    ++ map (fun p => ("v" ++ string_of_nat (fst p))%string) pre)%list)).
  - split; [exact Hwc | symmetry; apply app_nil_r].
  - intros pre p acc _ [Hacc Hlabels]. split.
    + rewrite wellChained_snoc, Hacc. reflexivity.
    + rewrite producedLabels_app, Hlabels, map_app, <- app_assoc. reflexivity.
Qed.

Lemma overlayVideos_chained (videoLayers : list (BaseLayer.t * VideoLayer.t))
    (command : list Chunk) (currentBase : string) :
  wellChained command = true ->
  In currentBase (producedLabels command) ->
  (forall p, In p (combine (seq 0 (List.length videoLayers)) videoLayers) ->
             In ("v" ++ string_of_nat (fst p)) (producedLabels command)) ->
  let acc := overlayVideos videoLayers (command, currentBase) in
  wellChained (fst acc) = true
  /\ In (snd acc) (producedLabels (fst acc))
  /\ (forall label, In label (producedLabels command) ->
                    In label (producedLabels (fst acc)))
  /\ (forall label, In label (producedLabels (fst acc)) ->
                    In label (producedLabels command) \/ overlayLabel label).
Proof.
  intros Hwc Hcur Hvs. unfold overlayVideos, forEachIdx.
  apply (fold_left_invariant _
           (fun _ acc =>
              wellChained (fst acc) = true
              /\ In (snd acc) (producedLabels (fst acc))
              /\ (forall label, In label (producedLabels command) ->
                                In label (producedLabels (fst acc)))
              /\ (forall label, In label (producedLabels (fst acc)) ->
                                In label (producedLabels command) \/ overlayLabel label))).
  - cbn [fst snd]. repeat split; auto.
  - intros pre p [cmd cur] Hp (Hacc & Hin & Hkeep & Hnew). cbn [fst snd] in *.
    set (nextBase := if (fst p =? List.length videoLayers - 1)%nat then "videos"
                     else "tmp" ++ string_of_nat (fst p)).
    repeat split.
    + rewrite wellChained_snoc, Hacc. cbn [wellChainedFrom overlayStage Stage.consumes forallb andb].
      assert (H1 : existsb (String.eqb cur) (producedLabels cmd) = true)
        by (apply existsb_eqb_In, Hin).
      assert (H2 : existsb (String.eqb ("v" ++ string_of_nat (fst p))) (producedLabels cmd) = true)
        by (apply existsb_eqb_In, Hkeep, Hvs, Hp).
      rewrite H1, H2. reflexivity.
    + rewrite producedLabels_app. apply in_or_app. right. left. reflexivity.
    + intros label Hlabel. rewrite producedLabels_app. apply in_or_app. left.
      apply Hkeep, Hlabel.
    + intros label Hlabel. rewrite producedLabels_app in Hlabel.
      apply in_app_or in Hlabel as [Hold | [<- | []]]; [apply Hnew, Hold |].
      right. unfold overlayLabel, nextBase.
      destruct (fst p =? List.length videoLayers - 1)%nat; [left; reflexivity |].
      right. exists (fst p). reflexivity.
Qed.

(** The running label after a chaining loop is the label the last iteration
    wrote. *)
Lemma chain_end {A : Type} (next : nat -> string) (stage : string -> A -> nat -> Chunk)
    (arr : list A) (start : nat) (command : list Chunk) (currentBase : string) :
  snd (fold_left (fun acc p =>
                    ((fst acc ++ [stage (snd acc) (snd p) (fst p)])%list, next (fst p)))
                 (combine (seq start (List.length arr)) arr) (command, currentBase))
  = match arr with
    | [] => currentBase
    | _ :: _ => next (start + List.length arr - 1)%nat
    end.
Proof.
  revert start command currentBase.
  induction arr as [| a rest IH]; intros start command currentBase; [reflexivity |].
  cbn [List.length seq combine fold_left fst snd].
  rewrite IH. destruct rest as [| a' rest'].
  - cbn [List.length]. f_equal. lia.
  - f_equal. cbn [List.length]. lia.
Qed.

Lemma overlayVideos_end (videoLayers : list (BaseLayer.t * VideoLayer.t))
    (command : list Chunk) (currentBase : string) :
  snd (overlayVideos videoLayers (command, currentBase))
  = match videoLayers with [] => currentBase | _ :: _ => "videos" end.
Proof.
  unfold overlayVideos, forEachIdx.
  rewrite (chain_end
             (fun idx => if (idx =? List.length videoLayers - 1)%nat then "videos"
                         else "tmp" ++ string_of_nat idx)
             (fun cur layer idx =>
                Filter (overlayStage cur layer idx
                          (if (idx =? List.length videoLayers - 1)%nat then "videos"
                           else "tmp" ++ string_of_nat idx)))).
  destruct videoLayers as [| v rest]; [reflexivity |].
  cbn [Nat.add]. rewrite Nat.eqb_refl. reflexivity.
Qed.

Lemma addTextOverlays_chained (textLayers : list (BaseLayer.t * TextLayer.t))
    (command : list Chunk) (currentBase : string) :
  textLayers <> [] ->
  wellChained command = true ->
  In currentBase (producedLabels command) ->
  let acc := addTextOverlays numberToString textLayers (command, currentBase) in
  wellChained (fst acc) = true /\ In (snd acc) (producedLabels (fst acc)).
Proof.
  intros Hne Hwc Hcur. unfold addTextOverlays.
  destruct textLayers as [| t rest]; [contradiction |].
  cbn [List.length Nat.ltb Nat.leb]. unfold forEachIdx.
  apply (fold_left_invariant _
           (fun _ acc => wellChained (fst acc) = true
                         /\ In (snd acc) (producedLabels (fst acc)))).
  - split; assumption.
  - intros pre p [cmd cur] _ [Hacc Hin]. cbn [fst snd] in *. split.
    + rewrite wellChained_snoc, Hacc.
      cbn [wellChainedFrom drawtextStage Stage.consumes forallb andb].
      assert (H1 : existsb (String.eqb cur) (producedLabels cmd) = true)
        by (apply existsb_eqb_In, Hin).
      rewrite H1. reflexivity.
    + rewrite producedLabels_app. apply in_or_app. right. left. reflexivity.
Qed.

(** The last two phases read the running label once more: the command stays
    well chained exactly when that label was written. *)
Lemma outputOptions_chained (templateImage : option string) (videoCount : nat)
    (command : list Chunk) (currentBase : string) :
  wellChained (outputOptions (finalOverlay templateImage videoCount (command, currentBase)))
  = wellChained command && existsb (String.eqb currentBase) (producedLabels command).
Proof.
  unfold outputOptions, finalOverlay.
  destruct (truthy templateImage); cbn [fst snd].
  - rewrite !wellChained_snoc. rewrite producedLabels_app.
    cbn [wellChainedFrom Stage.consumes forallb].
    replace (existsb (String.eqb "output")
               (producedLabels command
                ++ producedLabels
                     [Raw nl;
                      Filter (Stage.mk [currentBase] [videoCount] "overlay=0:0" "output" nl)]))
      with true.
    + rewrite !andb_true_r. reflexivity.
    + symmetry. apply existsb_eqb_In, in_or_app. right. left. reflexivity.
  - rewrite wellChained_snoc. cbn [wellChainedFrom]. rewrite andb_true_r. reflexivity.
Qed.

Lemma textsOf_In (ls : list Layer) (b : BaseLayer.t) (t : TextLayer.t) :
  In (b, t) (textsOf ls) <-> In (Text b t) ls.
Proof.
  unfold textsOf. rewrite in_flat_map. split.
  - intros (l & Hl & Hin). destruct l as [b' v' | b' t']; [contradiction |].
    destruct Hin as [[= -> ->] | []]. exact Hl.
  - intros Hin. exists (Text b t). split; [exact Hin | left; reflexivity].
Qed.

Lemma videosOf_In (ls : list Layer) (b : BaseLayer.t) (v : VideoLayer.t) :
  In (b, v) (videosOf ls) <-> In (Video b v) ls.
Proof.
  unfold videosOf. rewrite in_flat_map. split.
  - intros (l & Hl & Hin). destruct l as [b' v' | b' t']; [| contradiction].
    destruct Hin as [[= -> ->] | []]. exact Hl.
  - intros Hin. exists (Video b v). split; [exact Hin | left; reflexivity].
Qed.

(** X25: the compiler's command is well chained exactly when some visible
    layer is a text layer: with visible video layers only, the running label
    is renamed to [final] and no stage writes that label. *)
Lemma commandChunks_wellChained_iff (ls : list Layer) (canvasSize : CanvasSize.t)
    (templateImage : option string) :
  (exists l, In l ls /\ visible l = true) ->
  (wellChained (commandChunks numberToString ls canvasSize templateImage) = true
   <-> exists b t, In (Text b t) ls /\ BaseLayer.visible b = true).
Proof.
  intros (l0 & Hl0 & Hvis0). unfold commandChunks.
  set (visibleLayers := sortLayers byZIndexAsc (filter visible ls)).
  assert (Hmem : forall l, In l visibleLayers <-> In l ls /\ visible l = true).
  { intros l. unfold visibleLayers. rewrite sortLayers_In. apply filter_In. }
  destruct visibleLayers as [| l1 rest] eqn:Evis.
  { exfalso. apply (proj2 (Hmem l0)). split; assumption. }
  rewrite <- Evis in *. clear Evis l1 rest.
  replace (List.length visibleLayers =? 0)%nat with false
    by (destruct visibleLayers; [exfalso; apply (proj2 (Hmem l0)); split; assumption
                                | reflexivity]).
  assert (Hvideos : forall b v, In (b, v) (videosOf visibleLayers)
                                <-> In (Video b v) ls /\ BaseLayer.visible b = true).
  { intros b v. rewrite videosOf_In. apply Hmem. }
  assert (Htexts : forall b t, In (b, t) (textsOf visibleLayers)
                               <-> In (Text b t) ls /\ BaseLayer.visible b = true).
  { intros b t. rewrite textsOf_In. apply Hmem. }
  remember (videosOf visibleLayers) as videoLayers eqn:Evideos. clear Evideos.
  remember (textsOf visibleLayers) as textLayers eqn:Etexts. clear Etexts.
  set (cmd3 := (inputFiles videoLayers templateImage [Raw ("ffmpeg \" ++ nl)]
                ++ [Raw ("  -filter_complex " ++ dq ++ nl)])%list).
  destruct (inputFiles_chained videoLayers templateImage [Raw ("ffmpeg \" ++ nl)]
              eq_refl) as [Hwc2 Hlab2].
  assert (Hwc4 : wellChained (createBase canvasSize cmd3) = true).
  { unfold createBase, cmd3. rewrite !wellChained_snoc, Hwc2. reflexivity. }
  assert (Hlab4 : producedLabels (createBase canvasSize cmd3) = ["base"]).
  { unfold createBase, cmd3. rewrite !producedLabels_app, Hlab2. reflexivity. }
  destruct (scaleVideos_chained videoLayers _ Hwc4) as [Hwc5 Hlab5].
  rewrite Hlab4 in Hlab5.
  set (cmd5 := scaleVideos videoLayers (createBase canvasSize cmd3)) in *.
  destruct (overlayVideos_chained videoLayers cmd5 "base" Hwc5) as (Hwc6 & Hin6 & Hkeep6 & Hnew6).
  { rewrite Hlab5. left. reflexivity. }
  { intros p Hp. rewrite Hlab5. right.
    apply (in_map (fun q => ("v" ++ string_of_nat (fst q))%string)), Hp. }
  pose proof (overlayVideos_end videoLayers cmd5 "base") as Hend6.
  set (acc6 := overlayVideos videoLayers (cmd5, "base")) in *.
  rewrite (surjective_pairing (addTextOverlays numberToString textLayers acc6)).
  rewrite outputOptions_chained.
  destruct textLayers as [| t1 trest].
  - (* no visible text layer: the label [final] is read but never written *)
    unfold addTextOverlays. cbn [List.length Nat.ltb Nat.leb fst snd].
    destruct videoLayers as [| v1 vrest].
    { exfalso. destruct l0 as [b0 v0 | b0 t0].
      - apply (proj2 (Hvideos b0 v0)). split; assumption.
      - apply (proj2 (Htexts b0 t0)). split; assumption. }
    rewrite Hend6. cbn [String.eqb Ascii.eqb Bool.eqb].
    change (replaceFirst "videos" "final" "videos") with "final".
    replace (existsb (String.eqb "final") (producedLabels (fst acc6))) with false.
    + rewrite andb_false_r. split; [discriminate |].
      intros (b & t & Hin & Hv). exfalso.
      apply (proj2 (Htexts b t)). split; assumption.
    + symmetry. apply not_true_iff_false. rewrite existsb_eqb_In. intros Hfinal.
      apply Hnew6 in Hfinal as [Hold | [Hv | (k & Hk)]]; try discriminate.
      rewrite Hlab5 in Hold. destruct Hold as [Hbase | Hold]; [discriminate |].
      apply in_map_iff in Hold as (q & Hq & _). discriminate.
  - (* some visible text layer: the text chain ends in the label [final] *)
    destruct (addTextOverlays_chained (t1 :: trest) (fst acc6) (snd acc6))
      as [Hwc7 Hin7]; [discriminate | assumption | assumption |].
    rewrite <- (surjective_pairing acc6) in Hwc7, Hin7.
    rewrite Hwc7. rewrite (proj2 (existsb_eqb_In _ _) Hin7).
    split; [| reflexivity]. intros _.
    destruct t1 as [b t]. exists b, t.
    apply Htexts. left. reflexivity.
Qed.

(** C1: for one visible video layer, no text layer and no template, the
    command maps the label [final], while its stages write only [base],
    [v0] and [videos]: the command is not correctly chained. *)
Theorem generateFFmpegCommand_video_only_maps_unwritten_label :
  State.ffmpegCommand (generateFFmpegCommand numberToString oneVideoState) = oneVideoCommand
  /\ mappedLabel (commandChunks numberToString (State.layers oneVideoState)
                    (State.canvasSize oneVideoState) (State.templateImage oneVideoState))
     = Some "final"
  /\ producedLabels (commandChunks numberToString (State.layers oneVideoState)
                       (State.canvasSize oneVideoState) (State.templateImage oneVideoState))
     = ["base"; "v0"; "videos"]
  /\ wellChained (commandChunks numberToString (State.layers oneVideoState)
                    (State.canvasSize oneVideoState) (State.templateImage oneVideoState))
     = false.
Proof.
  repeat split; vm_compute; reflexivity.
Qed.

End Compiler.

(** ** Geometry engine and pointer handlers *)

Section Geometry.

Variable numberToString : Q -> string.
Variable ctx : option (string -> string -> Q).

Local Abbreviation inLayer := (isPointInLayer numberToString ctx).
Local Abbreviation sizeOf := (layerSize numberToString ctx).
Local Abbreviation clicked := (clickedLayer numberToString ctx).
Local Abbreviation mouseMove := (handleCanvasMouseMove numberToString ctx).




(** *** Pointer moves *)






End Geometry.

(** * Instances *)

(** The gesture predicates and freshness of list members at closed states
    are decided by computation. *)
Ltac by_computation := repeat split; try reflexivity; try discriminate.

(** ** Inputs on which the statements of the specification fail *)



(** C7: raising the topmost of two layers changes nothing, and lowering it
    afterwards exchanges the two zIndex values. *)
Lemma raise_topmost_then_lower_reorders :
  NoDup (map zIndex [firstVideo; secondText])
  /\ NoDup (map id [firstVideo; secondText])
  /\ findLayer "text-2000" [firstVideo; secondText] = Some secondText
  /\ map zIndex [firstVideo; secondText] = [1; 2]%Z
  /\ map zIndex (moveLayerDown "text-2000" (moveLayerUp "text-2000" [firstVideo; secondText]))
     = [2; 1]%Z
  /\ moveLayerDown "text-2000" (moveLayerUp "text-2000" [firstVideo; secondText])
     <> [firstVideo; secondText].
Proof.
  split; [| split].
  - repeat constructor; cbn; intuition discriminate.
  - repeat constructor; cbn; intuition discriminate.
  - repeat split; try reflexivity. vm_compute. discriminate.
Qed.

(** ** The theorems at concrete inputs *)


(** C7 at the middle one of three layers. *)
Lemma raise_lower_inverse_example :
  NoDup (map id [firstVideo; secondText; thirdVideo])
  /\ NoDup (map zIndex [firstVideo; secondText; thirdVideo])
  /\ findLayer "text-2000" [firstVideo; secondText; thirdVideo] = Some secondText
  /\ moveLayerDown "text-2000" (moveLayerUp "text-2000" [firstVideo; secondText; thirdVideo])
     = [firstVideo; secondText; thirdVideo]
  /\ moveLayerUp "text-2000" (moveLayerDown "text-2000" [firstVideo; secondText; thirdVideo])
     = [firstVideo; secondText; thirdVideo].
Proof.
  assert (Hids : NoDup (map id [firstVideo; secondText; thirdVideo])).
  { repeat constructor; cbn; intuition discriminate. }
  assert (Hzs : NoDup (map zIndex [firstVideo; secondText; thirdVideo])).
  { repeat constructor; cbn; intuition discriminate. }
  split; [exact Hids |]. split; [exact Hzs |]. split; [reflexivity |].
  destruct (raise_lower_inverse "text-2000" [firstVideo; secondText; thirdVideo]
              secondText Hids Hzs eq_refl) as (Hup & Hdown & _ & _).
  split.
  - apply Hup. exists thirdVideo. split; [right; right; left; reflexivity | reflexivity].
  - apply Hdown. exists firstVideo. split; [left; reflexivity | reflexivity].
Defined.

(** C9 at the initial state, which has no layer. *)
Lemma generateFFmpegCommand_no_visible_layer_example :
  (forall l, In l (State.layers initialState) -> visible l = false)
  /\ State.ffmpegCommand (generateFFmpegCommand printIntegral initialState)
     = "# Add at least one visible layer first".
Proof.
  assert (Hnone : forall l, In l (State.layers initialState) -> visible l = false).
  { intros l []. }
  split; [exact Hnone |].
  apply (generateFFmpegCommand_no_visible_layer printIntegral initialState Hnone).
Defined.


(** * Further properties of the layer collection *)

(** ** Updating *)

Lemma spreadBase_id (b : BaseLayer.t) (updates : Updates.t) :
  BaseLayer.id (spreadBase b updates) = BaseLayer.id b.
Proof. reflexivity. Qed.

(** X1: the update operation touches the layers of the given id only: the
    ids of the collection stay as they are, in the same order; looking up
    any other id gives the layer it gave before; and an id the collection
    does not hold leaves the collection as it is. *)
Theorem updateLayer_frame (ident : string) (updates : Updates.t) (ls : list Layer) :
  map id (updateLayer ident updates ls) = map id ls
  /\ (forall other, other <> ident ->
        findLayer other (updateLayer ident updates ls) = findLayer other ls)
  /\ filter (fun l => negb (id l =? ident)%string) (updateLayer ident updates ls)
     = filter (fun l => negb (id l =? ident)%string) ls
  /\ (findLayer ident ls = None -> updateLayer ident updates ls = ls).
Proof.
  unfold updateLayer, findLayer. repeat split.
  - induction ls as [| l rest IH]; [reflexivity |].
    cbn [map]. rewrite IH. f_equal.
    destruct (id l =? ident)%string; [apply id_updatedLayer | reflexivity].
  - intros other Hother. induction ls as [| l rest IH]; [reflexivity |].
    cbn [map find]. destruct (id l =? ident)%string eqn:Eid; cbn [negb].
    + rewrite id_updatedLayer. apply String.eqb_eq in Eid.
      replace (id l =? other)%string with false; [exact IH |].
      symmetry. apply String.eqb_neq. congruence.
    + rewrite IH. reflexivity.
  - induction ls as [| l rest IH]; [reflexivity |].
    cbn [map filter]. destruct (id l =? ident)%string eqn:Eid; cbn [negb].
    + rewrite id_updatedLayer, Eid. exact IH.
    + rewrite Eid. cbn [negb]. rewrite IH. reflexivity.
  - intros Hnone. apply map_fixed. intros l Hl.
    rewrite (find_none _ _ Hnone l Hl). reflexivity.
Qed.


(** ** Removing *)

Lemma findLayer_filter_other (ident other : string) (ls : list Layer) :
  other <> ident ->
  findLayer other (filter (fun layer => negb (id layer =? ident)%string) ls)
  = findLayer other ls.
Proof.
  intros Hother. unfold findLayer.
  induction ls as [| l rest IH]; [reflexivity |].
  cbn [filter find]. destruct (id l =? ident)%string eqn:Eid; cbn [negb].
  - apply String.eqb_eq in Eid.
    replace (id l =? other)%string with false; [exact IH |].
    symmetry. apply String.eqb_neq. congruence.
  - cbn [find]. rewrite IH. reflexivity.
Qed.

Lemma filter_absent_id (ident : string) (ls : list Layer) :
  findLayer ident ls = None ->
  filter (fun layer => negb (id layer =? ident)%string) ls = ls.
Proof.
  unfold findLayer. induction ls as [| l rest IH]; [reflexivity |].
  cbn [find filter]. destruct (id l =? ident)%string; [discriminate |].
  intros Hnone. cbn [negb]. rewrite (IH Hnone). reflexivity.
Qed.

Lemma removeLayer_layers (st : State.t) (ident : string) :
  State.layers (removeLayer st ident)
  = filter (fun layer => negb (id layer =? ident)%string) (State.layers st).
Proof.
  unfold removeLayer. destruct (State.selectedLayer st) as [sel |]; [| reflexivity].
  destruct (sel =? ident)%string; reflexivity.
Qed.

(** X3: after a removal no layer of the collection has the removed id, the
    lookup of every other id is as before, the selection is never left on
    the removed id and is kept when it was on another layer, and removing
    an id the collection does not hold leaves the layers as they are. *)
Theorem removeLayer_lookup (st : State.t) (ident : string) :
  findLayer ident (State.layers (removeLayer st ident)) = None
  /\ (forall l, In l (State.layers (removeLayer st ident)) ->
                In l (State.layers st) /\ id l <> ident)
  /\ (forall other, other <> ident ->
        findLayer other (State.layers (removeLayer st ident))
        = findLayer other (State.layers st))
  /\ State.selectedLayer (removeLayer st ident) <> Some ident
  /\ (State.selectedLayer st <> Some ident ->
      State.selectedLayer (removeLayer st ident) = State.selectedLayer st)
  /\ (findLayer ident (State.layers st) = None ->
      State.layers (removeLayer st ident) = State.layers st).
Proof.
  rewrite removeLayer_layers.
  split; [| split; [| split; [| split; [| split]]]].
  - unfold findLayer.
    destruct (find _ (filter _ (State.layers st))) as [l |] eqn:Hfind; [| reflexivity].
    apply find_some in Hfind as [Hin Heq]. apply filter_In in Hin as [_ Hne].
    rewrite Heq in Hne. discriminate.
  - intros l Hl. apply filter_In in Hl as [Hin Hne]. split; [exact Hin |].
    intros Heq. apply String.eqb_eq in Heq. rewrite Heq in Hne. discriminate.
  - intros other Hother. apply findLayer_filter_other, Hother.
  - unfold removeLayer. destruct (State.selectedLayer st) as [sel |] eqn:Esel.
    + destruct (sel =? ident)%string eqn:Eeq; cbn; [discriminate |].
      rewrite Esel. apply String.eqb_neq in Eeq. congruence.
    + cbn. rewrite Esel. discriminate.
  - intros Hsel. unfold removeLayer.
    destruct (State.selectedLayer st) as [sel |] eqn:Esel; [| cbn; congruence].
    destruct (sel =? ident)%string eqn:Eeq; [| cbn; congruence].
    apply String.eqb_eq in Eeq. congruence.
  - apply filter_absent_id.
Qed.

(** ** Adding *)

Lemma maxZIndexOrZero_ge (ls : list Layer) (l : Layer) :
  In l ls -> (zIndex l <= maxZIndexOrZero ls)%Z.
Proof.
  intros Hl. unfold maxZIndexOrZero.
  destruct ls as [| l0 rest]; [contradiction |].
  cbn [List.length Nat.ltb Nat.leb]. apply Math_max_list_ge, in_map, Hl.
Qed.

(** A zIndex above every zIndex of the collection keeps the zIndex values
    pairwise distinct. *)
Lemma NoDup_zIndex_snoc (ls : list Layer) (newLayer : Layer) :
  (forall l, In l ls -> (zIndex l < zIndex newLayer)%Z) ->
  NoDup (map zIndex ls) -> NoDup (map zIndex (ls ++ [newLayer])).
Proof.
  intros Habove Hnd. rewrite map_app. cbn [map].
  apply NoDup_app; [exact Hnd | repeat constructor; intros [] |].
  intros z Hz [<- | []]. apply in_map_iff in Hz as (l & Hl & Hin).
  specialize (Habove l Hin). lia.
Qed.

(** X4: adding a video layer or a text layer appends one visible layer,
    leaves the existing layers as they were, selects the new layer, and
    gives it a zIndex above every existing one (1 on an empty collection),
    so that pairwise distinct zIndex values stay pairwise distinct. *)
Theorem addLayer_on_top (now : Z) (st : State.t) :
  (exists b v,
      State.layers (addVideoLayer now st) = (State.layers st ++ [Video b v])%list
      /\ State.selectedLayer (addVideoLayer now st) = Some (BaseLayer.id b)
      /\ BaseLayer.visible b = true
      /\ (forall l, In l (State.layers st) -> (zIndex l < BaseLayer.zIndex b)%Z)
      /\ (State.layers st = [] -> BaseLayer.zIndex b = 1%Z)
      /\ (NoDup (map zIndex (State.layers st)) ->
          NoDup (map zIndex (State.layers (addVideoLayer now st)))))
  /\ (exists b t,
      State.layers (addTextLayer now st) = (State.layers st ++ [Text b t])%list
      /\ State.selectedLayer (addTextLayer now st) = Some (BaseLayer.id b)
      /\ BaseLayer.visible b = true
      /\ (forall l, In l (State.layers st) -> (zIndex l < BaseLayer.zIndex b)%Z)
      /\ (State.layers st = [] -> BaseLayer.zIndex b = 1%Z)
      /\ (NoDup (map zIndex (State.layers st)) ->
          NoDup (map zIndex (State.layers (addTextLayer now st))))).
Proof.
  assert (Habove : forall l, In l (State.layers st) ->
                             (zIndex l < maxZIndexOrZero (State.layers st) + 1)%Z).
  { intros l Hl. pose proof (maxZIndexOrZero_ge _ _ Hl). lia. }
  split; do 2 eexists.
  - split; [reflexivity |]. split; [reflexivity |]. split; [reflexivity |].
    split; [exact Habove |].
    split; [intros Hnil; cbn; rewrite Hnil; reflexivity |].
    intros Hnd. unfold addVideoLayer.
    cbn [State.layers State.setLayers State.setSelectedLayer].
    apply NoDup_zIndex_snoc; [exact Habove | exact Hnd].
  - split; [reflexivity |]. split; [reflexivity |]. split; [reflexivity |].
    split; [exact Habove |].
    split; [intros Hnil; cbn; rewrite Hnil; reflexivity |].
    intros Hnd. unfold addTextLayer.
    cbn [State.layers State.setLayers State.setSelectedLayer].
    apply NoDup_zIndex_snoc; [exact Habove | exact Hnd].
Qed.

Lemma filter_snoc_fresh (ident : string) (ls : list Layer) (newLayer : Layer) :
  id newLayer = ident ->
  (forall l, In l ls -> id l <> ident) ->
  filter (fun layer => negb (id layer =? ident)%string) (ls ++ [newLayer]) = ls.
Proof.
  intros Hid Hfresh. rewrite filter_app. cbn [filter].
  rewrite Hid, String.eqb_refl. cbn [negb]. rewrite app_nil_r.
  apply filter_absent_id. unfold findLayer.
  destruct (find _ ls) as [l |] eqn:Hfind; [| reflexivity].
  apply find_some in Hfind as [Hin Heq]. apply String.eqb_eq in Heq.
  exfalso. exact (Hfresh l Hin Heq).
Qed.

(** X5: when the id made from the clock value is not in use, adding a layer
    and removing it again, or duplicating a layer and removing the copy,
    gives the layers back, with nothing selected. *)
Theorem add_then_remove (now : Z) (st : State.t)
    (Hvideo : forall l, In l (State.layers st) -> id l <> "video-" ++ string_of_Z now)
    (Htext : forall l, In l (State.layers st) -> id l <> "text-" ++ string_of_Z now) :
  (State.layers (removeLayer (addVideoLayer now st) ("video-" ++ string_of_Z now))
   = State.layers st
   /\ State.selectedLayer (removeLayer (addVideoLayer now st) ("video-" ++ string_of_Z now))
      = None)
  /\ (State.layers (removeLayer (addTextLayer now st) ("text-" ++ string_of_Z now))
      = State.layers st
      /\ State.selectedLayer (removeLayer (addTextLayer now st) ("text-" ++ string_of_Z now))
         = None)
  /\ (forall ident layer,
        findLayer ident (State.layers st) = Some layer ->
        let copyId := typeName (type layer) ++ "-" ++ string_of_Z now in
        State.layers (removeLayer (duplicateLayer now st ident) copyId) = State.layers st
        /\ State.selectedLayer (removeLayer (duplicateLayer now st ident) copyId) = None).
Proof.
  split; [| split].
  - split.
    + rewrite removeLayer_layers. apply filter_snoc_fresh; [reflexivity | exact Hvideo].
    + unfold removeLayer, addVideoLayer. cbn [State.selectedLayer State.setSelectedLayer id base
        BaseLayer.id]. rewrite String.eqb_refl. reflexivity.
  - split.
    + rewrite removeLayer_layers. apply filter_snoc_fresh; [reflexivity | exact Htext].
    + unfold removeLayer, addTextLayer. cbn [State.selectedLayer State.setSelectedLayer id base
        BaseLayer.id]. rewrite String.eqb_refl. reflexivity.
  - intros ident layer Hfind copyId.
    assert (Hfresh : forall l, In l (State.layers st) -> id l <> copyId).
    { intros l Hl. unfold copyId. destruct layer; [apply Hvideo | apply Htext]; exact Hl. }
    split.
    + rewrite removeLayer_layers. unfold duplicateLayer. rewrite Hfind.
      cbn [State.layers State.setLayers State.setSelectedLayer].
      apply filter_snoc_fresh; [destruct layer; reflexivity | exact Hfresh].
    + unfold removeLayer, duplicateLayer. rewrite Hfind.
      cbn [State.selectedLayer State.setSelectedLayer].
      replace (id _ =? copyId)%string with true; [reflexivity |].
      symmetry. apply String.eqb_eq. destruct layer; reflexivity.
Qed.

(** ** Resetting *)

(** X6: resetting a video layer gives it the size 340 by 340 at (20, 20)
    with the aspect lock off and the ratio 1, whatever its size, position
    and lock were, and keeps its id, name, visibility and zIndex; resetting
    a text layer puts it at (50, 50) with font size 48, not bold and not
    italic, and keeps its text, font family and colour; resetting twice is
    resetting once, and an unknown id changes nothing. *)
Theorem resetLayer_defaults (st : State.t) (ident : string) :
  (forall b v,
      findLayer ident (State.layers st) = Some (Video b v) ->
      findLayer ident (State.layers (resetLayer st ident))
      = Some (Video (BaseLayer.mk (BaseLayer.id b) (BaseLayer.name b) 20 20
                       (BaseLayer.visible b) (BaseLayer.zIndex b))
                    (VideoLayer.mk 340 340 false 1)))
  /\ (forall b t,
      findLayer ident (State.layers st) = Some (Text b t) ->
      findLayer ident (State.layers (resetLayer st ident))
      = Some (Text (BaseLayer.mk (BaseLayer.id b) (BaseLayer.name b) 50 50
                      (BaseLayer.visible b) (BaseLayer.zIndex b))
                   (TextLayer.mk (TextLayer.text t) 48 (TextLayer.fontFamily t)
                      (TextLayer.color t) false false)))
  /\ (findLayer ident (State.layers st) = None -> resetLayer st ident = st)
  /\ findLayer ident (State.layers (resetLayer (resetLayer st ident) ident))
     = findLayer ident (State.layers (resetLayer st ident)).
Proof.
  assert (Hvideo : forall s b v,
             findLayer ident (State.layers s) = Some (Video b v) ->
             findLayer ident (State.layers (resetLayer s ident))
             = Some (Video (BaseLayer.mk (BaseLayer.id b) (BaseLayer.name b) 20 20
                              (BaseLayer.visible b) (BaseLayer.zIndex b))
                           (VideoLayer.mk 340 340 false 1))).
  { intros s b v Hfind. unfold resetLayer. rewrite Hfind.
    cbn [State.layers State.setLayers]. rewrite findLayer_updateLayer, Hfind.
    destruct v as [w0 h0 locked ratio]. destruct locked; reflexivity. }
  assert (Htext : forall s b t,
             findLayer ident (State.layers s) = Some (Text b t) ->
             findLayer ident (State.layers (resetLayer s ident))
             = Some (Text (BaseLayer.mk (BaseLayer.id b) (BaseLayer.name b) 50 50
                             (BaseLayer.visible b) (BaseLayer.zIndex b))
                          (TextLayer.mk (TextLayer.text t) 48 (TextLayer.fontFamily t)
                             (TextLayer.color t) false false))).
  { intros s b t Hfind. unfold resetLayer. rewrite Hfind.
    cbn [State.layers State.setLayers]. rewrite findLayer_updateLayer, Hfind.
    reflexivity. }
  assert (Hnone : findLayer ident (State.layers st) = None -> resetLayer st ident = st).
  { intros Hfind. unfold resetLayer. rewrite Hfind. reflexivity. }
  split; [apply Hvideo |]. split; [apply Htext |]. split; [exact Hnone |].
  destruct (findLayer ident (State.layers st)) as [[b v | b t] |] eqn:Hfind.
  - rewrite (Hvideo _ _ _ (Hvideo _ _ _ Hfind)), (Hvideo _ _ _ Hfind). reflexivity.
  - rewrite (Htext _ _ _ (Htext _ _ _ Hfind)), (Htext _ _ _ Hfind). reflexivity.
  - rewrite !(Hnone eq_refl). reflexivity.
Qed.

(** ** Raising and lowering *)

(** What a raise that is not a no-op does: it exchanges the zIndex of the
    target with that of the layer of least zIndex above it. *)
Lemma moveLayerUp_swap (ident : string) (ls : list Layer) (target : Layer) :
  findLayer ident ls = Some target ->
  (exists l, In l ls /\ (zIndex target < zIndex l)%Z) ->
  exists nh,
    In nh ls /\ (zIndex target < zIndex nh)%Z
    /\ (forall l, In l ls -> (zIndex target < zIndex l)%Z -> (zIndex nh <= zIndex l)%Z)
    /\ moveLayerUp ident ls = map (swapZ ident (id nh) (zIndex nh) (zIndex target)) ls.
Proof.
  intros Hfind (above & Habove & Hgt).
  unfold moveLayerUp. rewrite Hfind.
  destruct (filter (fun l => (zIndex l >? zIndex target)%Z) ls)
    as [| first rest] eqn:Ehigher.
  { exfalso. rewrite filter_nil_iff in Ehigher.
    specialize (Ehigher above Habove). cbv beta in Ehigher.
    rewrite Z.gtb_ltb in Ehigher. apply Z.ltb_ge in Ehigher. lia. }
  destruct (reduce1_min_spec first rest) as [Hnh_in Hnh_min].
  set (nh := reduce1 (fun min l => if (zIndex l <? zIndex min)%Z then l else min)
                     first rest) in *.
  rewrite <- Ehigher in Hnh_in, Hnh_min.
  apply filter_In in Hnh_in as [Hnh_ls Hnh_gt].
  rewrite Z.gtb_ltb in Hnh_gt. apply Z.ltb_lt in Hnh_gt.
  exists nh. split; [exact Hnh_ls |]. split; [exact Hnh_gt |]. split; [| reflexivity].
  intros l Hl Hlt. apply Hnh_min. apply filter_In. split; [exact Hl |].
  rewrite Z.gtb_ltb. apply Z.ltb_lt. exact Hlt.
Qed.

Lemma moveLayerDown_swap (ident : string) (ls : list Layer) (target : Layer) :
  findLayer ident ls = Some target ->
  (exists l, In l ls /\ (zIndex l < zIndex target)%Z) ->
  exists nl,
    In nl ls /\ (zIndex nl < zIndex target)%Z
    /\ (forall l, In l ls -> (zIndex l < zIndex target)%Z -> (zIndex l <= zIndex nl)%Z)
    /\ moveLayerDown ident ls = map (swapZ ident (id nl) (zIndex nl) (zIndex target)) ls.
Proof.
  intros Hfind (below & Hbelow & Hlt).
  unfold moveLayerDown. rewrite Hfind.
  destruct (filter (fun l => (zIndex l <? zIndex target)%Z) ls)
    as [| first rest] eqn:Elower.
  { exfalso. rewrite filter_nil_iff in Elower.
    specialize (Elower below Hbelow). cbv beta in Elower.
    apply Z.ltb_ge in Elower. lia. }
  destruct (reduce1_max_spec first rest) as [Hnl_in Hnl_max].
  set (nl := reduce1 (fun max l => if (zIndex l >? zIndex max)%Z then l else max)
                     first rest) in *.
  rewrite <- Elower in Hnl_in, Hnl_max.
  apply filter_In in Hnl_in as [Hnl_ls Hnl_lt]. apply Z.ltb_lt in Hnl_lt.
  exists nl. split; [exact Hnl_ls |]. split; [exact Hnl_lt |]. split; [| reflexivity].
  intros l Hl Hl_lt. apply Hnl_max. apply filter_In. split; [exact Hl |].
  apply Z.ltb_lt. exact Hl_lt.
Qed.

(** Either operation leaves the collection as it is or exchanges the
    zIndex of the target with that of another member. *)
Lemma moveLayer_cases (ident : string) (ls : list Layer) :
  (moveLayerUp ident ls = ls
   \/ exists target other,
        findLayer ident ls = Some target /\ In other ls
        /\ zIndex other <> zIndex target
        /\ moveLayerUp ident ls
           = map (swapZ ident (id other) (zIndex other) (zIndex target)) ls)
  /\ (moveLayerDown ident ls = ls
      \/ exists target other,
           findLayer ident ls = Some target /\ In other ls
           /\ zIndex other <> zIndex target
           /\ moveLayerDown ident ls
              = map (swapZ ident (id other) (zIndex other) (zIndex target)) ls).
Proof.
  split.
  - destruct (findLayer ident ls) as [target |] eqn:Hfind;
      [| left; unfold moveLayerUp; rewrite Hfind; reflexivity].
    destruct (filter (fun l => (zIndex l >? zIndex target)%Z) ls) as [| a rest] eqn:Ef.
    + left. unfold moveLayerUp. rewrite Hfind, Ef. reflexivity.
    + right. destruct (moveLayerUp_swap ident ls target Hfind)
        as (nh & Hin & Hlt & _ & Heq).
      { exists a. assert (Ha : In a (a :: rest)) by (left; reflexivity).
        rewrite <- Ef in Ha. apply filter_In in Ha as [Ha Hgt].
        rewrite Z.gtb_ltb in Hgt. apply Z.ltb_lt in Hgt. split; assumption. }
      exists target, nh. repeat split; try assumption. lia.
  - destruct (findLayer ident ls) as [target |] eqn:Hfind;
      [| left; unfold moveLayerDown; rewrite Hfind; reflexivity].
    destruct (filter (fun l => (zIndex l <? zIndex target)%Z) ls) as [| a rest] eqn:Ef.
    + left. unfold moveLayerDown. rewrite Hfind, Ef. reflexivity.
    + right. destruct (moveLayerDown_swap ident ls target Hfind)
        as (nl & Hin & Hlt & _ & Heq).
      { exists a. assert (Ha : In a (a :: rest)) by (left; reflexivity).
        rewrite <- Ef in Ha. apply filter_In in Ha as [Ha Hgt].
        apply Z.ltb_lt in Hgt. split; assumption. }
      exists target, nl. repeat split; try assumption. lia.
Qed.

Lemma withZIndex_twice (l : Layer) (a b : Z) :
  withZIndex (withZIndex l a) b = withZIndex l b.
Proof. destruct l; reflexivity. Qed.

Lemma swapZ_keeps_rest (ident other : string) (zn zt : Z) (ls : list Layer) :
  map (fun l => withZIndex l 0) (map (swapZ ident other zn zt) ls)
  = map (fun l => withZIndex l 0) ls.
Proof.
  rewrite map_map. apply map_ext. intros l. unfold swapZ.
  destruct (id l =? ident)%string; [apply withZIndex_twice |].
  destruct (id l =? other)%string; [apply withZIndex_twice | reflexivity].
Qed.

(** X7: raising and lowering change zIndex values only: every layer keeps
    its place in the collection and all its other fields, whatever the id
    and the collection. *)
Theorem moveLayer_changes_zIndex_only (ident : string) (ls : list Layer) :
  map (fun l => withZIndex l 0) (moveLayerUp ident ls) = map (fun l => withZIndex l 0) ls
  /\ map (fun l => withZIndex l 0) (moveLayerDown ident ls)
     = map (fun l => withZIndex l 0) ls
  /\ map id (moveLayerUp ident ls) = map id ls
  /\ map id (moveLayerDown ident ls) = map id ls.
Proof.
  destruct (moveLayer_cases ident ls) as [Hup Hdown].
  assert (Hids : forall other zn zt,
             map id (map (swapZ ident other zn zt) ls) = map id ls).
  { intros other zn zt. rewrite map_map. apply map_ext. intros l. apply id_swapZ. }
  repeat split.
  - destruct Hup as [-> | (t & o & _ & _ & _ & ->)]; [reflexivity | apply swapZ_keeps_rest].
  - destruct Hdown as [-> | (t & o & _ & _ & _ & ->)]; [reflexivity | apply swapZ_keeps_rest].
  - destruct Hup as [-> | (t & o & _ & _ & _ & ->)]; [reflexivity | apply Hids].
  - destruct Hdown as [-> | (t & o & _ & _ & _ & ->)]; [reflexivity | apply Hids].
Qed.

Lemma transposeZ_injective (a b : Z) : Injective (transposeZ a b).
Proof.
  intros p q. unfold transposeZ.
  destruct (Z.eqb_spec p a), (Z.eqb_spec q a), (Z.eqb_spec p b), (Z.eqb_spec q b); lia.
Qed.

Lemma transposeZ_In (a b : Z) (zs : list Z) (z : Z) :
  In a zs -> In b zs -> (In z (map (transposeZ a b) zs) <-> In z zs).
Proof.
  intros Ha Hb.
  assert (Hfwd : forall p, In p zs -> In (transposeZ a b p) zs).
  { intros p Hp. unfold transposeZ.
    destruct (Z.eqb_spec p a); [exact Hb |]. destruct (Z.eqb_spec p b); assumption. }
  split.
  - intros Hz. apply in_map_iff in Hz as (p & <- & Hp). apply Hfwd, Hp.
  - intros Hz. apply in_map_iff. exists (transposeZ a b z). split; [| apply Hfwd, Hz].
    unfold transposeZ.
    destruct (Z.eqb_spec z a), (Z.eqb_spec z b);
      repeat match goal with |- context [Z.eqb ?p ?q] => destruct (Z.eqb_spec p q) end; lia.
Qed.

(** With distinct ids and distinct zIndex values, the exchange acts on the
    zIndex values as the transposition of the two values. *)
Lemma zIndex_swapZ (ident : string) (ls : list Layer) (target other : Layer) :
  NoDup (map id ls) -> NoDup (map zIndex ls) ->
  In target ls -> In other ls -> id target = ident ->
  zIndex other <> zIndex target ->
  map zIndex (map (swapZ ident (id other) (zIndex other) (zIndex target)) ls)
  = map (transposeZ (zIndex target) (zIndex other)) (map zIndex ls).
Proof.
  intros Hids Hzs Ht Ho Hid Hne. rewrite !map_map. apply map_ext_in.
  intros l Hl. unfold swapZ, transposeZ.
  destruct (id l =? ident)%string eqn:E1.
  - apply String.eqb_eq in E1.
    assert (l = target) as -> by (apply (NoDup_map_eq id ls); congruence).
    rewrite zIndex_withZIndex, Z.eqb_refl. reflexivity.
  - apply String.eqb_neq in E1.
    assert (Hzt : zIndex l <> zIndex target).
    { intros Heq. apply E1. rewrite <- Hid. f_equal.
      apply (NoDup_map_eq zIndex ls); assumption. }
    destruct (id l =? id other)%string eqn:E2.
    + apply String.eqb_eq in E2.
      assert (l = other) as -> by (apply (NoDup_map_eq id ls); congruence).
      rewrite zIndex_withZIndex.
      destruct (Z.eqb_spec (zIndex other) (zIndex target)); [contradiction |].
      rewrite Z.eqb_refl. reflexivity.
    + apply String.eqb_neq in E2.
      assert (Hzo : zIndex l <> zIndex other).
      { intros Heq. apply E2. f_equal. apply (NoDup_map_eq zIndex ls); assumption. }
      destruct (Z.eqb_spec (zIndex l) (zIndex target)); [contradiction |].
      destruct (Z.eqb_spec (zIndex l) (zIndex other)); [contradiction | reflexivity].
Qed.

(** X8: in a collection with pairwise distinct ids and pairwise distinct
    zIndex values, raising or lowering any id permutes the zIndex values:
    the collection uses the same values afterwards and they stay pairwise
    distinct, so no tie is created. *)
Theorem moveLayer_permutes_zIndex (ident : string) (ls : list Layer)
    (Hids : NoDup (map id ls)) (Hzs : NoDup (map zIndex ls)) :
  Permutation (map zIndex ls) (map zIndex (moveLayerUp ident ls))
  /\ NoDup (map zIndex (moveLayerUp ident ls))
  /\ Permutation (map zIndex ls) (map zIndex (moveLayerDown ident ls))
  /\ NoDup (map zIndex (moveLayerDown ident ls)).
Proof.
  assert (Hswap : forall target other,
             findLayer ident ls = Some target -> In other ls ->
             zIndex other <> zIndex target ->
             let after := map (swapZ ident (id other) (zIndex other) (zIndex target)) ls in
             Permutation (map zIndex ls) (map zIndex after) /\ NoDup (map zIndex after)).
  { intros target other Hfind Ho Hne after. subst after.
    destruct (findLayer_id _ _ _ Hfind) as [Hid Ht].
    rewrite (zIndex_swapZ ident ls target other Hids Hzs Ht Ho Hid Hne).
    assert (Hnd : NoDup (map (transposeZ (zIndex target) (zIndex other)) (map zIndex ls))).
    { apply Injective_map_NoDup; [apply transposeZ_injective | exact Hzs]. }
    split; [| exact Hnd].
    apply NoDup_Permutation; [exact Hzs | exact Hnd |].
    intros z. symmetry. apply transposeZ_In; apply in_map; assumption. }
  destruct (moveLayer_cases ident ls) as [Hup Hdown].
  assert (Hsame : Permutation (map zIndex ls) (map zIndex ls) /\ NoDup (map zIndex ls))
    by (split; [reflexivity | exact Hzs]).
  assert (Hu : Permutation (map zIndex ls) (map zIndex (moveLayerUp ident ls))
               /\ NoDup (map zIndex (moveLayerUp ident ls))).
  { destruct Hup as [-> | (t & o & Hfind & Ho & Hne & ->)];
      [exact Hsame | apply Hswap; assumption]. }
  assert (Hd : Permutation (map zIndex ls) (map zIndex (moveLayerDown ident ls))
               /\ NoDup (map zIndex (moveLayerDown ident ls))).
  { destruct Hdown as [-> | (t & o & Hfind & Ho & Hne & ->)];
      [exact Hsame | apply Hswap; assumption]. }
  destruct Hu as [Hu1 Hu2], Hd as [Hd1 Hd2]. repeat split; assumption.
Qed.

(** With distinct ids a member is what the lookup of its id finds. *)
Lemma findLayer_member (ls : list Layer) (l : Layer) :
  NoDup (map id ls) -> In l ls -> findLayer (id l) ls = Some l.
Proof.
  intros Hids Hl. unfold findLayer.
  destruct (find (fun l0 => (id l0 =? id l)%string) ls) as [found |] eqn:Hfind.
  - apply find_some in Hfind as [Hin Heq]. apply String.eqb_eq in Heq.
    f_equal. apply (NoDup_map_eq id ls); assumption.
  - pose proof (find_none _ _ Hfind l Hl) as Hne. cbv beta in Hne.
    rewrite String.eqb_refl in Hne. discriminate.
Qed.

Lemma findLayer_map_keeping_id (f : Layer -> Layer) (ident : string) (ls : list Layer) :
  (forall l, id (f l) = id l) ->
  findLayer ident (map f ls) = option_map f (findLayer ident ls).
Proof.
  intros Hid. unfold findLayer. induction ls as [| l rest IH]; [reflexivity |].
  cbn [map find]. rewrite Hid. destruct (id l =? ident)%string; [reflexivity | exact IH].
Qed.

(** The lookups after an exchange. *)
Lemma findLayer_after_swapZ (ident : string) (ls : list Layer) (target other : Layer) :
  NoDup (map id ls) -> findLayer ident ls = Some target -> In other ls ->
  zIndex other <> zIndex target ->
  let after := map (swapZ ident (id other) (zIndex other) (zIndex target)) ls in
  findLayer ident after = Some (withZIndex target (zIndex other))
  /\ findLayer (id other) after = Some (withZIndex other (zIndex target))
  /\ forall k, k <> ident -> k <> id other -> findLayer k after = findLayer k ls.
Proof.
  intros Hids Hfind Ho Hne after. subst after.
  destruct (findLayer_id _ _ _ Hfind) as [Hid Ht].
  assert (Hoid : id other <> ident).
  { intros Heq. apply Hne. f_equal. apply (NoDup_map_eq id ls); congruence. }
  split; [apply findLayer_map_swapZ, Hfind |].
  split.
  - rewrite findLayer_map_keeping_id by (intros l; apply id_swapZ).
    rewrite (findLayer_member ls other Hids Ho). cbn [option_map]. f_equal.
    unfold swapZ. apply String.eqb_neq in Hoid. rewrite Hoid, String.eqb_refl.
    reflexivity.
  - intros k Hk1 Hk2.
    rewrite findLayer_map_keeping_id by (intros l; apply id_swapZ).
    destruct (findLayer k ls) as [l |] eqn:Hl; [| reflexivity].
    cbn [option_map]. f_equal. destruct (findLayer_id _ _ _ Hl) as [Hlid _].
    unfold swapZ. rewrite Hlid.
    apply String.eqb_neq in Hk1, Hk2. rewrite Hk1, Hk2. reflexivity.
Qed.

(** X9: with pairwise distinct ids, raising a layer that is not topmost
    gives it the least zIndex there is above its own, gives its own zIndex
    to the layer that had that one, and leaves every other layer as it is;
    lowering a layer that is not bottommost does the same with the greatest
    zIndex below. *)
Theorem moveLayer_exchanges_with_neighbour (ident : string) (ls : list Layer)
    (target : Layer)
    (Hids : NoDup (map id ls))
    (Hfind : findLayer ident ls = Some target) :
  ((exists l, In l ls /\ (zIndex target < zIndex l)%Z) ->
   exists nh,
     In nh ls /\ (zIndex target < zIndex nh)%Z
     /\ (forall l, In l ls -> (zIndex target < zIndex l)%Z -> (zIndex nh <= zIndex l)%Z)
     /\ findLayer ident (moveLayerUp ident ls) = Some (withZIndex target (zIndex nh))
     /\ findLayer (id nh) (moveLayerUp ident ls) = Some (withZIndex nh (zIndex target))
     /\ forall k, k <> ident -> k <> id nh ->
                  findLayer k (moveLayerUp ident ls) = findLayer k ls)
  /\ ((exists l, In l ls /\ (zIndex l < zIndex target)%Z) ->
      exists nl,
        In nl ls /\ (zIndex nl < zIndex target)%Z
        /\ (forall l, In l ls -> (zIndex l < zIndex target)%Z -> (zIndex l <= zIndex nl)%Z)
        /\ findLayer ident (moveLayerDown ident ls) = Some (withZIndex target (zIndex nl))
        /\ findLayer (id nl) (moveLayerDown ident ls) = Some (withZIndex nl (zIndex target))
        /\ forall k, k <> ident -> k <> id nl ->
                     findLayer k (moveLayerDown ident ls) = findLayer k ls).
Proof.
  split.
  - intros Habove.
    destruct (moveLayerUp_swap ident ls target Hfind Habove)
      as (nh & Hin & Hlt & Hmin & ->).
    exists nh. split; [exact Hin |]. split; [exact Hlt |]. split; [exact Hmin |].
    apply findLayer_after_swapZ; try assumption. lia.
  - intros Hbelow.
    destruct (moveLayerDown_swap ident ls target Hfind Hbelow)
      as (nl & Hin & Hlt & Hmax & ->).
    exists nl. split; [exact Hin |]. split; [exact Hlt |]. split; [exact Hmax |].
    apply findLayer_after_swapZ; try assumption. lia.
Qed.

(** * Further properties of the geometry *)

(** ** Snapping *)

Lemma Qopp_le_Qabs (q : Q) : - q <= Qabs q.
Proof. rewrite <- (Qabs_opp q). apply Qle_Qabs. Qed.

Lemma Math_round_monotone (p q : Q) : p <= q -> (Math_round p <= Math_round q)%Z.
Proof. intros Hle. unfold Math_round. apply Qfloor_resp_le. lra. Qed.

(** ** Resize handles *)




(** ** The pointer handlers as a state machine *)

Lemma setLayers_same (st : State.t) : State.setLayers st (State.layers st) = st.
Proof. destruct st; reflexivity. Qed.

Lemma updatedLayer_geometryOnly (l : Layer) (updates : Updates.t) :
  geometryOnly updates -> eraseGeometry (updatedLayer l updates) = eraseGeometry l.
Proof.
  destruct updates as [un ux uy uvis uz uw uh ual uar ut ufs uff uc ub ui].
  unfold geometryOnly. cbn. intros (-> & -> & -> & -> & -> & -> & -> & -> & -> & -> & ->).
  destruct l as [b [w h locked ratio] | b [txt fs ff col bd it]].
  - destruct locked, uw, uh; reflexivity.
  - reflexivity.
Qed.

Lemma updateLayer_geometryOnly (ident : string) (updates : Updates.t) (ls : list Layer) :
  geometryOnly updates ->
  map eraseGeometry (updateLayer ident updates ls) = map eraseGeometry ls.
Proof.
  intros Hgeo. unfold updateLayer. rewrite map_map. apply map_ext. intros l.
  destruct (negb (id l =? ident)%string); [reflexivity |].
  apply updatedLayer_geometryOnly, Hgeo.
Qed.

Lemma findLayer_updateLayer_other (ident other : string) (updates : Updates.t)
    (ls : list Layer) :
  other <> ident -> findLayer other (updateLayer ident updates ls) = findLayer other ls.
Proof.
  intros Hother. unfold updateLayer, findLayer.
  induction ls as [| l rest IH]; [reflexivity |].
  cbn [map find]. destruct (id l =? ident)%string eqn:Eid; cbn [negb].
  - rewrite id_updatedLayer. apply String.eqb_eq in Eid.
    replace (id l =? other)%string with false; [exact IH |].
    symmetry. apply String.eqb_neq. congruence.
  - rewrite IH. reflexivity.
Qed.

(** An update that supplies the position, or the position and the size,
    overrides an earlier update that supplied the same fields. *)
Lemma updatedLayer_overrides (l : Layer) (first second : Updates.t) :
  geometryOnly first -> geometryOnly second ->
  Updates.x first <> None -> Updates.y first <> None ->
  Updates.x second <> None -> Updates.y second <> None ->
  (Updates.width first = None /\ Updates.height first = None
   /\ Updates.width second = None /\ Updates.height second = None)
  \/ (Updates.width first <> None /\ Updates.height first <> None
      /\ Updates.width second <> None /\ Updates.height second <> None) ->
  updatedLayer (updatedLayer l first) second = updatedLayer l second.
Proof.
  destruct first as [n1 x1 y1 vis1 z1 w1 h1 al1 ar1 t1 fs1 ff1 c1 b1 i1].
  destruct second as [n2 x2 y2 vis2 z2 w2 h2 al2 ar2 t2 fs2 ff2 c2 b2 i2].
  unfold geometryOnly. cbn.
  intros (-> & -> & -> & -> & -> & -> & -> & -> & -> & -> & ->).
  intros (-> & -> & -> & -> & -> & -> & -> & -> & -> & -> & ->).
  intros Hx1 Hy1 Hx2 Hy2 Hsize.
  destruct x1 as [x1 |]; [| contradiction]. destruct y1 as [y1 |]; [| contradiction].
  destruct x2 as [x2 |]; [| contradiction]. destruct y2 as [y2 |]; [| contradiction].
  destruct Hsize as [(-> & -> & -> & ->) | (Hw1 & Hh1 & Hw2 & Hh2)].
  - destruct l as [b [w h locked ratio] | b t]; [destruct locked |]; reflexivity.
  - destruct w1 as [w1 |]; [| contradiction]. destruct h1 as [h1 |]; [| contradiction].
    destruct w2 as [w2 |]; [| contradiction]. destruct h2 as [h2 |]; [| contradiction].
    destruct l as [b [w h locked ratio] | b t]; [destruct locked |]; reflexivity.
Qed.

Lemma updateLayer_overrides (ident : string) (first second : Updates.t) (ls : list Layer) :
  (forall l, updatedLayer (updatedLayer l first) second = updatedLayer l second) ->
  updateLayer ident second (updateLayer ident first ls) = updateLayer ident second ls.
Proof.
  intros Hover. unfold updateLayer. rewrite map_map. apply map_ext. intros l.
  destruct (id l =? ident)%string eqn:Eid; cbn [negb].
  - rewrite id_updatedLayer, Eid. cbn [negb]. apply Hover.
  - rewrite Eid. reflexivity.
Qed.


Section Handlers.

Variable numberToString : Q -> string.
Variable ctx : option (string -> string -> Q).

Local Abbreviation pointerDown := (handleCanvasMouseDown numberToString ctx).
Local Abbreviation pointerMove := (handleCanvasMouseMove numberToString ctx).
Local Abbreviation boxOf := (layerSize numberToString ctx).
Local Abbreviation lookupAt := (clickedLayer numberToString ctx).

(** A pointer move leaves the state as it is or applies one update of
    position and size to the layers of the gesture's id. *)
Lemma handleCanvasMouseMove_cases (st : State.t) (px py : Q) :
  pointerMove st px py = st
  \/ exists gid updates,
       (State.resizingLayer st = Some gid \/ State.draggingLayer st = Some gid)
       /\ geometryOnly updates
       /\ pointerMove st px py
          = State.setLayers st (updateLayer gid updates (State.layers st)).
Proof.
  assert (Hdrag : dragMove numberToString ctx st px py = st
                  \/ exists gid updates,
                       (State.resizingLayer st = Some gid \/ State.draggingLayer st = Some gid)
                       /\ geometryOnly updates
                       /\ dragMove numberToString ctx st px py
                          = State.setLayers st (updateLayer gid updates (State.layers st))).
  { unfold dragMove. destruct (State.draggingLayer st) as [did |] eqn:Edid; [| left; reflexivity].
    destruct (truthy (Some did)); [| left; reflexivity].
    destruct (findLayer did (State.layers st)) as [layer |]; [| left; reflexivity].
    right. exists did, (dragUpdates numberToString ctx st layer px py).
    split; [right; reflexivity |]. split; [| reflexivity].
    repeat split. }
  unfold handleCanvasMouseMove.
  destruct (State.resizingLayer st) as [rid |] eqn:Erid; [| exact Hdrag].
  destruct (State.resizeHandle st) as [handle |]; [| exact Hdrag].
  destruct (truthy (Some rid)); [| exact Hdrag].
  destruct (findLayer rid (State.layers st)) as [[b v | b t] |]; try (left; reflexivity).
  right. exists rid, (resizeUpdates st v handle px py).
  split; [left; reflexivity |]. split; [| reflexivity].
  repeat split.
Qed.

(** X13: a pointer move changes nothing but the layer list, and in the
    layer list nothing but positions and sizes: every layer keeps its
    place, id, name, visibility, zIndex, variant, lock, ratio and text
    fields; and a layer whose id is neither the resized nor the dragged one
    is found unchanged. *)
Theorem handleCanvasMouseMove_changes_geometry_only (st : State.t) (px py : Q) :
  pointerMove st px py = State.setLayers st (State.layers (pointerMove st px py))
  /\ map eraseGeometry (State.layers (pointerMove st px py))
     = map eraseGeometry (State.layers st)
  /\ (forall k,
        State.resizingLayer st <> Some k -> State.draggingLayer st <> Some k ->
        findLayer k (State.layers (pointerMove st px py)) = findLayer k (State.layers st)).
Proof.
  destruct (handleCanvasMouseMove_cases st px py)
    as [-> | (gid & updates & Hgid & Hgeo & ->)].
  - split; [symmetry; apply setLayers_same |]. split; reflexivity.
  - cbn [State.layers State.setLayers]. split; [reflexivity |].
    split; [apply updateLayer_geometryOnly, Hgeo |].
    intros k Hres Hdrag. apply findLayer_updateLayer_other.
    intros ->. destruct Hgid; contradiction.
Qed.

(** X14: releasing the pointer ends any gesture and keeps the layers and
    the selection; in a state without a gesture a pointer move changes
    nothing, so moves after a release leave the state as it is. *)
Theorem handleCanvasMouseUp_ends_gesture (st : State.t) (px py : Q) :
  idle (handleCanvasMouseUp st)
  /\ State.layers (handleCanvasMouseUp st) = State.layers st
  /\ State.selectedLayer (handleCanvasMouseUp st) = State.selectedLayer st
  /\ (idle st -> pointerMove st px py = st)
  /\ pointerMove (handleCanvasMouseUp st) px py = handleCanvasMouseUp st.
Proof.
  assert (Hidle : forall s, idle s -> pointerMove s px py = s).
  { intros s (Hd & Hr & Hh). unfold handleCanvasMouseMove, dragMove.
    rewrite Hd, Hr. reflexivity. }
  assert (Hup : idle (handleCanvasMouseUp st)) by (repeat split).
  split; [exact Hup |]. split; [reflexivity |]. split; [reflexivity |].
  split; [apply Hidle | apply Hidle, Hup].
Qed.


Lemma setLayers_twice (st : State.t) (first second : list Layer) :
  State.setLayers (State.setLayers st first) second = State.setLayers st second.
Proof. reflexivity. Qed.

Lemma layerSize_updatedLayer_position (l : Layer) (qx qy : Q) :
  boxOf (updatedLayer l (Updates.mk None (Some qx) (Some qy) None None None None
                           None None None None None None None None))
  = boxOf l.
Proof.
  destruct l as [b [w h locked ratio] | b [txt fs ff col bd it]];
    [destruct locked |]; reflexivity.
Qed.

Lemma dragMove_twice (st : State.t) (p1x p1y p2x p2y : Q) :
  dragMove numberToString ctx (dragMove numberToString ctx st p1x p1y) p2x p2y
  = dragMove numberToString ctx st p2x p2y.
Proof.
  unfold dragMove at 2 3.
  destruct (State.draggingLayer st) as [did |] eqn:Edid;
    [| unfold dragMove; rewrite Edid; reflexivity].
  destruct (truthy (Some did)) eqn:Etruthy;
    [| unfold dragMove; rewrite Edid, Etruthy; reflexivity].
  destruct (findLayer did (State.layers st)) as [layer |] eqn:Efind;
    [| unfold dragMove; rewrite Edid, Etruthy, Efind; reflexivity].
  unfold dragMove. cbn [State.draggingLayer State.setLayers State.layers].
  rewrite Edid, Etruthy, findLayer_updateLayer, Efind. cbn [option_map].
  assert (Hupd : dragUpdates numberToString ctx
                   (State.setLayers st
                      (updateLayer did (dragUpdates numberToString ctx st layer p1x p1y)
                         (State.layers st)))
                   (updatedLayer layer (dragUpdates numberToString ctx st layer p1x p1y))
                   p2x p2y
                 = dragUpdates numberToString ctx st layer p2x p2y).
  { unfold dragUpdates at 1 3. rewrite layerSize_updatedLayer_position. reflexivity. }
  rewrite Hupd, setLayers_twice. f_equal.
  apply updateLayer_overrides. intros l.
  apply updatedLayer_overrides; try (repeat split); try discriminate.
  left. repeat split.
Qed.

Lemma dragMove_keeps_mode (st : State.t) (px py : Q) :
  State.resizingLayer (dragMove numberToString ctx st px py) = State.resizingLayer st
  /\ State.resizeHandle (dragMove numberToString ctx st px py) = State.resizeHandle st.
Proof.
  unfold dragMove. destruct (State.draggingLayer st) as [did |]; [| split; reflexivity].
  destruct (truthy (Some did)); [| split; reflexivity].
  destruct (findLayer did (State.layers st)); split; reflexivity.
Qed.

(** X18: the state after two pointer moves in a row is the state after the
    second one alone: during a drag or a resize the layer follows the
    pointer's last position, whatever path the pointer took. *)
Theorem handleCanvasMouseMove_last_position (st : State.t) (p1x p1y p2x p2y : Q) :
  pointerMove (pointerMove st p1x p1y) p2x p2y = pointerMove st p2x p2y.
Proof.
  assert (Hmode : forall s,
             (State.resizingLayer s = None \/ State.resizeHandle s = None
              \/ exists rid, State.resizingLayer s = Some rid /\ truthy (Some rid) = false) ->
             forall px py, pointerMove s px py = dragMove numberToString ctx s px py).
  { intros s Hs px py. unfold handleCanvasMouseMove.
    destruct Hs as [-> | [-> | (rid & -> & Hfalsy)]].
    - reflexivity.
    - destruct (State.resizingLayer s); reflexivity.
    - destruct (State.resizeHandle s); [rewrite Hfalsy |]; reflexivity. }
  assert (Hdrag : (State.resizingLayer st = None \/ State.resizeHandle st = None
                   \/ exists rid, State.resizingLayer st = Some rid
                                  /\ truthy (Some rid) = false) ->
                  pointerMove (pointerMove st p1x p1y) p2x p2y = pointerMove st p2x p2y).
  { intros Hst. rewrite (Hmode st Hst p1x p1y), (Hmode st Hst p2x p2y).
    destruct (dragMove_keeps_mode st p1x p1y) as [Hr Hh].
    rewrite Hmode by (rewrite Hr, Hh; exact Hst).
    apply dragMove_twice. }
  destruct (State.resizingLayer st) as [rid |] eqn:Erid;
    [| apply Hdrag; left; reflexivity].
  destruct (State.resizeHandle st) as [handle |] eqn:Ehandle;
    [| apply Hdrag; right; left; reflexivity].
  destruct (truthy (Some rid)) eqn:Etruthy;
    [| apply Hdrag; right; right; exists rid; split; [reflexivity | exact Etruthy]].
  clear Hmode Hdrag.
  destruct (findLayer rid (State.layers st)) as [[b v | b t] |] eqn:Efind.
  - assert (Hmove : forall px py,
               pointerMove st px py
               = State.setLayers st
                   (updateLayer rid (resizeUpdates st v handle px py) (State.layers st))).
    { intros px py. unfold handleCanvasMouseMove.
      rewrite Erid, Ehandle, Etruthy, Efind. reflexivity. }
    rewrite !Hmove. unfold handleCanvasMouseMove.
    cbn [State.resizingLayer State.resizeHandle State.setLayers State.layers].
    rewrite Erid, Ehandle, Etruthy, findLayer_updateLayer, Efind. cbn [option_map].
    assert (Hfirst : exists b1 w1 h1,
               updatedLayer (Video b v) (resizeUpdates st v handle p1x p1y)
               = Video b1 (VideoLayer.mk w1 h1 (VideoLayer.aspectLocked v)
                             (VideoLayer.aspectRatio v))).
    { destruct v as [w h locked ratio]. destruct locked; do 3 eexists; reflexivity. }
    destruct Hfirst as (b1 & w1 & h1 & ->).
    assert (Hupd : resizeUpdates
                     (State.setLayers st
                        (updateLayer rid (resizeUpdates st v handle p1x p1y) (State.layers st)))
                     (VideoLayer.mk w1 h1 (VideoLayer.aspectLocked v) (VideoLayer.aspectRatio v))
                     handle p2x p2y
                   = resizeUpdates st v handle p2x p2y) by reflexivity.
    rewrite Hupd, setLayers_twice. f_equal.
    apply updateLayer_overrides. intros l.
    apply updatedLayer_overrides; try (repeat split); try discriminate.
    right. repeat split; discriminate.
  - assert (Hmove : pointerMove st p1x p1y = st).
    { unfold handleCanvasMouseMove. rewrite Erid, Ehandle, Etruthy, Efind. reflexivity. }
    rewrite Hmove. reflexivity.
  - assert (Hmove : pointerMove st p1x p1y = st).
    { unfold handleCanvasMouseMove. rewrite Erid, Ehandle, Etruthy, Efind. reflexivity. }
    rewrite Hmove. reflexivity.
Qed.


End Handlers.

(** ** Pointer coordinates *)

Lemma scaled_offset_bounds (offset shown size : Q) :
  0 < shown -> 0 <= size -> 0 <= offset -> offset <= shown ->
  0 <= offset * (size / shown) /\ offset * (size / shown) <= size.
Proof.
  intros Hshown Hsize Hlow Hhigh.
  assert (Hinv : 0 < / shown) by (apply Qinv_lt_0_compat; exact Hshown).
  assert (Hunit : shown * / shown == 1) by (apply Qmult_inv_r; lra).
  unfold Qdiv. set (k := / shown) in *.
  assert (Hscale : 0 <= size * k) by nra.
  split; [nra |].
  assert (Hgap : 0 <= (shown - offset) * (size * k)) by (apply Qmult_le_0_compat; lra).
  assert (Hfull : shown * (size * k) == size).
  { transitivity (size * (shown * k)); [ring | rewrite Hunit; ring]. }
  lra.
Qed.

(** X26: when the canvas element is shown with a positive width and height,
    the pointer position is scaled from the shown rectangle to the canvas:
    the corner of the rectangle at (left, top) is the origin, the opposite
    corner is (canvas width, canvas height), and a pointer inside the
    rectangle is a point inside the canvas. *)
Theorem getMousePosition_maps_rect_onto_canvas (rect : ClientRect.t)
    (canvasSize : CanvasSize.t) (clientX clientY : Q)
    (Hwidth : 0 < ClientRect.width rect) (Hheight : 0 < ClientRect.height rect)
    (Hcanvas : (0 <= CanvasSize.width canvasSize)%Z /\ (0 <= CanvasSize.height canvasSize)%Z) :
  let origin := getMousePosition (Some rect) canvasSize
                  (ClientRect.left rect) (ClientRect.top rect) in
  let corner := getMousePosition (Some rect) canvasSize
                  (ClientRect.left rect + ClientRect.width rect)
                  (ClientRect.top rect + ClientRect.height rect) in
  let point := getMousePosition (Some rect) canvasSize clientX clientY in
  (Point.x origin == 0 /\ Point.y origin == 0)
  /\ (Point.x corner == inject_Z (CanvasSize.width canvasSize)
      /\ Point.y corner == inject_Z (CanvasSize.height canvasSize))
  /\ (ClientRect.left rect <= clientX <= ClientRect.left rect + ClientRect.width rect ->
      0 <= Point.x point <= inject_Z (CanvasSize.width canvasSize))
  /\ (ClientRect.top rect <= clientY <= ClientRect.top rect + ClientRect.height rect ->
      0 <= Point.y point <= inject_Z (CanvasSize.height canvasSize)).
Proof.
  destruct rect as [rl rt rw rh]. destruct canvasSize as [cw ch].
  cbn [ClientRect.left ClientRect.top ClientRect.width ClientRect.height
       CanvasSize.width CanvasSize.height] in *.
  destruct Hcanvas as [Hcw Hch].
  assert (Hqw : 0 <= inject_Z cw) by (change 0 with (inject_Z 0); rewrite <- Zle_Qle; exact Hcw).
  assert (Hqh : 0 <= inject_Z ch) by (change 0 with (inject_Z 0); rewrite <- Zle_Qle; exact Hch).
  cbn [getMousePosition Point.x Point.y ClientRect.left ClientRect.top ClientRect.width
       ClientRect.height CanvasSize.width CanvasSize.height].
  split; [split; ring |].
  split.
  - split; field; lra.
  - split; intros [Hlow Hhigh]; apply scaled_offset_bounds; try assumption; lra.
Qed.

(** * Further properties of the compiler *)

(** ** Escaping *)

(** The two replacements together act on one character at a time. *)
Lemma escapedText_cons (c : ascii) (r : string) :
  escapedText (String c r)
  = (if Ascii.eqb c "'" then "\'"
     else if Ascii.eqb c ":" then "\:"
     else String c EmptyString) ++ escapedText r.
Proof.
  unfold escapedText. cbn [replaceAllChar].
  destruct (Ascii.eqb c "'") eqn:Equote.
  - reflexivity.
  - cbn [replaceAllChar]. destruct (Ascii.eqb c ":"); reflexivity.
Qed.

Lemma guarded_escapedText (str : string) (afterBackslash : bool) :
  guarded afterBackslash (escapedText str) = true.
Proof.
  revert afterBackslash. induction str as [| c r IH]; intros afterBackslash; [reflexivity |].
  rewrite escapedText_cons.
  destruct (Ascii.eqb c "'") eqn:Equote; [cbn; apply IH |].
  destruct (Ascii.eqb c ":") eqn:Ecolon; [cbn; apply IH |].
  cbn [append guarded]. rewrite Equote, Ecolon. cbn [orb]. apply IH.
Qed.

(** The first character of an escaped text that is not a backslash is
    neither a quote nor a colon. *)
Lemma escapedText_head (str : string) :
  match escapedText str with
  | String d _ => Ascii.eqb d "\" = true
                  \/ (Ascii.eqb d "'" = false /\ Ascii.eqb d ":" = false)
  | EmptyString => True
  end.
Proof.
  destruct str as [| c r]; [exact I |].
  rewrite escapedText_cons.
  destruct (Ascii.eqb c "'") eqn:Equote; [left; reflexivity |].
  destruct (Ascii.eqb c ":") eqn:Ecolon; [left; reflexivity |].
  cbn [append]. right. split; assumption.
Qed.

Lemma unescapedText_keep (c : ascii) (str : string) :
  Ascii.eqb c "\" = false -> unescapedText (String c str) = String c (unescapedText str).
Proof.
  intros Hc. destruct str as [| d rest]; [reflexivity |].
  cbn [unescapedText]. rewrite Hc. reflexivity.
Qed.

Lemma unescapedText_plain (c : ascii) (str : string) :
  match str with
  | String d _ => Ascii.eqb d "'" = false /\ Ascii.eqb d ":" = false
  | EmptyString => True
  end ->
  unescapedText (String c str) = String c (unescapedText str).
Proof.
  destruct str as [| d rest]; [reflexivity |].
  intros [Hq Hc]. cbn [unescapedText]. rewrite Hq, Hc, andb_false_r. reflexivity.
Qed.

(** Dropping the backslashes before quotes and colons undoes the
    escaping. *)
Lemma unescapedText_escapedText (str : string) :
  unescapedText (escapedText str) = str.
Proof.
  induction str as [| c r IH]; [reflexivity |].
  rewrite escapedText_cons.
  destruct (Ascii.eqb c "'") eqn:Equote.
  { apply Ascii.eqb_eq in Equote. subst c. cbn [append].
    change (unescapedText (String "\" (String "'" (escapedText r))))
      with (unescapedText (String "'" (escapedText r))).
    rewrite unescapedText_keep by reflexivity. rewrite IH. reflexivity. }
  destruct (Ascii.eqb c ":") eqn:Ecolon.
  { apply Ascii.eqb_eq in Ecolon. subst c. cbn [append].
    change (unescapedText (String "\" (String ":" (escapedText r))))
      with (unescapedText (String ":" (escapedText r))).
    rewrite unescapedText_keep by reflexivity. rewrite IH. reflexivity. }
  cbn [append]. rewrite unescapedText_plain; [rewrite IH; reflexivity |].
  pose proof (escapedText_head r) as Hhead.
  destruct (escapedText r) as [| d rest]; [exact I |].
  destruct Hhead as [Hback | Hplain]; [| exact Hplain].
  apply Ascii.eqb_eq in Hback. subst d. split; reflexivity.
Qed.

Section CompilerMore.

Variable numberToString : Q -> string.

(** X20: the text of a drawtext stage is the layer's text with one
    backslash put before every quote and every colon and nothing else
    changed: character by character, a quote becomes backslash quote, a
    colon becomes backslash colon and any other character stays; dropping
    the backslashes that stand before a quote or a colon gives the layer's
    text back; every quote and every colon of the result comes right
    after a backslash, and a text without quote and colon is written as it
    is. *)
Theorem drawtextStage_escapes (currentBase nextBase : string) (b : BaseLayer.t)
    (t : TextLayer.t) :
  (exists rest,
      Stage.body (drawtextStage numberToString currentBase (b, t) nextBase)
      = "drawtext=text='" ++ escapedText (TextLayer.text t) ++ "':" ++ rest)
  /\ escapedText "" = ""
  /\ (forall c r,
        escapedText (String c r)
        = (if Ascii.eqb c "'" then "\'"
           else if Ascii.eqb c ":" then "\:"
           else String c EmptyString) ++ escapedText r)
  /\ unescapedText (escapedText (TextLayer.text t)) = TextLayer.text t
  /\ guarded false (escapedText (TextLayer.text t)) = true
  /\ (hasChar "'" (TextLayer.text t) = false -> hasChar ":" (TextLayer.text t) = false ->
      escapedText (TextLayer.text t) = TextLayer.text t).
Proof.
  split; [eexists; reflexivity |].
  split; [reflexivity |].
  split; [exact escapedText_cons |].
  split; [apply unescapedText_escapedText |].
  split; [apply guarded_escapedText |].
  induction (TextLayer.text t) as [| c r IH]; [reflexivity |].
  cbn [hasChar]. intros Hq Hc.
  apply orb_false_iff in Hq as [Hq1 Hq2]. apply orb_false_iff in Hc as [Hc1 Hc2].
  rewrite escapedText_cons, Hq1, Hc1. cbn [append]. rewrite (IH Hq2 Hc2). reflexivity.
Qed.

(** ** Hidden layers *)

Lemma filter_visible_hidden (ident : string) (ls : list Layer) :
  filter visible (updateLayer ident (visibleOnly false) ls)
  = filter visible (filter (fun layer => negb (id layer =? ident)%string) ls).
Proof.
  unfold updateLayer. induction ls as [| l rest IH]; [reflexivity |].
  cbn [map filter]. destruct (id l =? ident)%string; cbn [negb].
  - replace (visible (updatedLayer l (visibleOnly false))) with false; [exact IH |].
    destruct l as [b [w h locked ratio] | b t]; [destruct locked |]; reflexivity.
  - cbn [filter]. rewrite IH. reflexivity.
Qed.

Lemma filter_visible_twice (ls : list Layer) :
  filter visible (filter visible ls) = filter visible ls.
Proof.
  induction ls as [| l rest IH]; [reflexivity |].
  cbn [filter]. destruct (visible l) eqn:Evis; [| exact IH].
  cbn [filter]. rewrite Evis, IH. reflexivity.
Qed.

(** The command is a function of the visible layers. *)
Lemma commandChunks_visible_only (ls ls' : list Layer) (canvasSize : CanvasSize.t)
    (templateImage : option string) :
  filter visible ls = filter visible ls' ->
  commandChunks numberToString ls canvasSize templateImage
  = commandChunks numberToString ls' canvasSize templateImage.
Proof. intros Heq. unfold commandChunks. rewrite Heq. reflexivity. Qed.

(** X21: hidden layers do not reach the command: the command of a
    collection is the command of its visible layers alone, and hiding the
    layers of an id gives the same command text as removing them. *)
Theorem hidden_layers_compile_as_removed (st : State.t) (ident : string) :
  commandChunks numberToString (filter visible (State.layers st))
    (State.canvasSize st) (State.templateImage st)
  = commandChunks numberToString (State.layers st)
      (State.canvasSize st) (State.templateImage st)
  /\ State.ffmpegCommand
       (generateFFmpegCommand numberToString
          (State.setLayers st (updateLayer ident (visibleOnly false) (State.layers st))))
     = State.ffmpegCommand (generateFFmpegCommand numberToString (removeLayer st ident)).
Proof.
  split.
  - apply commandChunks_visible_only, filter_visible_twice.
  - unfold generateFFmpegCommand. cbn [State.ffmpegCommand State.setFfmpegCommand
      State.layers State.setLayers State.canvasSize State.templateImage].
    rewrite removeLayer_layers.
    replace (State.canvasSize (removeLayer st ident)) with (State.canvasSize st);
      [| unfold removeLayer; destruct (State.selectedLayer st) as [sel |];
         [destruct (sel =? ident)%string |]; reflexivity].
    replace (State.templateImage (removeLayer st ident)) with (State.templateImage st);
      [| unfold removeLayer; destruct (State.selectedLayer st) as [sel |];
         [destruct (sel =? ident)%string |]; reflexivity].
    f_equal. apply commandChunks_visible_only, filter_visible_hidden.
Qed.

(** ** Inputs and the streams the stages read *)

Lemma inputCount_app (a b : list Chunk) :
  inputCount (a ++ b) = (inputCount a + inputCount b)%nat.
Proof. unfold inputCount. rewrite filter_app. apply length_app. Qed.

Lemma streamsRead_app (a b : list Chunk) :
  streamsRead (a ++ b) = (streamsRead a ++ streamsRead b)%list.
Proof. unfold streamsRead. apply flat_map_app. Qed.

Lemma inputFiles_inputs (videoLayers : list (BaseLayer.t * VideoLayer.t))
    (templateImage : option string) (command : list Chunk) :
  inputCount (inputFiles videoLayers templateImage command)
  = (inputCount command + List.length videoLayers
     + (if truthy templateImage then 1 else 0))%nat
  /\ streamsRead (inputFiles videoLayers templateImage command) = streamsRead command.
Proof.
  assert (Hdecl : forall str, inputCount [Raw ("  -i " ++ str)] = 1%nat)
    by (intros str; destruct str; reflexivity).
  unfold inputFiles.
  set (loop := forEachIdx _ videoLayers command).
  assert (Hloop : inputCount loop = (inputCount command + List.length videoLayers)%nat
                  /\ streamsRead loop = streamsRead command).
  { subst loop. unfold forEachIdx.
    assert (Hlen : List.length (combine (seq 0 (List.length videoLayers)) videoLayers)
                   = List.length videoLayers).
    { rewrite length_combine, length_seq. apply Nat.min_id. }
    rewrite <- Hlen at 2.
    apply (fold_left_invariant _
             (fun pre cmd => inputCount cmd = (inputCount command + List.length pre)%nat
                             /\ streamsRead cmd = streamsRead command)).
    - split; [cbn [List.length]; lia | reflexivity].
    - intros pre p acc _ [Hcount Hstreams]. split.
      + rewrite inputCount_app, Hcount, length_app, (Hdecl _). cbn [List.length]. lia.
      + rewrite streamsRead_app, Hstreams. apply app_nil_r. }
  destruct Hloop as [Hcount Hstreams].
  destruct (truthy templateImage).
  - rewrite inputCount_app, streamsRead_app, Hcount, Hstreams, (Hdecl _).
    split; [reflexivity | apply app_nil_r].
  - rewrite Hcount, Hstreams. split; [lia | reflexivity].
Qed.

Lemma scaleVideos_inputs (videoLayers : list (BaseLayer.t * VideoLayer.t))
    (command : list Chunk) :
  inputCount (scaleVideos videoLayers command) = inputCount command
  /\ streamsRead (scaleVideos videoLayers command)
     = (streamsRead command ++ seq 0 (List.length videoLayers))%list.
Proof.
  unfold scaleVideos, forEachIdx.
  assert (Hfst : map fst (combine (seq 0 (List.length videoLayers)) videoLayers)
                 = seq 0 (List.length videoLayers)).
  { generalize 0%nat. induction videoLayers as [| v rest IH]; intros start; [reflexivity |].
    cbn [List.length seq combine map fst]. rewrite IH. reflexivity. }
  rewrite <- Hfst at 3.
  apply (fold_left_invariant _
           (fun pre cmd => inputCount cmd = inputCount command
                           /\ streamsRead cmd = (streamsRead command ++ map fst pre)%list)).
  - split; [reflexivity | symmetry; apply app_nil_r].
  - intros pre p acc _ [Hcount Hstreams]. split.
    + rewrite inputCount_app, Hcount. cbn. lia.
    + rewrite streamsRead_app, Hstreams, map_app, <- app_assoc. reflexivity.
Qed.

Lemma chain_inputs {A : Type} (stage : string -> A -> nat -> string -> Stage.t)
    (next : nat -> string) (arr : list A) (acc : list Chunk * string) :
  (forall cur a idx nxt, Stage.streams (stage cur a idx nxt) = []) ->
  let result :=
    forEachIdx (fun acc layer idx =>
                  ((fst acc ++ [Filter (stage (snd acc) layer idx (next idx))])%list,
                   next idx)) arr acc in
  inputCount (fst result) = inputCount (fst acc)
  /\ streamsRead (fst result) = streamsRead (fst acc).
Proof.
  intros Hnone. unfold forEachIdx.
  apply (fold_left_invariant _
           (fun _ cur => inputCount (fst cur) = inputCount (fst acc)
                         /\ streamsRead (fst cur) = streamsRead (fst acc))).
  - split; reflexivity.
  - intros pre p cur _ [Hcount Hstreams]. cbn [fst snd]. split.
    + rewrite inputCount_app, Hcount. cbn. lia.
    + rewrite streamsRead_app, Hstreams. cbn [streamsRead flat_map].
      rewrite Hnone. apply app_nil_r.
Qed.

(** X22: for a collection with a visible layer, the command declares one
    input per visible video layer and one more for the template when there
    is one; the scale stages read the inputs 0, 1, ... of the video layers
    in order, the final overlay reads the input after them, and so every
    input stream a stage reads is a declared input. *)
Theorem commandChunks_reads_declared_inputs (ls : list Layer)
    (canvasSize : CanvasSize.t) (templateImage : option string)
    (Hvisible : exists l, In l ls /\ visible l = true) :
  let command := commandChunks numberToString ls canvasSize templateImage in
  let videoCount := List.length (videosOf (sortLayers byZIndexAsc (filter visible ls))) in
  inputCount command = (videoCount + (if truthy templateImage then 1 else 0))%nat
  /\ streamsRead command
     = (seq 0 videoCount ++ (if truthy templateImage then [videoCount] else []))%list
  /\ forall k, In k (streamsRead command) -> (k < inputCount command)%nat.
Proof.
  destruct Hvisible as (l0 & Hl0 & Hvis0). cbv zeta.
  assert (Hshape : inputCount (commandChunks numberToString ls canvasSize templateImage)
                   = (List.length (videosOf (sortLayers byZIndexAsc (filter visible ls)))
                      + (if truthy templateImage then 1 else 0))%nat
                   /\ streamsRead (commandChunks numberToString ls canvasSize templateImage)
                      = (seq 0 (List.length (videosOf (sortLayers byZIndexAsc
                                                         (filter visible ls))))
                         ++ (if truthy templateImage
                             then [List.length (videosOf (sortLayers byZIndexAsc
                                                            (filter visible ls)))]
                             else []))%list).
  { unfold commandChunks.
    assert (Hin : In l0 (sortLayers byZIndexAsc (filter visible ls))).
    { apply sortLayers_In, filter_In. split; assumption. }
    destruct (sortLayers byZIndexAsc (filter visible ls)) as [| l1 rest] eqn:Evis;
      [contradiction |].
    rewrite <- Evis. clear Hin Evis l1 rest.
    replace (List.length (sortLayers byZIndexAsc (filter visible ls)) =? 0)%nat with false.
    2:{ symmetry. apply Nat.eqb_neq. intros Hlen. apply length_zero_iff_nil in Hlen.
        assert (Hin : In l0 (sortLayers byZIndexAsc (filter visible ls)))
          by (apply sortLayers_In, filter_In; split; assumption).
        rewrite Hlen in Hin. contradiction. }
    remember (videosOf (sortLayers byZIndexAsc (filter visible ls))) as videoLayers.
    remember (textsOf (sortLayers byZIndexAsc (filter visible ls))) as textLayers.
    clear HeqvideoLayers HeqtextLayers.
    destruct (inputFiles_inputs videoLayers templateImage [Raw ("ffmpeg \" ++ nl)])
      as [Hc2 Hs2].
    set (cmd2 := inputFiles videoLayers templateImage [Raw ("ffmpeg \" ++ nl)]) in *.
    set (cmd4 := createBase canvasSize (cmd2 ++ [Raw ("  -filter_complex " ++ dq ++ nl)])).
    assert (Hc4 : inputCount cmd4
                  = (List.length videoLayers + (if truthy templateImage then 1 else 0))%nat).
    { unfold cmd4, createBase. rewrite !inputCount_app, Hc2. cbn. lia. }
    assert (Hs4 : streamsRead cmd4 = []).
    { unfold cmd4, createBase. rewrite !streamsRead_app, Hs2. reflexivity. }
    destruct (scaleVideos_inputs videoLayers cmd4) as [Hc5 Hs5].
    rewrite Hc4 in Hc5. rewrite Hs4 in Hs5. cbn [app] in Hs5.
    set (cmd5 := scaleVideos videoLayers cmd4) in *.
    assert (H6 : inputCount (fst (overlayVideos videoLayers (cmd5, "base")))
                 = inputCount cmd5
                 /\ streamsRead (fst (overlayVideos videoLayers (cmd5, "base")))
                    = streamsRead cmd5).
    { apply (chain_inputs
               (fun cur layer idx nxt => overlayStage cur layer idx nxt)
               (fun idx => if (idx =? List.length videoLayers - 1)%nat then "videos"
                           else "tmp" ++ string_of_nat idx)
               videoLayers (cmd5, "base")).
      reflexivity. }
    set (acc6 := overlayVideos videoLayers (cmd5, "base")) in *.
    assert (H7 : inputCount (fst (addTextOverlays numberToString textLayers acc6))
                 = inputCount (fst acc6)
                 /\ streamsRead (fst (addTextOverlays numberToString textLayers acc6))
                    = streamsRead (fst acc6)).
    { unfold addTextOverlays. destruct (0 <? List.length textLayers)%nat;
        [| split; reflexivity].
      apply (chain_inputs
               (fun cur layer (_ : nat) nxt => drawtextStage numberToString cur layer nxt)
               (fun idx => if (idx =? List.length textLayers - 1)%nat then "final"
                           else "txt" ++ string_of_nat idx)
               textLayers acc6).
      reflexivity. }
    set (acc7 := addTextOverlays numberToString textLayers acc6) in *.
    destruct H6 as [Hc6 Hs6], H7 as [Hc7 Hs7].
    unfold outputOptions, finalOverlay.
    destruct (truthy templateImage); cbn [fst snd].
    - rewrite !inputCount_app, !streamsRead_app, Hc7, Hc6, Hc5, Hs7, Hs6, Hs5.
      split; [cbn; lia | cbn [streamsRead flat_map Stage.streams app]].
      rewrite app_nil_r. reflexivity.
    - rewrite !inputCount_app, !streamsRead_app, Hc7, Hc6, Hc5, Hs7, Hs6, Hs5.
      split; [cbn; lia | cbn [streamsRead flat_map app]].
      reflexivity. }
  destruct Hshape as [Hcount Hstreams].
  split; [exact Hcount |]. split; [exact Hstreams |].
  intros k Hk. rewrite Hcount. rewrite Hstreams in Hk.
  apply in_app_or in Hk as [Hk | Hk].
  - apply in_seq in Hk. lia.
  - destruct (truthy templateImage); [| contradiction].
    destruct Hk as [<- | []]. lia.
Qed.

(** ** The order of the collection *)

Lemma insertSorted_perm (cmp : Layer -> Layer -> Z) (a : Layer) (ls : list Layer) :
  Permutation (insertSorted cmp a ls) (a :: ls).
Proof.
  induction ls as [| b rest IH]; cbn [insertSorted]; [reflexivity |].
  destruct (cmp a b <=? 0)%Z; [reflexivity |].
  rewrite IH. apply perm_swap.
Qed.

Lemma sortLayers_perm (cmp : Layer -> Layer -> Z) (ls : list Layer) :
  Permutation (sortLayers cmp ls) ls.
Proof.
  unfold sortLayers. induction ls as [| a rest IH]; cbn [fold_right]; [reflexivity |].
  rewrite insertSorted_perm. apply perm_skip, IH.
Qed.

Lemma insertSorted_asc (a : Layer) (ls : list Layer) :
  StronglySorted (fun p q => (zIndex p <= zIndex q)%Z) ls ->
  StronglySorted (fun p q => (zIndex p <= zIndex q)%Z) (insertSorted byZIndexAsc a ls).
Proof.
  induction ls as [| b rest IH]; intros Hs; cbn [insertSorted].
  - constructor; constructor.
  - apply StronglySorted_inv in Hs as [Hrest Hb].
    unfold byZIndexAsc at 1. destruct (Z.leb_spec (zIndex a - zIndex b) 0).
    + constructor; [constructor; assumption |].
      constructor; [lia |].
      rewrite Forall_forall in *. intros q Hq. specialize (Hb q Hq). lia.
    + constructor; [apply IH, Hrest |].
      rewrite Forall_forall in *. intros q Hq.
      apply insertSorted_In in Hq as [-> | Hq]; [lia | apply Hb, Hq].
Qed.

Lemma sortLayers_asc (ls : list Layer) :
  StronglySorted (fun p q => (zIndex p <= zIndex q)%Z) (sortLayers byZIndexAsc ls).
Proof.
  unfold sortLayers. induction ls as [| a rest IH]; cbn [fold_right].
  - constructor.
  - apply insertSorted_asc, IH.
Qed.

(** Two sorted arrangements of the same layers with distinct zIndex values
    are the same list. *)
Lemma sorted_arrangement_unique (l1 l2 : list Layer) :
  NoDup (map zIndex l1) ->
  StronglySorted (fun p q => (zIndex p <= zIndex q)%Z) l1 ->
  StronglySorted (fun p q => (zIndex p <= zIndex q)%Z) l2 ->
  Permutation l1 l2 -> l1 = l2.
Proof.
  revert l2. induction l1 as [| a r IH]; intros l2 Hnd Hs1 Hs2 Hperm.
  - apply Permutation_nil in Hperm. congruence.
  - destruct l2 as [| b r2]; [apply Permutation_sym, Permutation_nil in Hperm; discriminate |].
    apply StronglySorted_inv in Hs1 as [Hr1 Ha]. apply StronglySorted_inv in Hs2 as [Hr2 Hb].
    rewrite Forall_forall in Ha, Hb.
    assert (Hab : a = b).
    { assert (Hain : In a (b :: r2)) by (apply (Permutation_in _ Hperm); left; reflexivity).
      assert (Hbin : In b (a :: r))
        by (apply (Permutation_in _ (Permutation_sym Hperm)); left; reflexivity).
      destruct Hain as [-> | Hain]; [reflexivity |].
      destruct Hbin as [-> | Hbin]; [reflexivity |].
      specialize (Ha b Hbin). specialize (Hb a Hain).
      apply (NoDup_map_eq zIndex (a :: r)); [exact Hnd | left; reflexivity | right; exact Hbin |].
      lia. }
    subst b. f_equal. apply IH; try assumption.
    + cbn [map] in Hnd. apply NoDup_cons_iff in Hnd. apply Hnd.
    + apply (Permutation_cons_inv Hperm).
Qed.

Lemma filter_perm (f : Layer -> bool) (l1 l2 : list Layer) :
  Permutation l1 l2 -> Permutation (filter f l1) (filter f l2).
Proof.
  induction 1 as [| a l1 l2 _ IH | a b l | l1 l2 l3 _ IH1 _ IH2]; cbn [filter].
  - reflexivity.
  - destruct (f a); [apply perm_skip |]; exact IH.
  - destruct (f a), (f b); try reflexivity. apply perm_swap.
  - etransitivity; eassumption.
Qed.

(** X23: when the visible layers have pairwise distinct zIndex values, the
    command does not depend on the order in which the collection holds its
    layers: any rearrangement of the collection compiles to the same
    command. *)
Theorem commandChunks_order_independent (ls ls' : list Layer)
    (canvasSize : CanvasSize.t) (templateImage : option string)
    (Hperm : Permutation ls ls')
    (Hzs : NoDup (map zIndex (filter visible ls))) :
  commandChunks numberToString ls canvasSize templateImage
  = commandChunks numberToString ls' canvasSize templateImage.
Proof.
  assert (Hsorted : sortLayers byZIndexAsc (filter visible ls)
                    = sortLayers byZIndexAsc (filter visible ls')).
  { apply sorted_arrangement_unique.
    - apply (Permutation_NoDup (l := map zIndex (filter visible ls))); [| exact Hzs].
      apply Permutation_map, Permutation_sym, sortLayers_perm.
    - apply sortLayers_asc.
    - apply sortLayers_asc.
    - rewrite !sortLayers_perm. apply filter_perm, Hperm. }
  unfold commandChunks. rewrite Hsorted. reflexivity.
Qed.

(** ** The labels of the stages *)

(** The decimal printer is read back by the decimal parser. *)
Lemma string_of_Z_parses (z : Z) :
  NilZero.int_of_string (string_of_Z z) = Some (Z.to_int z).
Proof.
  unfold string_of_Z. apply NilZero.isi.
  - destruct z as [| p | p]; cbn; try discriminate.
    intros [= Hnil]. exact (DecimalPos.Unsigned.to_uint_nonnil p Hnil).
  - destruct z as [| p | p]; cbn; try discriminate.
    intros [= Hnil]. exact (DecimalPos.Unsigned.to_uint_nonnil p Hnil).
Qed.

Lemma string_of_nat_inj (j k : nat) : string_of_nat j = string_of_nat k -> j = k.
Proof.
  unfold string_of_nat. intros Heq.
  assert (Hparse : Some (Z.to_int (Z.of_nat j)) = Some (Z.to_int (Z.of_nat k)))
    by (rewrite <- !string_of_Z_parses, Heq; reflexivity).
  injection Hparse as Hint. apply DecimalZ.to_int_inj in Hint. lia.
Qed.

Lemma string_of_nat_not_word (k : nat) (word : string) :
  NilZero.int_of_string word = None -> string_of_nat k <> word.
Proof.
  intros Hnone Heq. unfold string_of_nat in Heq.
  rewrite <- Heq, string_of_Z_parses in Hnone. discriminate.
Qed.

Lemma NoDup_map_on {A B : Type} (f : A -> B) (l : list A) :
  (forall x y, In x l -> In y l -> f x = f y -> x = y) ->
  NoDup l -> NoDup (map f l).
Proof.
  intros Hinj Hnd. induction Hnd as [| a l Hnotin Hnd IH]; cbn [map]; constructor.
  - intros Hin. apply in_map_iff in Hin as (x & Hfx & Hx).
    assert (x = a) by (apply Hinj; [right | left |]; auto). subst x. contradiction.
  - apply IH. intros x y Hx Hy. apply Hinj; right; assumption.
Qed.

Lemma indexed_fst {A : Type} (arr : list A) (start : nat) :
  map fst (combine (seq start (List.length arr)) arr) = seq start (List.length arr).
Proof.
  revert start. induction arr as [| a rest IH]; intros start; [reflexivity |].
  cbn [List.length seq combine map fst]. rewrite IH. reflexivity.
Qed.

Lemma chain_labels {A : Type} (stage : string -> A -> nat -> string -> Stage.t)
    (next : nat -> string) (arr : list A) (acc : list Chunk * string) :
  (forall cur a idx nxt, Stage.produces (stage cur a idx nxt) = nxt) ->
  producedLabels
    (fst (forEachIdx (fun acc layer idx =>
                        ((fst acc ++ [Filter (stage (snd acc) layer idx (next idx))])%list,
                         next idx)) arr acc))
  = (producedLabels (fst acc) ++ map next (seq 0 (List.length arr)))%list.
Proof.
  intros Hprod. unfold forEachIdx.
  rewrite <- (indexed_fst arr 0) at 2.
  apply (fold_left_invariant _
           (fun pre cur => producedLabels (fst cur)
                           = (producedLabels (fst acc) ++ map next (map fst pre))%list)).
  - symmetry. apply app_nil_r.
  - intros pre p cur _ Hlabels. cbn [fst snd].
    rewrite producedLabels_app, Hlabels, !map_app, <- app_assoc.
    cbn [producedLabels flat_map map app]. rewrite Hprod. reflexivity.
Qed.

Lemma scaleVideos_labels (videoLayers : list (BaseLayer.t * VideoLayer.t))
    (command : list Chunk) :
  producedLabels (scaleVideos videoLayers command)
  = (producedLabels command
     ++ map (fun idx => ("v" ++ string_of_nat idx)%string)
            (seq 0 (List.length videoLayers)))%list.
Proof.
  unfold scaleVideos, forEachIdx.
  rewrite <- (indexed_fst videoLayers 0) at 2.
  apply (fold_left_invariant _
           (fun pre cmd => producedLabels cmd
                           = (producedLabels command
                              ++ map (fun idx => ("v" ++ string_of_nat idx)%string)
                                     (map fst pre))%list)).
  - symmetry. apply app_nil_r.
  - intros pre p cmd _ Hlabels.
    rewrite producedLabels_app, Hlabels, !map_app, <- app_assoc. reflexivity.
Qed.

Lemma inputFiles_labels (videoLayers : list (BaseLayer.t * VideoLayer.t))
    (templateImage : option string) (command : list Chunk) :
  producedLabels (inputFiles videoLayers templateImage command) = producedLabels command.
Proof.
  unfold inputFiles.
  set (loop := forEachIdx _ videoLayers command).
  assert (Hloop : producedLabels loop = producedLabels command).
  { subst loop. unfold forEachIdx.
    apply (fold_left_invariant _ (fun _ cmd => producedLabels cmd = producedLabels command)).
    - reflexivity.
    - intros pre p cmd _ Hlabels. rewrite producedLabels_app, Hlabels. apply app_nil_r. }
  destruct (truthy templateImage); [| exact Hloop].
  rewrite producedLabels_app, Hloop. apply app_nil_r.
Qed.

(** The labels of a command with a visible layer, in the order the stages
    write them. *)
Lemma commandChunks_labels (ls : list Layer) (canvasSize : CanvasSize.t)
    (templateImage : option string) :
  (exists l, In l ls /\ visible l = true) ->
  let videoCount := List.length (videosOf (sortLayers byZIndexAsc (filter visible ls))) in
  let textCount := List.length (textsOf (sortLayers byZIndexAsc (filter visible ls))) in
  producedLabels (commandChunks numberToString ls canvasSize templateImage)
  = ("base"
     :: map (fun idx => "v" ++ string_of_nat idx)%string (seq 0 videoCount)
     ++ map (fun idx => if (idx =? videoCount - 1)%nat then "videos"
                        else "tmp" ++ string_of_nat idx)%string (seq 0 videoCount)
     ++ map (fun idx => if (idx =? textCount - 1)%nat then "final"
                        else "txt" ++ string_of_nat idx)%string (seq 0 textCount)
     ++ (if truthy templateImage then ["output"] else []))%list.
Proof.
  intros (l0 & Hl0 & Hvis0). cbv zeta. unfold commandChunks.
  replace (List.length (sortLayers byZIndexAsc (filter visible ls)) =? 0)%nat with false.
  2:{ symmetry. apply Nat.eqb_neq. intros Hlen. apply length_zero_iff_nil in Hlen.
      assert (Hin : In l0 (sortLayers byZIndexAsc (filter visible ls)))
        by (apply sortLayers_In, filter_In; split; assumption).
      rewrite Hlen in Hin. contradiction. }
  remember (videosOf (sortLayers byZIndexAsc (filter visible ls))) as videoLayers.
  remember (textsOf (sortLayers byZIndexAsc (filter visible ls))) as textLayers.
  clear HeqvideoLayers HeqtextLayers.
  set (cmd2 := inputFiles videoLayers templateImage [Raw ("ffmpeg \" ++ nl)]).
  set (cmd4 := createBase canvasSize (cmd2 ++ [Raw ("  -filter_complex " ++ dq ++ nl)])).
  assert (H4 : producedLabels cmd4 = ["base"]).
  { unfold cmd4, createBase, cmd2. rewrite !producedLabels_app, inputFiles_labels.
    reflexivity. }
  pose proof (scaleVideos_labels videoLayers cmd4) as H5. rewrite H4 in H5.
  set (cmd5 := scaleVideos videoLayers cmd4) in *.
  pose proof (chain_labels
                (fun cur layer idx nxt => overlayStage cur layer idx nxt)
                (fun idx => if (idx =? List.length videoLayers - 1)%nat then "videos"
                            else "tmp" ++ string_of_nat idx)
                videoLayers (cmd5, "base") (fun _ _ _ _ => eq_refl)) as H6.
  change (forEachIdx _ videoLayers (cmd5, "base"))
    with (overlayVideos videoLayers (cmd5, "base")) in H6.
  cbn [fst] in H6. rewrite H5 in H6.
  set (acc6 := overlayVideos videoLayers (cmd5, "base")) in *.
  assert (H7 : producedLabels (fst (addTextOverlays numberToString textLayers acc6))
               = (producedLabels (fst acc6)
                  ++ map (fun idx => if (idx =? List.length textLayers - 1)%nat then "final"
                                     else "txt" ++ string_of_nat idx)%string
                         (seq 0 (List.length textLayers)))%list).
  { unfold addTextOverlays. destruct textLayers as [| t1 trest].
    - cbn. symmetry. apply app_nil_r.
    - cbn [List.length Nat.ltb Nat.leb].
      apply (chain_labels
               (fun cur layer (_ : nat) nxt => drawtextStage numberToString cur layer nxt)
               (fun idx => if (idx =? List.length (t1 :: trest) - 1)%nat then "final"
                           else "txt" ++ string_of_nat idx)
               (t1 :: trest) acc6 (fun _ _ _ _ => eq_refl)). }
  rewrite H6 in H7.
  set (acc7 := addTextOverlays numberToString textLayers acc6) in *.
  unfold outputOptions, finalOverlay.
  destruct (truthy templateImage); cbn [fst snd];
    rewrite !producedLabels_app, H7; cbn [producedLabels flat_map app Stage.produces];
    rewrite <- ?app_assoc, ?app_nil_r; reflexivity.
Qed.

Lemma NoDup_app_families (P Q : string -> Prop) (l1 l2 : list string) :
  NoDup l1 -> NoDup l2 -> Forall P l1 -> Forall Q l2 ->
  (forall label, P label -> Q label -> False) ->
  NoDup (l1 ++ l2).
Proof.
  intros H1 H2 HP HQ Hexcl. apply NoDup_app; [exact H1 | exact H2 |].
  rewrite Forall_forall in HP, HQ.
  intros label Hin1 Hin2. exact (Hexcl label (HP label Hin1) (HQ label Hin2)).
Qed.

(** X24: in the command of a collection with a visible layer, the stages
    write, in this order, [base], one label [v0], [v1], ... per visible video
    layer, the labels [tmp0], [tmp1], ... of the overlay chain with [videos]
    for its last stage, the labels [txt0], [txt1], ... of the text chain
    with [final] for its last stage, and [output] when there is a template;
    these labels are pairwise distinct: no label is written twice. *)
Theorem commandChunks_labels_distinct (ls : list Layer) (canvasSize : CanvasSize.t)
    (templateImage : option string)
    (Hvisible : exists l, In l ls /\ visible l = true) :
  let videoCount := List.length (videosOf (sortLayers byZIndexAsc (filter visible ls))) in
  let textCount := List.length (textsOf (sortLayers byZIndexAsc (filter visible ls))) in
  producedLabels (commandChunks numberToString ls canvasSize templateImage)
  = ("base"
     :: map (fun idx => "v" ++ string_of_nat idx)%string (seq 0 videoCount)
     ++ map (fun idx => if (idx =? videoCount - 1)%nat then "videos"
                        else "tmp" ++ string_of_nat idx)%string (seq 0 videoCount)
     ++ map (fun idx => if (idx =? textCount - 1)%nat then "final"
                        else "txt" ++ string_of_nat idx)%string (seq 0 textCount)
     ++ (if truthy templateImage then ["output"] else []))%list
  /\ NoDup (producedLabels (commandChunks numberToString ls canvasSize templateImage)).
Proof.
  cbv zeta. pose proof (commandChunks_labels ls canvasSize templateImage Hvisible) as Hlabels.
  cbv zeta in Hlabels. split; [exact Hlabels |]. rewrite Hlabels.
  set (n := List.length (videosOf (sortLayers byZIndexAsc (filter visible ls)))).
  set (m := List.length (textsOf (sortLayers byZIndexAsc (filter visible ls)))).
  set (scales := map (fun idx => ("v" ++ string_of_nat idx)%string) (seq 0 n)).
  set (overlays := map (fun idx => (if (idx =? n - 1)%nat then "videos"
                                    else "tmp" ++ string_of_nat idx)%string) (seq 0 n)).
  set (texts := map (fun idx => (if (idx =? m - 1)%nat then "final"
                                 else "txt" ++ string_of_nat idx)%string) (seq 0 m)).
  set (last := if truthy templateImage then ["output"] else []).
  assert (Hscales : NoDup scales /\ Forall scaleLabel scales).
  { split.
    - apply NoDup_map_on; [| apply seq_NoDup].
      intros x y _ _ [= Heq]. apply string_of_nat_inj, Heq.
    - apply Forall_forall. intros label Hin. apply in_map_iff in Hin as (k & <- & _).
      exists k. reflexivity. }
  assert (Hoverlays : NoDup overlays /\ Forall overlayLabel overlays).
  { split.
    - apply NoDup_map_on; [| apply seq_NoDup].
      intros x y _ _.
      destruct (Nat.eqb_spec x (n - 1)), (Nat.eqb_spec y (n - 1));
        try congruence; try discriminate.
      intros [= Heq]. apply string_of_nat_inj, Heq.
    - apply Forall_forall. intros label Hin. apply in_map_iff in Hin as (k & <- & _).
      destruct (k =? n - 1)%nat; [left; reflexivity | right; exists k; reflexivity]. }
  assert (Htexts : NoDup texts /\ Forall textLabel texts).
  { split.
    - apply NoDup_map_on; [| apply seq_NoDup].
      intros x y _ _.
      destruct (Nat.eqb_spec x (m - 1)), (Nat.eqb_spec y (m - 1));
        try congruence; try discriminate.
      intros [= Heq]. apply string_of_nat_inj, Heq.
    - apply Forall_forall. intros label Hin. apply in_map_iff in Hin as (k & <- & _).
      destruct (k =? m - 1)%nat; [left; reflexivity | right; exists k; reflexivity]. }
  assert (Hlast : NoDup last /\ Forall (eq "output") last).
  { subst last. destruct (truthy templateImage); split; repeat constructor. intros []. }
  destruct Hscales as [Hs1 Hs2], Hoverlays as [Ho1 Ho2], Htexts as [Ht1 Ht2],
    Hlast as [Hl1 Hl2].
  assert (Htail1 : NoDup (texts ++ last)
                   /\ Forall (fun label => textLabel label \/ "output" = label) (texts ++ last)).
  { split.
    - apply (NoDup_app_families textLabel (eq "output")); try assumption.
      intros label [-> | (k & ->)] Hout; discriminate.
    - apply Forall_app. split.
      + eapply Forall_impl; [| exact Ht2]. intros label Hl. left. exact Hl.
      + eapply Forall_impl; [| exact Hl2]. intros label Hl. right. exact Hl. }
  destruct Htail1 as [Hn1 Hf1].
  assert (Htail2 : NoDup (overlays ++ texts ++ last)
                   /\ Forall (fun label => overlayLabel label \/ textLabel label
                                           \/ "output" = label)
                             (overlays ++ texts ++ last)).
  { split.
    - apply (NoDup_app_families overlayLabel
               (fun label => textLabel label \/ "output" = label)); try assumption.
      intros label [-> | (k & ->)] [[Ht | (j & Ht)] | Hout]; discriminate.
    - apply Forall_app. split.
      + eapply Forall_impl; [| exact Ho2]. intros label Hl. left. exact Hl.
      + eapply Forall_impl; [| exact Hf1]. intros label Hl. right. exact Hl. }
  destruct Htail2 as [Hn2 Hf2].
  assert (Htail3 : NoDup (scales ++ overlays ++ texts ++ last)
                   /\ Forall (fun label => scaleLabel label \/ overlayLabel label
                                           \/ textLabel label \/ "output" = label)
                             (scales ++ overlays ++ texts ++ last)).
  { split.
    - apply (NoDup_app_families scaleLabel
               (fun label => overlayLabel label \/ textLabel label \/ "output" = label));
        try assumption.
      intros label (k & ->) [[Hv | (j & Ht)] | [[Ht | (j & Ht)] | Hout]]; try discriminate.
      injection Hv as Hv. exact (string_of_nat_not_word k "ideos" eq_refl Hv).
    - apply Forall_app. split.
      + eapply Forall_impl; [| exact Hs2]. intros label Hl. left. exact Hl.
      + eapply Forall_impl; [| exact Hf2]. intros label Hl. right. exact Hl. }
  destruct Htail3 as [Hn3 Hf3].
  constructor; [| exact Hn3].
  intros Hin. rewrite Forall_forall in Hf3.
  destruct (Hf3 "base" Hin) as [(k & Hk) | [[Hk | (k & Hk)] | [[Hk | (k & Hk)] | Hk]]];
    discriminate.
Qed.

End CompilerMore.

(** * Instances of the further properties *)

Ltac closed_comparison :=
  first [ reflexivity
        | let H := fresh in intro H; vm_compute in H; discriminate H ].

Lemma threeLayers_ids : NoDup (map id threeLayers).
Proof. repeat constructor; cbn; intuition discriminate. Defined.

Lemma threeLayers_zIndex : NoDup (map zIndex threeLayers).
Proof. repeat constructor; cbn; intuition discriminate. Defined.

Lemma threeLayers_visible : exists l, In l threeLayers /\ visible l = true.
Proof. exists firstVideo. split; [left; reflexivity | reflexivity]. Defined.


(** X5 at the three sample layers and the clock value 4000. *)
Lemma add_then_remove_example :
  (forall l, In l (State.layers threeLayerState) -> id l <> "video-" ++ string_of_Z 4000)
  /\ (forall l, In l (State.layers threeLayerState) -> id l <> "text-" ++ string_of_Z 4000)
  /\ State.layers (removeLayer (addVideoLayer 4000 threeLayerState)
                     ("video-" ++ string_of_Z 4000))
     = threeLayers
  /\ State.layers (removeLayer (addTextLayer 4000 threeLayerState)
                     ("text-" ++ string_of_Z 4000))
     = threeLayers.
Proof.
  assert (Hvideo : forall l, In l (State.layers threeLayerState) ->
                             id l <> "video-" ++ string_of_Z 4000).
  { intros l [<- | [<- | [<- | []]]]; closed_comparison. }
  assert (Htext : forall l, In l (State.layers threeLayerState) ->
                            id l <> "text-" ++ string_of_Z 4000).
  { intros l [<- | [<- | [<- | []]]]; closed_comparison. }
  split; [exact Hvideo |]. split; [exact Htext |].
  destruct (add_then_remove 4000 threeLayerState Hvideo Htext)
    as [[Hv _] [[Ht _] _]].
  split; [exact Hv | exact Ht].
Defined.

(** X8 at the three sample layers, raising and lowering the text layer. *)
Lemma moveLayer_permutes_zIndex_example :
  NoDup (map id threeLayers) /\ NoDup (map zIndex threeLayers)
  /\ Permutation (map zIndex threeLayers) (map zIndex (moveLayerUp "text-2000" threeLayers))
  /\ NoDup (map zIndex (moveLayerDown "text-2000" threeLayers)).
Proof.
  split; [exact threeLayers_ids |]. split; [exact threeLayers_zIndex |].
  destruct (moveLayer_permutes_zIndex "text-2000" threeLayers threeLayers_ids
              threeLayers_zIndex) as (Hup & _ & _ & Hdown).
  split; [exact Hup | exact Hdown].
Defined.

(** X9 at the three sample layers: the text layer has a layer above it. *)
Lemma moveLayer_exchanges_with_neighbour_example :
  NoDup (map id threeLayers)
  /\ findLayer "text-2000" threeLayers = Some secondText
  /\ exists nh,
       In nh threeLayers /\ (zIndex secondText < zIndex nh)%Z
       /\ findLayer "text-2000" (moveLayerUp "text-2000" threeLayers)
          = Some (withZIndex secondText (zIndex nh))
       /\ findLayer (id nh) (moveLayerUp "text-2000" threeLayers)
          = Some (withZIndex nh (zIndex secondText)).
Proof.
  split; [exact threeLayers_ids |]. split; [reflexivity |].
  destruct (moveLayer_exchanges_with_neighbour "text-2000" threeLayers secondText
              threeLayers_ids eq_refl) as [Hup _].
  destruct Hup as (nh & Hin & Hlt & _ & Hself & Hother & _).
  { exists thirdVideo. split; [right; right; left; reflexivity | reflexivity]. }
  exists nh. repeat split; assumption.
Defined.





(** X22 at the three sample layers with a template: two video inputs and
    the template. *)
Lemma commandChunks_reads_declared_inputs_example :
  (exists l, In l threeLayers /\ visible l = true)
  /\ inputCount (commandChunks printIntegral threeLayers (CanvasSize.mk 504 846)
                   (Some "template.png"))
     = 3%nat
  /\ streamsRead (commandChunks printIntegral threeLayers (CanvasSize.mk 504 846)
                    (Some "template.png"))
     = [0; 1; 2]%nat.
Proof.
  split; [exact threeLayers_visible |].
  destruct (commandChunks_reads_declared_inputs printIntegral threeLayers
              (CanvasSize.mk 504 846) (Some "template.png") threeLayers_visible)
    as (Hcount & Hstreams & _).
  split; [exact Hcount | exact Hstreams].
Defined.

(** X23 at the three sample layers held in two orders. *)
Lemma commandChunks_order_independent_example :
  Permutation threeLayers threeLayersRotated
  /\ NoDup (map zIndex (filter visible threeLayers))
  /\ commandChunks printIntegral threeLayers (CanvasSize.mk 504 846) None
     = commandChunks printIntegral threeLayersRotated (CanvasSize.mk 504 846) None.
Proof.
  assert (Hperm : Permutation threeLayers threeLayersRotated).
  { exact (Permutation_sym (Permutation_cons_append [firstVideo; secondText] thirdVideo)). }
  assert (Hzs : NoDup (map zIndex (filter visible threeLayers))).
  { exact threeLayers_zIndex. }
  split; [exact Hperm |]. split; [exact Hzs |].
  exact (commandChunks_order_independent printIntegral threeLayers threeLayersRotated
           (CanvasSize.mk 504 846) None Hperm Hzs).
Defined.

(** X24 at the three sample layers without a template. *)
Lemma commandChunks_labels_distinct_example :
  (exists l, In l threeLayers /\ visible l = true)
  /\ producedLabels (commandChunks printIntegral threeLayers (CanvasSize.mk 504 846) None)
     = ["base"; "v0"; "v1"; "tmp0"; "videos"; "final"]
  /\ NoDup (producedLabels
              (commandChunks printIntegral threeLayers (CanvasSize.mk 504 846) None)).
Proof.
  split; [exact threeLayers_visible |].
  destruct (commandChunks_labels_distinct printIntegral threeLayers
              (CanvasSize.mk 504 846) None threeLayers_visible) as (Hlabels & Hdistinct).
  split; [exact Hlabels | exact Hdistinct].
Defined.

(** X25 at the three sample layers, of which one is a visible text layer. *)
Lemma commandChunks_wellChained_iff_example :
  (exists l, In l threeLayers /\ visible l = true)
  /\ wellChained (commandChunks printIntegral threeLayers (CanvasSize.mk 504 846) None)
     = true.
Proof.
  split; [exact threeLayers_visible |].
  apply (proj2 (commandChunks_wellChained_iff printIntegral threeLayers
                  (CanvasSize.mk 504 846) None threeLayers_visible)).
  exists (BaseLayer.mk "text-2000" "Text 1" 50 50 true 2),
         (TextLayer.mk "Sample Text" 48 "Arial" "#ffffff" false false).
  split; [right; left; reflexivity | reflexivity].
Defined.

(** X26 at the canvas of 504 by 846 shown at half its size: the pointer at
    the client position (226, 271.5) is the point (252, 423). *)
Lemma getMousePosition_maps_rect_onto_canvas_example :
  0 < ClientRect.width halfSizeRect
  /\ Point.x (getMousePosition (Some halfSizeRect) (CanvasSize.mk 504 846) 100 60) == 0
  /\ 0 <= Point.x (getMousePosition (Some halfSizeRect) (CanvasSize.mk 504 846) 226 (543 # 2))
     <= 504.
Proof.
  split; [reflexivity |].
  destruct (getMousePosition_maps_rect_onto_canvas halfSizeRect (CanvasSize.mk 504 846)
              226 (543 # 2) eq_refl eq_refl)
    as ((Hx0 & _) & _ & Hx & _).
  - split; intro Hc; discriminate Hc.
  - split; [exact Hx0 |]. apply Hx. split; closed_comparison.
Defined.

(** * Double-precision arithmetic *)

(** ** Powers of two *)

Lemma two_power_pos (e : Z) : 0 < 2 ^ e.
Proof. apply Qpower_0_lt. reflexivity. Qed.

Lemma two_power_succ (e : Z) : 2 ^ (e + 1) == 2 * 2 ^ e.
Proof. rewrite Qpower_plus by discriminate. change (2 ^ 1) with 2. ring. Qed.

Lemma two_power_pred (e : Z) : 2 ^ (e - 1) == 2 ^ e * (1 # 2).
Proof.
  replace e with ((e - 1) + 1)%Z at 2 by lia. rewrite two_power_succ. field.
Qed.

Lemma two_power_le (n m : Z) : (n <= m)%Z -> 2 ^ n <= 2 ^ m.
Proof. intros H. apply Qpower_le_compat_l; [exact H | discriminate]. Qed.

Lemma two_power_Z (n : Z) : (0 <= n)%Z -> inject_Z (2 ^ n) == 2 ^ n.
Proof. intros H. rewrite Zpower_Qpower by exact H. reflexivity. Qed.

Lemma Qlog2_spec (q : Q) : 0 < q -> 2 ^ Qlog2 q <= q /\ q < 2 ^ (Qlog2 q + 1).
Proof.
  intros Hq. unfold Qlog2.
  destruct q as [n d]. cbn [Qnum Qden].
  assert (Hn : (0 < n)%Z).
  { unfold Qlt in Hq. cbn in Hq. lia. }
  set (a := Z.log2 n). set (b := Z.log2 (Zpos d)).
  destruct (Z.log2_spec n Hn) as [Ha1 Ha2]. fold a in Ha1, Ha2.
  destruct (Z.log2_spec (Zpos d) (Pos2Z.is_pos d)) as [Hb1 Hb2]. fold b in Hb1, Hb2.
  assert (Ha0 : (0 <= a)%Z) by apply Z.log2_nonneg.
  assert (Hb0 : (0 <= b)%Z) by apply Z.log2_nonneg.
  assert (Hqa1 : 2 ^ a <= inject_Z n).
  { rewrite <- two_power_Z by exact Ha0. rewrite <- Zle_Qle. exact Ha1. }
  assert (Hqa2 : inject_Z n < 2 ^ (a + 1)).
  { rewrite <- two_power_Z by lia. rewrite <- Zlt_Qlt. rewrite <- Z.add_1_r in Ha2. exact Ha2. }
  assert (Hqb1 : 2 ^ b <= inject_Z (Zpos d)).
  { rewrite <- two_power_Z by exact Hb0. rewrite <- Zle_Qle. exact Hb1. }
  assert (Hqb2 : inject_Z (Zpos d) < 2 ^ (b + 1)).
  { rewrite <- two_power_Z by lia. rewrite <- Zlt_Qlt. rewrite <- Z.add_1_r in Hb2. exact Hb2. }
  assert (Hnd : n # d == inject_Z n / inject_Z (Zpos d)) by apply Qmake_Qdiv.
  assert (Hdpos : 0 < inject_Z (Zpos d)) by reflexivity.
  assert (Hmul : (n # d) * inject_Z (Zpos d) == inject_Z n).
  { rewrite Hnd. field. discriminate. }
  pose proof (two_power_pos (a - b)) as Hp.
  assert (Hsplit : 2 ^ a == 2 ^ (a - b) * 2 ^ b).
  { rewrite <- Qpower_plus by discriminate. replace (a - b + b)%Z with a by lia. reflexivity. }
  destruct (Qle_bool (2 ^ (a - b)) (n # d)) eqn:Etest.
  - apply Qle_bool_iff in Etest. split; [exact Etest |].
    rewrite two_power_succ.
    (* q * d = n < 2^(a+1) = 2 * 2^(a-b) * 2^b <= 2 * 2^(a-b) * d *)
    apply Qnot_le_lt. intros Hge.
    assert (H1 : 2 * 2 ^ (a - b) * inject_Z (Zpos d) <= (n # d) * inject_Z (Zpos d)).
    { apply Qmult_le_compat_r; [exact Hge | lra]. }
    rewrite Hmul in H1.
    assert (H2 : 2 * 2 ^ (a - b) * 2 ^ b <= 2 * 2 ^ (a - b) * inject_Z (Zpos d)).
    { apply Qmult_le_l; [lra | exact Hqb1]. }
    rewrite two_power_succ in Hqa2. rewrite Hsplit in Hqa2. lra.
  - assert (Hlt : n # d < 2 ^ (a - b)).
    { apply Qnot_le_lt. intros Hle. apply Qle_bool_iff in Hle. congruence. }
    replace (a - b - 1 + 1)%Z with (a - b)%Z by lia. split; [| exact Hlt].
    rewrite two_power_pred.
    apply Qnot_lt_le. intros Hsmall.
    assert (H1 : (n # d) * inject_Z (Zpos d) < 2 ^ (a - b) * (1 # 2) * inject_Z (Zpos d)).
    { apply Qmult_lt_compat_r; [exact Hdpos | exact Hsmall]. }
    rewrite Hmul in H1.
    rewrite two_power_succ in Hqb2.
    assert (H2 : 2 ^ (a - b) * (1 # 2) * inject_Z (Zpos d)
                 <= 2 ^ (a - b) * (1 # 2) * (2 * 2 ^ b)).
    { apply Qmult_le_l; [lra | lra]. }
    rewrite Hsplit in Hqa1. lra.
Qed.

Lemma two_power_unique (q : Q) (e e' : Z) :
  2 ^ e <= q -> q < 2 ^ (e + 1) -> 2 ^ e' <= q -> q < 2 ^ (e' + 1) -> e = e'.
Proof.
  intros H1 H2 H3 H4.
  destruct (Z.lt_trichotomy e e') as [Hlt | [Heq | Hgt]]; [| exact Heq |].
  - pose proof (two_power_le (e + 1) e' ltac:(lia)). lra.
  - pose proof (two_power_le (e' + 1) e ltac:(lia)). lra.
Qed.

Lemma Qlog2_comp (q q' : Q) : 0 < q -> q == q' -> Qlog2 q = Qlog2 q'.
Proof.
  intros Hq Heq.
  assert (Hq' : 0 < q') by (rewrite <- Heq; exact Hq).
  destruct (Qlog2_spec q Hq) as [H1 H2]. destruct (Qlog2_spec q' Hq') as [H3 H4].
  assert (H3' : 2 ^ Qlog2 q' <= q) by (rewrite Heq; exact H3).
  assert (H4' : q < 2 ^ (Qlog2 q' + 1)) by (rewrite Heq; exact H4).
  eapply two_power_unique; eassumption.
Qed.

Lemma roundHalfEven_comp (q q' : Q) : q == q' -> roundHalfEven q = roundHalfEven q'.
Proof.
  intros Heq. unfold roundHalfEven.
  assert (Hf : Qfloor q = Qfloor q') by (apply Qfloor_comp; exact Heq).
  rewrite <- Hf.
  assert (Hc : Qcompare (q - inject_Z (Qfloor q)) (1 # 2)
               = Qcompare (q' - inject_Z (Qfloor q)) (1 # 2)).
  { apply Qcompare_comp; [| reflexivity]. apply Qplus_comp; [exact Heq | reflexivity]. }
  rewrite Hc. reflexivity.
Qed.

Lemma roundHalfEven_error (q : Q) : Qabs (inject_Z (roundHalfEven q) - q) <= 1 # 2.
Proof.
  unfold roundHalfEven.
  pose proof (Qfloor_le q) as Hlo. pose proof (Qlt_floor q) as Hhi.
  rewrite inject_Z_plus in Hhi. change (inject_Z 1) with 1 in Hhi.
  apply Qabs_Qle_condition.
  destruct (Qcompare (q - inject_Z (Qfloor q)) (1 # 2)) eqn:Ec.
  - apply Qeq_alt in Ec.
    destruct (Z.even (Qfloor q)); [| rewrite inject_Z_plus; change (inject_Z 1) with 1];
      remember (inject_Z (Qfloor q)) as f eqn:Ef; clear Ef; split; lra.
  - apply Qlt_alt in Ec.
    remember (inject_Z (Qfloor q)) as f eqn:Ef; clear Ef; split; lra.
  - apply Qgt_alt in Ec. rewrite inject_Z_plus. change (inject_Z 1) with 1.
    remember (inject_Z (Qfloor q)) as f eqn:Ef; clear Ef; split; lra.
Qed.

Lemma roundHalfEven_inject_Z (z : Z) : roundHalfEven (inject_Z z) = z.
Proof.
  unfold roundHalfEven. rewrite Qfloor_Z.
  assert (Hc : Qcompare (inject_Z z - inject_Z z) (1 # 2) = Lt).
  { apply (proj1 (Qlt_alt _ _)). generalize (inject_Z z). intros iz. lra. }
  rewrite Hc. reflexivity.
Qed.

Lemma roundHalfEven_integral (q : Q) (z : Z) : q == inject_Z z -> roundHalfEven q = z.
Proof. intros H. rewrite (roundHalfEven_comp _ _ H). apply roundHalfEven_inject_Z. Qed.

(** Rounding keeps the integer bounds of its argument. *)
Lemma roundHalfEven_le (q : Q) (z : Z) : q <= inject_Z z -> (roundHalfEven q <= z)%Z.
Proof.
  intros Hq. pose proof (roundHalfEven_error q) as He.
  apply Qabs_Qle_condition in He as [He1 He2].
  destruct (Z_le_gt_dec (roundHalfEven q) z) as [Hle | Hgt]; [exact Hle | exfalso].
  assert (Hz : (z + 1 <= roundHalfEven q)%Z) by lia.
  rewrite Zle_Qle, inject_Z_plus in Hz. change (inject_Z 1) with 1 in Hz.
  remember (inject_Z (roundHalfEven q)) as r eqn:Er; clear Er.
  remember (inject_Z z) as iz eqn:Eiz; clear Eiz. lra.
Qed.

Lemma roundHalfEven_ge (q : Q) (z : Z) : inject_Z z <= q -> (z <= roundHalfEven q)%Z.
Proof.
  intros Hq. pose proof (roundHalfEven_error q) as He.
  apply Qabs_Qle_condition in He as [He1 He2].
  destruct (Z_le_gt_dec z (roundHalfEven q)) as [Hle | Hgt]; [exact Hle | exfalso].
  assert (Hz : (roundHalfEven q + 1 <= z)%Z) by lia.
  rewrite Zle_Qle, inject_Z_plus in Hz. change (inject_Z 1) with 1 in Hz.
  remember (inject_Z (roundHalfEven q)) as r eqn:Er; clear Er.
  remember (inject_Z z) as iz eqn:Eiz; clear Eiz. lra.
Qed.

Lemma Qabs_pos_nonzero (q : Q) : ~ q == 0 -> 0 < Qabs q.
Proof.
  intros Hne. pose proof (Qabs_nonneg q) as Hn.
  pose proof (Qle_Qabs q) as H1. pose proof (Qle_Qabs (- q)) as H2.
  rewrite Qabs_opp in H2.
  apply Qnot_le_lt. intros Hle. apply Hne. lra.
Qed.

Lemma binary64_comp (q q' : Q) : q == q' -> binary64 q = binary64 q'.
Proof.
  intros Heq. unfold binary64.
  destruct (Qeq_bool q 0) eqn:E0.
  - apply Qeq_bool_iff in E0.
    assert (E0' : Qeq_bool q' 0 = true) by (apply Qeq_bool_iff; rewrite <- Heq; exact E0).
    rewrite E0'. reflexivity.
  - assert (Hne : ~ q == 0) by (apply Qeq_bool_neq; exact E0).
    assert (E0' : Qeq_bool q' 0 = false).
    { destruct (Qeq_bool q' 0) eqn:E; [| reflexivity].
      apply Qeq_bool_iff in E. rewrite <- Heq in E. contradiction. }
    rewrite E0'.
    assert (Hpos : 0 < Qabs q).
    { apply Qabs_pos_nonzero. exact Hne. }
    assert (Hlog : Qlog2 (Qabs q) = Qlog2 (Qabs q')).
    { apply Qlog2_comp; [exact Hpos | rewrite Heq; reflexivity]. }
    rewrite <- Hlog.
    set (e := Z.max (Qlog2 (Qabs q) - 52) (-1074)).
    assert (Hr : roundHalfEven (q / 2 ^ e) = roundHalfEven (q' / 2 ^ e)).
    { apply roundHalfEven_comp. rewrite Heq. reflexivity. }
    rewrite Hr. reflexivity.
Qed.

Lemma unitRoundoff_power : 2 ^ (-53) == unitRoundoff.
Proof. reflexivity. Qed.

Lemma halfMinSubnormal_pos : 0 < halfMinSubnormal.
Proof. apply two_power_pos. Qed.

Lemma binary64_zero (q : Q) : q == 0 -> binary64 q = 0.
Proof.
  intros Hq. unfold binary64.
  assert (E : Qeq_bool q 0 = true) by (apply Qeq_bool_iff; exact Hq).
  rewrite E. reflexivity.
Qed.

Lemma binary64_nonzero (q : Q) :
  ~ q == 0 ->
  binary64 q
  = inject_Z (roundHalfEven (q / 2 ^ Z.max (Qlog2 (Qabs q) - 52) (-1074)))
    * 2 ^ Z.max (Qlog2 (Qabs q) - 52) (-1074).
Proof.
  intros Hq. unfold binary64.
  assert (E : Qeq_bool q 0 = false).
  { destruct (Qeq_bool q 0) eqn:E; [| reflexivity]. apply Qeq_bool_iff in E. contradiction. }
  rewrite E. reflexivity.
Qed.

(** The error of a rounding is at most half a unit in the last place. *)
Lemma binary64_error_ulp (q : Q) :
  ~ q == 0 ->
  Qabs (binary64 q - q) <= 2 ^ Z.max (Qlog2 (Qabs q) - 52) (-1074) * (1 # 2).
Proof.
  intros Hq. rewrite (binary64_nonzero q Hq).
  set (e := Z.max (Qlog2 (Qabs q) - 52) (-1074)).
  pose proof (two_power_pos e) as Hp.
  pose proof (roundHalfEven_error (q / 2 ^ e)) as Herr.
  remember (inject_Z (roundHalfEven (q / 2 ^ e))) as r eqn:Er. clear Er.
  assert (Hq' : q == (q / 2 ^ e) * 2 ^ e) by (field; lra).
  remember (q / 2 ^ e) as s eqn:Es. clear Es.
  remember (2 ^ e) as p eqn:Ep. clear Ep.
  apply Qabs_Qle_condition in Herr as [H1 H2].
  assert (H3 : (r - s) * p <= (1 # 2) * p) by (apply Qmult_le_compat_r; lra).
  assert (H4 : - (1 # 2) * p <= (r - s) * p) by (apply Qmult_le_compat_r; lra).
  apply Qabs_Qle_condition. split; lra.
Qed.

Lemma binary64_relative (q : Q) :
  minNormal <= Qabs q -> Qabs (binary64 q - q) <= Qabs q * unitRoundoff.
Proof.
  intros Hnormal.
  assert (Hpos : 0 < Qabs q).
  { pose proof (two_power_pos (-1022)). unfold minNormal in Hnormal. lra. }
  assert (Hne : ~ q == 0).
  { intros H0. rewrite H0 in Hpos. discriminate Hpos. }
  destruct (Qlog2_spec (Qabs q) Hpos) as [Hlo Hhi].
  set (L := Qlog2 (Qabs q)) in *.
  assert (HL : (-1022 <= L)%Z).
  { destruct (Z_le_gt_dec (-1022) L) as [H | H]; [exact H | exfalso].
    pose proof (two_power_le (L + 1) (-1022) ltac:(lia)). unfold minNormal in Hnormal. lra. }
  pose proof (binary64_error_ulp q Hne) as Herr. fold L in Herr.
  replace (Z.max (L - 52) (-1074)) with (L - 52)%Z in Herr by lia.
  assert (Hsplit : 2 ^ (L - 52) * (1 # 2) == 2 ^ L * unitRoundoff).
  { replace (L - 52)%Z with (L + (-52))%Z by lia. rewrite Qpower_plus by discriminate.
    change (2 ^ (-52)) with (1 # 4503599627370496). unfold unitRoundoff.
    remember (2 ^ L) as p. 
    assert (Hc : (1 # 4503599627370496) * (1 # 2) == 1 # 9007199254740992) by reflexivity.
    rewrite <- Qmult_assoc, Hc. reflexivity. }
  rewrite Hsplit in Herr.
  assert (Hmul : 2 ^ L * unitRoundoff <= Qabs q * unitRoundoff).
  { apply Qmult_le_compat_r; [exact Hlo | discriminate]. }
  lra.
Qed.

Lemma binary64_error (q : Q) :
  Qabs (binary64 q - q) <= Qabs q * unitRoundoff + halfMinSubnormal.
Proof.
  pose proof halfMinSubnormal_pos as Heta.
  destruct (Qeq_dec q 0) as [H0 | Hne].
  - rewrite (binary64_zero q H0).
    assert (Ha : Qabs (0 - q) == 0) by (rewrite H0; reflexivity).
    assert (Hb : Qabs q == 0) by (rewrite H0; reflexivity).
    rewrite Ha, Hb. lra.
  - assert (Hpos : 0 < Qabs q) by (apply Qabs_pos_nonzero; exact Hne).
    destruct (Qlog2_spec (Qabs q) Hpos) as [Hlo Hhi].
    pose proof (binary64_error_ulp q Hne) as Herr.
    set (L := Qlog2 (Qabs q)) in *.
    destruct (Z_le_gt_dec (-1022) L) as [HL | HL].
    + apply Qle_trans with (Qabs q * unitRoundoff); [| lra].
      apply binary64_relative. unfold minNormal.
      pose proof (two_power_le (-1022) L HL). lra.
    + replace (Z.max (L - 52) (-1074)) with (-1074)%Z in Herr by lia.
      assert (Hhalf : 2 ^ (-1074) * (1 # 2) == halfMinSubnormal).
      { unfold halfMinSubnormal. replace (-1075)%Z with (-1074 - 1)%Z by lia.
        rewrite two_power_pred. reflexivity. }
      rewrite Hhalf in Herr.
      assert (Hnn : 0 <= Qabs q * unitRoundoff).
      { apply Qmult_le_0_compat; [lra | discriminate]. }
      lra.
Qed.

Lemma Qlog2_inject_Z (n : Z) : (0 < n)%Z -> Qlog2 (inject_Z n) = Z.log2 n.
Proof.
  intros Hn.
  assert (Hq : 0 < inject_Z n) by (change 0 with (inject_Z 0); rewrite <- Zlt_Qlt; exact Hn).
  destruct (Qlog2_spec (inject_Z n) Hq) as [H1 H2].
  destruct (Z.log2_spec n Hn) as [H3 H4].
  pose proof (Z.log2_nonneg n) as H0.
  eapply two_power_unique; [exact H1 | exact H2 | |].
  - rewrite <- two_power_Z by exact H0. rewrite <- Zle_Qle. exact H3.
  - rewrite <- two_power_Z by lia. rewrite <- Zlt_Qlt. rewrite <- Z.add_1_r in H4. exact H4.
Qed.

(** The integers up to [2^53] in magnitude are doubles. *)
Lemma binary64_inject_Z (n : Z) :
  (Z.abs n <= 2 ^ 53)%Z -> binary64 (inject_Z n) == inject_Z n.
Proof.
  intros Hn.
  destruct (Z.eq_dec n 0) as [-> | Hne]; [reflexivity |].
  destruct (Z.eq_dec (Z.abs n) (2 ^ 53)) as [Htop | Hlow].
  { assert (Hcases : n = (2 ^ 53)%Z \/ n = (- 2 ^ 53)%Z) by lia.
    destruct Hcases as [-> | ->]; vm_compute; reflexivity. }
  assert (Hq0 : ~ inject_Z n == 0).
  { intros H. apply Hne. apply (proj1 (inject_Z_injective n 0)). exact H. }
  rewrite (binary64_nonzero _ Hq0).
  assert (Habs : Qabs (inject_Z n) = inject_Z (Z.abs n)) by reflexivity.
  rewrite Habs, (Qlog2_inject_Z (Z.abs n)) by lia.
  assert (HL : (0 <= Z.log2 (Z.abs n) < 53)%Z).
  { split; [apply Z.log2_nonneg |]. apply Z.log2_lt_pow2; lia. }
  set (L := Z.log2 (Z.abs n)) in *.
  replace (Z.max (L - 52) (-1074)) with (L - 52)%Z by lia.
  assert (Hscaled : inject_Z n / 2 ^ (L - 52) == inject_Z (n * 2 ^ (52 - L))).
  { rewrite inject_Z_mult, two_power_Z by lia.
    replace (L - 52)%Z with (- (52 - L))%Z by lia. rewrite Qpower_opp.
    pose proof (two_power_pos (52 - L)). field. lra. }
  rewrite (roundHalfEven_integral _ _ Hscaled).
  rewrite inject_Z_mult, two_power_Z by lia.
  replace (L - 52)%Z with (- (52 - L))%Z by lia. rewrite Qpower_opp.
  pose proof (two_power_pos (52 - L)). field. lra.
Qed.

Lemma binary64_nonneg (q : Q) : 0 <= q -> 0 <= binary64 q.
Proof.
  intros Hq. destruct (Qeq_dec q 0) as [H0 | Hne].
  - rewrite (binary64_zero q H0). apply Qle_refl.
  - rewrite (binary64_nonzero q Hne).
    set (e := Z.max (Qlog2 (Qabs q) - 52) (-1074)).
    pose proof (two_power_pos e) as Hp.
    apply Qmult_le_0_compat; [| lra].
    change 0 with (inject_Z 0). rewrite <- Zle_Qle. apply roundHalfEven_ge.
    change (inject_Z 0) with 0. apply Qle_shift_div_l; [exact Hp | lra].
Qed.

Lemma binary64_nonpos (q : Q) : q <= 0 -> binary64 q <= 0.
Proof.
  intros Hq. destruct (Qeq_dec q 0) as [H0 | Hne].
  - rewrite (binary64_zero q H0). apply Qle_refl.
  - rewrite (binary64_nonzero q Hne).
    set (e := Z.max (Qlog2 (Qabs q) - 52) (-1074)).
    pose proof (two_power_pos e) as Hp.
    assert (Hr : (roundHalfEven (q / 2 ^ e) <= 0)%Z).
    { apply roundHalfEven_le. change (inject_Z 0) with 0.
      apply Qle_shift_div_r; [exact Hp | lra]. }
    rewrite Zle_Qle in Hr. change (inject_Z 0) with 0 in Hr.
    remember (inject_Z (roundHalfEven (q / 2 ^ e))) as r eqn:Er. clear Er.
    assert (H : r * 2 ^ e <= 0 * 2 ^ e) by (apply Qmult_le_compat_r; lra).
    lra.
Qed.

(** [Math.round] of a value less than a half away from an integer. *)
Lemma Math_round_near (x : Q) (k : Z) :
  inject_Z k - (1 # 2) <= x -> x < inject_Z k + (1 # 2) -> Math_round x = k.
Proof.
  intros Hlo Hhi. unfold Math_round.
  pose proof (Qfloor_le (x + (1 # 2))) as H1. pose proof (Qlt_floor (x + (1 # 2))) as H2.
  rewrite inject_Z_plus in H2. change (inject_Z 1) with 1 in H2.
  assert (Ha : (Qfloor (x + (1 # 2)) < k + 1)%Z).
  { rewrite Zlt_Qlt, inject_Z_plus. change (inject_Z 1) with 1.
    remember (inject_Z (Qfloor (x + (1 # 2)))) as f eqn:Ef. clear Ef.
    remember (inject_Z k) as ik eqn:Ek. clear Ek. lra. }
  assert (Hb : (k < Qfloor (x + (1 # 2)) + 1)%Z).
  { rewrite Zlt_Qlt, inject_Z_plus. change (inject_Z 1) with 1.
    remember (inject_Z (Qfloor (x + (1 # 2)))) as f eqn:Ef. clear Ef.
    remember (inject_Z k) as ik eqn:Ek. clear Ek. lra. }
  lia.
Qed.

(** ** Rounding keeps the order *)

Lemma roundHalfEven_monotone (p q : Q) : p <= q -> (roundHalfEven p <= roundHalfEven q)%Z.
Proof.
  intros Hle.
  destruct (Z_le_gt_dec (roundHalfEven p) (roundHalfEven q)) as [H | Hgt]; [exact H | exfalso].
  pose proof (roundHalfEven_error p) as Hp. pose proof (roundHalfEven_error q) as Hq.
  apply Qabs_Qle_condition in Hp as [Hp1 Hp2].
  apply Qabs_Qle_condition in Hq as [Hq1 Hq2].
  assert (Hz : (roundHalfEven q + 1 <= roundHalfEven p)%Z) by lia.
  rewrite Zle_Qle, inject_Z_plus in Hz. change (inject_Z 1) with 1 in Hz.
  assert (Heq : p == q).
  { remember (inject_Z (roundHalfEven p)) as rp. remember (inject_Z (roundHalfEven q)) as rq.
    lra. }
  pose proof (roundHalfEven_comp p q Heq). lia.
Qed.

Lemma Qlog2_monotone (p q : Q) : 0 < p -> p <= q -> (Qlog2 p <= Qlog2 q)%Z.
Proof.
  intros Hp Hle.
  assert (Hq : 0 < q) by lra.
  destruct (Qlog2_spec p Hp) as [H1 _]. destruct (Qlog2_spec q Hq) as [_ H2].
  destruct (Z_le_gt_dec (Qlog2 p) (Qlog2 q)) as [H | Hgt]; [exact H | exfalso].
  pose proof (two_power_le (Qlog2 q + 1) (Qlog2 p) ltac:(lia)). lra.
Qed.

(** Rounding keeps the order of non-negative numbers. *)
Lemma binary64_monotone (p q : Q) : 0 <= p -> p <= q -> binary64 p <= binary64 q.
Proof.
  intros Hp Hle.
  destruct (Qeq_dec p 0) as [Hp0 | Hpn].
  { rewrite (binary64_zero p Hp0). apply binary64_nonneg. lra. }
  assert (Hppos : 0 < p).
  { apply Qnot_le_lt. intros H. apply Hpn. lra. }
  assert (Hqpos : 0 < q) by lra.
  assert (Hqn : ~ q == 0) by (intros H; rewrite H in Hqpos; discriminate Hqpos).
  rewrite (binary64_nonzero p Hpn), (binary64_nonzero q Hqn).
  assert (Hap : Qlog2 (Qabs p) = Qlog2 p)
    by (apply Qlog2_comp; [rewrite Qabs_pos; lra | apply Qabs_pos; lra]).
  assert (Haq : Qlog2 (Qabs q) = Qlog2 q)
    by (apply Qlog2_comp; [rewrite Qabs_pos; lra | apply Qabs_pos; lra]).
  rewrite Hap, Haq.
  pose proof (Qlog2_monotone p q Hppos Hle) as Hlog.
  destruct (Qlog2_spec p Hppos) as [Hp1 Hp2]. destruct (Qlog2_spec q Hqpos) as [Hq1 Hq2].
  set (Lp := Qlog2 p) in *. set (Lq := Qlog2 q) in *.
  set (ep := Z.max (Lp - 52) (-1074)). set (eq := Z.max (Lq - 52) (-1074)).
  pose proof (two_power_pos ep) as Hpep. pose proof (two_power_pos eq) as Hpeq.
  destruct (Z.eq_dec ep eq) as [Hsame | Hdiff].
  - rewrite <- Hsame. apply Qmult_le_compat_r; [| lra].
    rewrite <- Zle_Qle. apply roundHalfEven_monotone.
    apply Qmult_le_compat_r; [exact Hle |]. apply Qlt_le_weak, Qinv_lt_0_compat, Hpep.
  - assert (Hlt : (ep < eq)%Z) by lia.
    assert (Heq : eq = (Lq - 52)%Z) by lia.
    (* the upper number rounds to at least 2^Lq *)
    assert (Hhigh : 2 ^ Lq <= inject_Z (roundHalfEven (q / 2 ^ eq)) * 2 ^ eq).
    { assert (Hscaled : inject_Z (2 ^ 52) <= q / 2 ^ eq).
      { apply Qle_shift_div_l; [exact Hpeq |].
        rewrite two_power_Z by lia. rewrite <- Qpower_plus by discriminate.
        replace (52 + eq)%Z with Lq by lia. exact Hq1. }
      apply roundHalfEven_ge in Hscaled. rewrite Zle_Qle in Hscaled.
      rewrite two_power_Z in Hscaled by lia.
      assert (Hm : 2 ^ 52 * 2 ^ eq <= inject_Z (roundHalfEven (q / 2 ^ eq)) * 2 ^ eq)
        by (apply Qmult_le_compat_r; [exact Hscaled | lra]).
      rewrite <- Qpower_plus in Hm by discriminate.
      replace (52 + eq)%Z with Lq in Hm by lia. exact Hm. }
    (* the lower number rounds to at most 2^(Lp+1) *)
    assert (Hlow : inject_Z (roundHalfEven (p / 2 ^ ep)) * 2 ^ ep <= 2 ^ (Lp + 1)).
    { destruct (Z_le_gt_dec 0 (Lp + 1 - ep)) as [Hn | Hn].
      - assert (Hscaled : p / 2 ^ ep <= inject_Z (2 ^ (Lp + 1 - ep))).
        { apply Qle_shift_div_r; [exact Hpep |].
          rewrite two_power_Z by lia. rewrite <- Qpower_plus by discriminate.
          replace (Lp + 1 - ep + ep)%Z with (Lp + 1)%Z by lia. lra. }
        apply roundHalfEven_le in Hscaled. rewrite Zle_Qle in Hscaled.
        rewrite two_power_Z in Hscaled by lia.
        assert (Hm : inject_Z (roundHalfEven (p / 2 ^ ep)) * 2 ^ ep
                     <= 2 ^ (Lp + 1 - ep) * 2 ^ ep)
          by (apply Qmult_le_compat_r; [exact Hscaled | lra]).
        rewrite <- Qpower_plus in Hm by discriminate.
        replace (Lp + 1 - ep + ep)%Z with (Lp + 1)%Z in Hm by lia. exact Hm.
      - assert (Hsmall : p / 2 ^ ep < 1 # 2).
        { apply Qlt_shift_div_r; [exact Hpep |].
          pose proof (two_power_le (Lp + 1) (ep - 1) ltac:(lia)) as Hpow.
          rewrite two_power_pred in Hpow. lra. }
        pose proof (roundHalfEven_error (p / 2 ^ ep)) as Herr.
        apply Qabs_Qle_condition in Herr as [_ Herr].
        assert (Hr : (roundHalfEven (p / 2 ^ ep) < 1)%Z).
        { rewrite Zlt_Qlt. change (inject_Z 1) with 1.
          remember (inject_Z (roundHalfEven (p / 2 ^ ep))) as r. lra. }
        assert (Hr0 : inject_Z (roundHalfEven (p / 2 ^ ep)) <= 0).
        { change 0 with (inject_Z 0). rewrite <- Zle_Qle. lia. }
        pose proof (two_power_pos (Lp + 1)) as Hpos.
        remember (inject_Z (roundHalfEven (p / 2 ^ ep))) as r.
        assert (Hm : r * 2 ^ ep <= 0 * 2 ^ ep) by (apply Qmult_le_compat_r; lra).
        lra. }
    pose proof (two_power_le (Lp + 1) Lq ltac:(lia)). lra.
Qed.

(** ** The rounding error in the form linear arithmetic uses *)

Lemma halfMinSubnormal_small : halfMinSubnormal <= 1 # 1152921504606846976.
Proof.
  unfold halfMinSubnormal. apply Qle_trans with (2 ^ (-60)).
  - apply two_power_le. lia.
  - apply Qle_refl.
Qed.

Lemma minNormal_small : minNormal <= 1 # 1152921504606846976.
Proof.
  unfold minNormal. apply Qle_trans with (2 ^ (-60)).
  - apply two_power_le. lia.
  - apply Qle_refl.
Qed.

Lemma minNormal_pos : 0 < minNormal.
Proof. apply two_power_pos. Qed.

(** Every rounding: a relative error of at most [unitRoundoff] plus half
    the least subnormal. *)
Lemma binary64_within (q bound : Q) :
  Qabs q <= bound ->
  q - (bound * unitRoundoff + halfMinSubnormal) <= binary64 q
  /\ binary64 q <= q + (bound * unitRoundoff + halfMinSubnormal).
Proof.
  intros Hb. pose proof (binary64_error q) as He.
  apply Qabs_Qle_condition in He as [H1 H2].
  assert (Hm : Qabs q * unitRoundoff <= bound * unitRoundoff).
  { apply Qmult_le_compat_r; [exact Hb | discriminate]. }
  split; lra.
Qed.

(** A rounding away from the subnormal range: a relative error of at most
    [unitRoundoff]. *)
Lemma binary64_within_pos (q : Q) :
  minNormal <= q ->
  q * (1 - unitRoundoff) <= binary64 q /\ binary64 q <= q * (1 + unitRoundoff).
Proof.
  intros Hq. pose proof minNormal_pos as Hm.
  assert (Habs : Qabs q == q) by (apply Qabs_pos; lra).
  assert (Hn : minNormal <= Qabs q) by (rewrite Habs; exact Hq).
  pose proof (binary64_relative q Hn) as He. rewrite Habs in He.
  apply Qabs_Qle_condition in He as [H1 H2]. split; lra.
Qed.

Lemma binary64_within_neg (q : Q) :
  q <= - minNormal ->
  q * (1 + unitRoundoff) <= binary64 q /\ binary64 q <= q * (1 - unitRoundoff).
Proof.
  intros Hq. pose proof minNormal_pos as Hm.
  assert (Habs : Qabs q == - q) by (apply Qabs_neg; lra).
  assert (Hn : minNormal <= Qabs q) by (rewrite Habs; lra).
  pose proof (binary64_relative q Hn) as He. rewrite Habs in He.
  apply Qabs_Qle_condition in He as [H1 H2]. split; lra.
Qed.

(** * Properties of the engine in double precision *)

(** ** The snap utility *)

Lemma snapValue_double_on (g v : Q) :
  Double.snapValue true g v = binary64 (inject_Z (Math_round (binary64 (v / g))) * g).
Proof. reflexivity. Qed.

Lemma quotient_bound (g v bound : Q) :
  1 <= g -> Qabs v <= bound -> Qabs (v / g) <= bound.
Proof.
  intros Hg Hv.
  assert (Hb : 0 <= bound) by (pose proof (Qabs_nonneg v); lra).
  apply Qabs_Qle_condition in Hv as [H1 H2].
  assert (Hbg : bound <= bound * g).
  { assert (H : 0 <= bound * (g - 1)) by (apply Qmult_le_0_compat; lra). lra. }
  apply Qabs_Qle_condition. split.
  - apply Qle_shift_div_l; [lra |]. lra.
  - apply Qle_shift_div_r; [lra |]. lra.
Qed.

(** The number of grid cells a value of magnitude up to [2^50] snaps to is
    at most [2^50] in magnitude. *)
Lemma snap_cells_bound (g v : Q) :
  1 <= g -> Qabs v <= 2 ^ 50 ->
  (Z.abs (Math_round (binary64 (v / g))) <= 2 ^ 50)%Z.
Proof.
  intros Hg Hv. change (2 ^ 50) with 1125899906842624 in Hv.
  pose proof (quotient_bound g v _ Hg Hv) as Ha.
  destruct (binary64_within (v / g) _ Ha) as [Hx1 Hx2].
  apply Qabs_Qle_condition in Ha as [Ha1 Ha2].
  destruct (Math_round_bounds (binary64 (v / g))) as [Hk1 Hk2].
  pose proof halfMinSubnormal_small as Heta. pose proof halfMinSubnormal_pos as Heta0.
  unfold unitRoundoff in Hx1, Hx2.
  remember (binary64 (v / g)) as x eqn:Ex. clear Ex.
  remember (v / g) as a eqn:Ea. clear Ea.
  remember halfMinSubnormal as eta eqn:Eeta. clear Eeta.
  assert (Hup : inject_Z (Math_round x) < inject_Z (2 ^ 50 + 1)).
  { change (inject_Z (2 ^ 50 + 1)) with 1125899906842625. lra. }
  assert (Hdown : inject_Z (- 2 ^ 50 - 1) < inject_Z (Math_round x)).
  { change (inject_Z (- 2 ^ 50 - 1)) with (-1125899906842625 # 1). lra. }
  rewrite <- Zlt_Qlt in Hup, Hdown. lia.
Qed.

(** Snapping the double nearest to [k * g] counts [k] cells again. *)
Lemma snap_multiple_stable (g : Q) (k : Z) :
  1 <= g -> (Z.abs k <= 2 ^ 50)%Z ->
  Math_round (binary64 (binary64 (inject_Z k * g) / g)) = k.
Proof.
  intros Hg Hk.
  pose proof minNormal_small as Hmin. pose proof minNormal_pos as Hmin0.
  destruct (Z.lt_trichotomy k 0) as [Hneg | [-> | Hpos]].
  - (* k < 0 *)
    assert (HK : inject_Z k <= -1).
    { change (-1) with (inject_Z (-1)). rewrite <- Zle_Qle. lia. }
    assert (HK' : - 1125899906842624 <= inject_Z k).
    { change (- 1125899906842624) with (inject_Z (- 2 ^ 50)). rewrite <- Zle_Qle. lia. }
    remember (inject_Z k) as K eqn:EK.
    assert (Hy : K * g <= - minNormal).
    { assert (H : 0 <= (- K - 1) * (g - 1) + (g - 1) + (- K - 1)).
      { assert (H0 : 0 <= (- K - 1) * (g - 1)) by (apply Qmult_le_0_compat; lra). lra. }
      lra. }
    destruct (binary64_within_neg (K * g) Hy) as [Hs1 Hs2].
    remember (binary64 (K * g)) as s eqn:Es.
    assert (Hz1 : K * (1 + unitRoundoff) <= s / g).
    { apply Qle_shift_div_l; [lra |]. lra. }
    assert (Hz2 : s / g <= K * (1 - unitRoundoff)).
    { apply Qle_shift_div_r; [lra |]. lra. }
    unfold unitRoundoff in Hz1, Hz2.
    assert (Hz : s / g <= - minNormal) by lra.
    destruct (binary64_within_neg (s / g) Hz) as [Hx1 Hx2].
    unfold unitRoundoff in Hx1, Hx2.
    remember (binary64 (s / g)) as x eqn:Ex. remember (s / g) as z eqn:Ez.
    apply Math_round_near; rewrite <- EK; lra.
  - (* k = 0 *)
    assert (H0 : binary64 (inject_Z 0 * g) = 0) by (apply binary64_zero; ring).
    rewrite H0.
    assert (H1 : binary64 (0 / g) = 0).
    { apply binary64_zero. unfold Qdiv. ring. }
    rewrite H1. reflexivity.
  - (* 0 < k *)
    assert (HK : 1 <= inject_Z k).
    { change 1 with (inject_Z 1). rewrite <- Zle_Qle. lia. }
    assert (HK' : inject_Z k <= 1125899906842624).
    { change 1125899906842624 with (inject_Z (2 ^ 50)). rewrite <- Zle_Qle. lia. }
    remember (inject_Z k) as K eqn:EK.
    assert (Hy : minNormal <= K * g).
    { assert (H : 0 <= (K - 1) * (g - 1)) by (apply Qmult_le_0_compat; lra). lra. }
    destruct (binary64_within_pos (K * g) Hy) as [Hs1 Hs2].
    remember (binary64 (K * g)) as s eqn:Es.
    assert (Hz1 : K * (1 - unitRoundoff) <= s / g).
    { apply Qle_shift_div_l; [lra |]. lra. }
    assert (Hz2 : s / g <= K * (1 + unitRoundoff)).
    { apply Qle_shift_div_r; [lra |]. lra. }
    unfold unitRoundoff in Hz1, Hz2.
    assert (Hz : minNormal <= s / g) by lra.
    destruct (binary64_within_pos (s / g) Hz) as [Hx1 Hx2].
    unfold unitRoundoff in Hx1, Hx2.
    remember (binary64 (s / g)) as x eqn:Ex. remember (s / g) as z eqn:Ez.
    apply Math_round_near; rewrite <- EK; lra.
Qed.

(** On a grid of [n] pixels the snapped multiple stays among the integers
    that are doubles. *)
Lemma snap_integral_cells (n : Z) (v : Q) :
  (1 <= n)%Z -> Qabs v <= 2 ^ 50 ->
  (Z.abs (Math_round (binary64 (v / inject_Z n)) * n) <= 2 ^ 53)%Z.
Proof.
  intros Hn Hv. change (2 ^ 50) with 1125899906842624 in Hv.
  assert (Hg : 1 <= inject_Z n).
  { change 1 with (inject_Z 1). rewrite <- Zle_Qle. exact Hn. }
  pose proof (Qabs_Qle_condition v 1125899906842624) as [Hvb _].
  destruct (Hvb Hv) as [Hv1 Hv2]. clear Hvb.
  pose proof halfMinSubnormal_small as Heta. pose proof halfMinSubnormal_pos as Heta0.
  set (g := inject_Z n) in *. set (a := v / g).
  assert (Hag : a * g == v) by (unfold a; field; lra).
  destruct (Math_round_bounds (binary64 a)) as [Hk1 Hk2].
  set (k := Math_round (binary64 a)) in *.
  destruct (Z.lt_trichotomy k 0) as [Hneg | [Hzero | Hpos]].
  - (* k < 0 *)
    assert (HK : inject_Z k <= -1).
    { change (-1) with (inject_Z (-1)). rewrite <- Zle_Qle. lia. }
    assert (Ha : a < 0).
    { apply Qnot_le_lt. intros Hge. pose proof (binary64_nonneg a Hge). lra. }
    assert (Habs : Qabs a <= - a) by (rewrite Qabs_neg; lra).
    destruct (binary64_within a (- a) Habs) as [Hx1 _].
    unfold unitRoundoff in Hx1.
    remember (binary64 a) as x eqn:Ex. remember (inject_Z k) as K eqn:EK.
    remember halfMinSubnormal as eta eqn:Eeta.
    assert (Hlow : (a * (1 + (1 # 9007199254740992)) - eta - (1 # 2)) * g <= K * g).
    { apply Qmult_le_compat_r; lra. }
    assert (Hquarter : 0 <= (- a - (1 # 4)) * g) by (apply Qmult_le_0_compat; lra).
    assert (Heg : 0 <= eta * g) by (apply Qmult_le_0_compat; lra).
    assert (Heg' : 0 <= ((1 # 1152921504606846976) - eta) * g)
      by (apply Qmult_le_0_compat; lra).
    assert (Hbig : inject_Z (- 2 ^ 53) <= inject_Z (k * n)).
    { rewrite inject_Z_mult. fold g. rewrite <- EK.
      change (inject_Z (- 2 ^ 53)) with (- 9007199254740992). lra. }
    rewrite <- Zle_Qle in Hbig. nia.
  - rewrite Hzero. cbn. lia.
  - (* 0 < k *)
    assert (HK : 1 <= inject_Z k).
    { change 1 with (inject_Z 1). rewrite <- Zle_Qle. lia. }
    assert (Ha : 0 < a).
    { apply Qnot_le_lt. intros Hle. pose proof (binary64_nonpos a Hle). lra. }
    assert (Habs : Qabs a <= a) by (rewrite Qabs_pos; lra).
    destruct (binary64_within a a Habs) as [_ Hx2].
    unfold unitRoundoff in Hx2.
    remember (binary64 a) as x eqn:Ex. remember (inject_Z k) as K eqn:EK.
    remember halfMinSubnormal as eta eqn:Eeta.
    assert (Hup : K * g <= (a * (1 + (1 # 9007199254740992)) + eta + (1 # 2)) * g).
    { apply Qmult_le_compat_r; lra. }
    assert (Hquarter : 0 <= (a - (1 # 4)) * g) by (apply Qmult_le_0_compat; lra).
    assert (Heg : 0 <= eta * g) by (apply Qmult_le_0_compat; lra).
    assert (Heg' : 0 <= ((1 # 1152921504606846976) - eta) * g)
      by (apply Qmult_le_0_compat; lra).
    assert (Hbig : inject_Z (k * n) <= inject_Z (2 ^ 53)).
    { rewrite inject_Z_mult. fold g. rewrite <- EK.
      change (inject_Z (2 ^ 53)) with 9007199254740992. lra. }
    rewrite <- Zle_Qle in Hbig. nia.
Qed.

(** C8 (amended): for a grid size of at least 1 and a value of magnitude
    at most 2^50, snapping is idempotent; with snapping on the result is
    the double nearest to a whole number of grid cells, which is that
    multiple of the grid size itself when the grid size is an integer; with
    snapping off the value passes through unchanged. *)
Theorem snapValue_idempotent (snapToGrid : bool) (gridSize v : Q)
    (Hgrid : 1 <= gridSize) (Hv : Qabs v <= 2 ^ 50) :
  Double.snapValue snapToGrid gridSize (Double.snapValue snapToGrid gridSize v)
  = Double.snapValue snapToGrid gridSize v
  /\ (snapToGrid = true ->
      exists k : Z,
        Double.snapValue snapToGrid gridSize v = binary64 (inject_Z k * gridSize)
        /\ forall n : Z,
             gridSize == inject_Z n ->
             Double.snapValue snapToGrid gridSize v == inject_Z k * gridSize)
  /\ (snapToGrid = false -> Double.snapValue snapToGrid gridSize v = v).
Proof.
  destruct snapToGrid.
  - pose proof (snap_cells_bound gridSize v Hgrid Hv) as Hcells.
    split; [| split].
    + rewrite (snapValue_double_on gridSize v).
      set (k := Math_round (binary64 (v / gridSize))) in *.
      rewrite snapValue_double_on.
      rewrite (snap_multiple_stable gridSize k Hgrid Hcells). reflexivity.
    + intros _. exists (Math_round (binary64 (v / gridSize))).
      split; [reflexivity |].
      intros n Hn. rewrite snapValue_double_on.
      assert (Hn1 : (1 <= n)%Z).
      { rewrite Zle_Qle. change (inject_Z 1) with 1. rewrite <- Hn. exact Hgrid. }
      assert (Hquot : Math_round (binary64 (v / gridSize))
                      = Math_round (binary64 (v / inject_Z n))).
      { f_equal. apply binary64_comp. rewrite Hn. reflexivity. }
      rewrite Hquot.
      pose proof (snap_integral_cells n v Hn1 Hv) as Hsafe.
      set (k := Math_round (binary64 (v / inject_Z n))) in *.
      assert (Hprod : inject_Z k * gridSize == inject_Z (k * n)).
      { rewrite inject_Z_mult, Hn. reflexivity. }
      rewrite (binary64_comp _ _ Hprod), Hprod.
      apply binary64_inject_Z. exact Hsafe.
    + discriminate.
  - split; [| split]; try reflexivity. discriminate.
Qed.

(** C8: on the grid of 7.3 the value 100 snaps to the double nearest to
    14 * 7.3, which is no whole multiple of the grid size: the remainder of
    its division by the grid size is not zero.  And beyond 2^54 snapping is
    not idempotent, even on the grid of 5: 21217654523413308 snaps to
    21217654523413312, which snaps to 21217654523413316. *)
Lemma snapValue_fractional_grid_remainder :
  (1 <= fractionalGrid /\ Qabs 100 <= 2 ^ 50
   /\ Double.snapValue true fractionalGrid 100 = binary64 (inject_Z 14 * fractionalGrid)
   /\ ~ exists k : Z,
          Double.snapValue true fractionalGrid 100 == inject_Z k * fractionalGrid)
  /\ (Double.snapValue true 5 21217654523413308 == 21217654523413312
      /\ Double.snapValue true 5 (Double.snapValue true 5 21217654523413308)
         == 21217654523413316
      /\ ~ Double.snapValue true 5 (Double.snapValue true 5 21217654523413308)
           == Double.snapValue true 5 21217654523413308).
Proof.
  split;
    [| split; [vm_compute; reflexivity |];
       split; [vm_compute; reflexivity |];
       intro Hc; vm_compute in Hc; discriminate Hc].
  split; [intro Hc; vm_compute in Hc; discriminate Hc |].
  split; [intro Hc; vm_compute in Hc; discriminate Hc |].
  split; [vm_compute; reflexivity |].
  intros [k Hk].
  assert (Hlow : inject_Z 13 * fractionalGrid
                 < Double.snapValue true fractionalGrid 100) by (vm_compute; reflexivity).
  assert (Hhigh : Double.snapValue true fractionalGrid 100
                  < inject_Z 15 * fractionalGrid) by (vm_compute; reflexivity).
  assert (Hgrid : 0 < fractionalGrid) by (vm_compute; reflexivity).
  rewrite Hk in Hlow, Hhigh.
  assert (H13 : inject_Z 13 < inject_Z k).
  { apply Qnot_le_lt. intros Hle.
    assert (H : inject_Z k * fractionalGrid <= inject_Z 13 * fractionalGrid)
      by (apply Qmult_le_compat_r; [exact Hle | apply Qlt_le_weak, Hgrid]).
    apply (Qlt_not_le _ _ Hlow H). }
  assert (H15 : inject_Z k < inject_Z 15).
  { apply Qnot_le_lt. intros Hle.
    assert (H : inject_Z 15 * fractionalGrid <= inject_Z k * fractionalGrid)
      by (apply Qmult_le_compat_r; [exact Hle | apply Qlt_le_weak, Hgrid]).
    apply (Qlt_not_le _ _ Hhigh H). }
  rewrite <- Zlt_Qlt in H13, H15.
  assert (Ek : k = 14%Z) by lia. subst k.
  vm_compute in Hk. discriminate Hk.
Qed.

(** C8 at the value 164 on a grid of 20, an integer: the result is 160. *)
Lemma snapValue_idempotent_example :
  1 <= 20 /\ Qabs 164 <= 2 ^ 50
  /\ Double.snapValue true 20 (Double.snapValue true 20 164) = Double.snapValue true 20 164
  /\ (exists k : Z, Double.snapValue true 20 164 == inject_Z k * 20)
  /\ Double.snapValue true 20 164 == 160
  /\ Double.snapValue false 20 164 = 164.
Proof.
  assert (Hgrid : 1 <= 20) by (intro Hc; discriminate Hc).
  assert (Hv : Qabs 164 <= 2 ^ 50) by (intro Hc; vm_compute in Hc; discriminate Hc).
  split; [exact Hgrid |]. split; [exact Hv |].
  destruct (snapValue_idempotent true 20 164 Hgrid Hv) as (Hidem & Hmult & _).
  split; [exact Hidem |].
  destruct (Hmult eq_refl) as (k & _ & Hint).
  split; [exists k; apply (Hint 20%Z); reflexivity |].
  split; [reflexivity |].
  apply (snapValue_idempotent false 20 164 Hgrid Hv). reflexivity.
Defined.

(** ** Duplicating a layer *)

(** An id made of a type name and a clock value tells both. *)
Lemma layer_id_injective (ty ty' : LayerType) (t t' : Z) :
  typeName ty ++ "-" ++ string_of_Z t = typeName ty' ++ "-" ++ string_of_Z t' ->
  ty = ty' /\ t = t'.
Proof.
  assert (Hinj : string_of_Z t = string_of_Z t' -> t = t').
  { intros Heq.
    assert (Hparse : Some (Z.to_int t) = Some (Z.to_int t'))
      by (rewrite <- !string_of_Z_parses, Heq; reflexivity).
    injection Hparse as Hint. apply DecimalZ.to_int_inj in Hint. exact Hint. }
  destruct ty, ty'; cbn [typeName append]; intros Heq; try discriminate Heq.
  - injection Heq as Heq. split; [reflexivity | apply Hinj, Heq].
  - injection Heq as Heq. split; [reflexivity | apply Hinj, Heq].
Qed.

(** C6 (amended): duplicating an existing layer appends exactly one layer
    and leaves the others as they were; the new layer is named after the
    original with the suffix " (copy)", sits at the original position plus
    30, capped at the canvas size minus 100 and then snapped, keeps the
    fields of its variant, and has a zIndex above every prior layer.  Its id
    is the type name and the clock value: it differs from every id of the
    collection that was made from another type or another clock value. *)
Theorem duplicateLayer_appends_copy (now : Z) (st : State.t) (ident : string)
    (layer : Layer)
    (Hfind : findLayer ident (State.layers st) = Some layer) :
  exists newLayer,
    State.layers (Double.duplicateLayer now st ident)
    = (State.layers st ++ [newLayer])%list
    /\ State.selectedLayer (Double.duplicateLayer now st ident) = Some (id newLayer)
    /\ id newLayer = typeName (type layer) ++ "-" ++ string_of_Z now
    /\ (forall l ty t,
          In l (State.layers st) ->
          id l = typeName ty ++ "-" ++ string_of_Z t ->
          ty <> type layer \/ t <> now ->
          id l <> id newLayer)
    /\ BaseLayer.name (base newLayer) = BaseLayer.name (base layer) ++ " (copy)"
    /\ BaseLayer.x (base newLayer)
       = Double.snap st (Qmin (fadd (BaseLayer.x (base layer)) 30)
                              (fsub (inject_Z (CanvasSize.width (State.canvasSize st))) 100))
    /\ BaseLayer.y (base newLayer)
       = Double.snap st (Qmin (fadd (BaseLayer.y (base layer)) 30)
                              (fsub (inject_Z (CanvasSize.height (State.canvasSize st))) 100))
    /\ visible newLayer = visible layer
    /\ match layer, newLayer with
       | Video _ v, Video _ v' => v' = v
       | Text _ t, Text _ t' => t' = t
       | _, _ => False
       end
    /\ (forall l, In l (State.layers st) -> (zIndex l < zIndex newLayer)%Z).
Proof.
  unfold Double.duplicateLayer. rewrite Hfind.
  eexists. split; [reflexivity |].
  split; [reflexivity |].
  assert (Hids : forall newId l ty t,
             newId = typeName (type layer) ++ "-" ++ string_of_Z now ->
             id l = typeName ty ++ "-" ++ string_of_Z t ->
             ty <> type layer \/ t <> now -> id l <> newId).
  { intros newId l ty t -> Hmade Hother Hsame. rewrite Hmade in Hsame.
    apply layer_id_injective in Hsame as [Hty Ht].
    destruct Hother as [Hother | Hother]; contradiction. }
  assert (Hz : forall l, In l (State.layers st) ->
                 (zIndex l < Math_max_list (map zIndex (State.layers st)) + 1)%Z).
  { intros l Hl.
    assert (Hle : (zIndex l <= Math_max_list (map zIndex (State.layers st)))%Z)
      by (apply Math_max_list_ge, in_map, Hl).
    lia. }
  destruct layer as [b v | b t]; cbn [id base type zIndex visible BaseLayer.id
    BaseLayer.name BaseLayer.x BaseLayer.y BaseLayer.visible BaseLayer.zIndex] in *.
  - repeat split; try reflexivity.
    + intros l ty clock _ Hmade Hother. apply (Hids _ l ty clock eq_refl Hmade Hother).
    + exact Hz.
  - repeat split; try reflexivity.
    + intros l ty clock _ Hmade Hother. apply (Hids _ l ty clock eq_refl Hmade Hother).
    + exact Hz.
Qed.

(** C6: duplicating the layer [video-1000] when the clock reads 1000 gives
    the copy the id [video-1000] again; and the copy of a layer 340 wide at
    x = 164 is put at x = 194, so that it ends at 534, beyond the canvas of
    504: the position is capped for a size of 100, not for the layer's. *)
Lemma duplicate_reuses_id :
  (exists newLayer,
      State.layers (Double.duplicateLayer 1000 oneVideoState "video-1000")
      = (State.layers oneVideoState ++ [newLayer])%list
      /\ In firstVideo (State.layers oneVideoState)
      /\ id newLayer = id firstVideo)
  /\ (exists b v,
        State.layers (Double.duplicateLayer 4000 rightVideoState "video-1000")
        = (State.layers rightVideoState ++ [Video b v])%list
        /\ BaseLayer.x b == 194
        /\ inject_Z (CanvasSize.width (State.canvasSize rightVideoState))
           < BaseLayer.x b + VideoLayer.width v).
Proof.
  split.
  - eexists. split; [vm_compute; reflexivity |].
    split; [left; reflexivity | reflexivity].
  - do 2 eexists. split; [vm_compute; reflexivity |].
    split; vm_compute; reflexivity.
Qed.

(** C6 at the duplication of [firstVideo] when the clock reads 4000. *)
Lemma duplicateLayer_example :
  findLayer "video-1000" (State.layers oneVideoState) = Some firstVideo
  /\ exists newLayer,
       State.layers (Double.duplicateLayer 4000 oneVideoState "video-1000")
       = [firstVideo; newLayer]
       /\ id newLayer = "video-4000"
       /\ id firstVideo <> id newLayer
       /\ BaseLayer.name (base newLayer) = "Video 1 (copy)"
       /\ BaseLayer.x (base newLayer) == 50 /\ BaseLayer.y (base newLayer) == 50
       /\ zIndex newLayer = 2%Z.
Proof.
  split; [reflexivity |].
  destruct (duplicateLayer_appends_copy 4000 oneVideoState "video-1000" firstVideo eq_refl)
    as (newLayer & Hlayers & _ & Hid & Hfresh & Hname & Hx & Hy & _ & _ & _).
  exists newLayer. split; [exact Hlayers |]. split; [exact Hid |].
  split.
  { apply (Hfresh firstVideo video 1000%Z); [left; reflexivity | reflexivity |].
    right. discriminate. }
  split; [exact Hname |].
  rewrite Hx, Hy. split; [reflexivity |]. split; [reflexivity |].
  vm_compute in Hlayers. injection Hlayers as <-. reflexivity.
Defined.

(** ** Resizing *)




(** The width or height a handle drives is floored at [MIN_SIZE]; without
    aspect lock the other one is floored too or stays as the gesture found
    it. *)
Lemma resizeGeometry_floor_double (handle : ResizeHandle) (locked : bool) (ratio : Q)
    (start : Rect.t) (dx dy : Q) :
  let g := Double.resizeGeometry handle locked ratio start dx dy in
  (if drivesHeight handle then MIN_SIZE <= Rect.height g else MIN_SIZE <= Rect.width g)
  /\ (locked = false ->
      MIN_SIZE <= Rect.width start -> MIN_SIZE <= Rect.height start ->
      MIN_SIZE <= Rect.width g /\ MIN_SIZE <= Rect.height g).
Proof.
  destruct handle; cbn [Double.resizeGeometry drivesHeight Rect.width Rect.height];
    (split; [apply Q.le_max_l |]);
    intros ->; intros Hw Hh; split;
    first [apply Q.le_max_l | assumption].
Qed.

Section DoubleGeometry.

Variable numberToString : Q -> string.
Variable ctx : option (string -> string -> Q).

Local Abbreviation roundedMove := (Double.handleCanvasMouseMove numberToString ctx).

(** A resize pointer-move stores the snapped geometry in the layer. *)
Lemma resize_move_result_double (st : State.t) (px py : Q) (ident : string)
    (handle : ResizeHandle) (b : BaseLayer.t) (v : VideoLayer.t) :
  resizing st ident handle ->
  findLayer ident (State.layers st) = Some (Video b v) ->
  let g := Double.resizeGeometry handle (VideoLayer.aspectLocked v)
             (VideoLayer.aspectRatio v) (State.layerStart st)
             (fsub px (Point.x (State.dragStart st)))
             (fsub py (Point.y (State.dragStart st))) in
  findLayer ident (State.layers (roundedMove st px py))
  = Some (Video
            (BaseLayer.mk (BaseLayer.id b) (BaseLayer.name b)
               (Double.snap st (Double.constrain (CanvasSize.width (State.canvasSize st))
                                  (Rect.width g) (Rect.x g)))
               (Double.snap st (Double.constrain (CanvasSize.height (State.canvasSize st))
                                  (Rect.height g) (Rect.y g)))
               (BaseLayer.visible b) (BaseLayer.zIndex b))
            (VideoLayer.mk (Double.snap st (Rect.width g)) (Double.snap st (Rect.height g))
               (VideoLayer.aspectLocked v) (VideoLayer.aspectRatio v))).
Proof.
  intros (Hrid & Hne & Hhandle) Hfind g.
  unfold Double.handleCanvasMouseMove. rewrite Hrid, Hhandle.
  assert (Htruthy : truthy (Some ident) = true).
  { cbn [truthy]. apply String.eqb_neq in Hne. rewrite Hne. reflexivity. }
  rewrite Htruthy, Hfind. cbn [State.setLayers State.layers].
  rewrite findLayer_updateLayer, Hfind. cbn [option_map]. f_equal.
  subst g. destruct v as [w0 h0 locked ratio]. destruct locked; reflexivity.
Qed.

(** C3 (amended): a resize pointer-move with snapping off leaves the
    dimension its handle drives (height for n and s, width for the other
    six) at or above MIN_SIZE; with aspect lock off and a gesture that
    started from a width and height of at least MIN_SIZE, both the width
    and the height stay at or above MIN_SIZE. *)
Theorem resize_move_min_size (st : State.t) (px py : Q) (ident : string)
    (handle : ResizeHandle) (b : BaseLayer.t) (v : VideoLayer.t)
    (Hres : resizing st ident handle)
    (Hfind : findLayer ident (State.layers st) = Some (Video b v))
    (Hsnap : State.snapToGrid st = false) :
  exists b' v',
    findLayer ident (State.layers (roundedMove st px py)) = Some (Video b' v')
    /\ (if drivesHeight handle then MIN_SIZE <= VideoLayer.height v'
        else MIN_SIZE <= VideoLayer.width v')
    /\ (VideoLayer.aspectLocked v = false ->
        MIN_SIZE <= Rect.width (State.layerStart st) ->
        MIN_SIZE <= Rect.height (State.layerStart st) ->
        MIN_SIZE <= VideoLayer.width v' /\ MIN_SIZE <= VideoLayer.height v').
Proof.
  do 2 eexists.
  split; [apply (resize_move_result_double st px py ident handle b v Hres Hfind) |].
  cbn [VideoLayer.width VideoLayer.height]. unfold Double.snap, Double.snapValue.
  rewrite Hsnap. cbn [negb]. apply resizeGeometry_floor_double.
Qed.


End DoubleGeometry.

(** ** Inputs on which the statements of the specification fail, in double
    precision *)

(** C3: a resize under aspect lock at ratio 2 that drives the width to the
    floor of 50 derives a height of 25; and with snapping on a grid of 40 a
    width floored at 50 is stored as 40. *)
Lemma size_falls_below_min_size :
  (resizing wideResizeState "video-1000" h_e
   /\ exists b v,
        findLayer "video-1000"
          (State.layers (Double.handleCanvasMouseMove printIntegral None
                           wideResizeState 60 45))
        = Some (Video b v)
        /\ VideoLayer.width v == 50 /\ VideoLayer.height v == 25
        /\ VideoLayer.height v < MIN_SIZE)
  /\ (resizing coarseSnapState "video-1000" h_e
      /\ exists b v,
           findLayer "video-1000"
             (State.layers (Double.handleCanvasMouseMove printIntegral None
                              coarseSnapState 40 190))
           = Some (Video b v)
           /\ VideoLayer.width v == 40
           /\ VideoLayer.width v < MIN_SIZE).
Proof.
  split; split.
  - by_computation.
  - do 2 eexists. split; [vm_compute; reflexivity |].
    split; [reflexivity |]. split; reflexivity.
  - by_computation.
  - do 2 eexists. split; [vm_compute; reflexivity |]. split; reflexivity.
Qed.


(** ** Instances of the amended statements *)

(** C3 at the resize of [firstVideo], whose lock is off, by its east handle
    with snapping off: the pointer is taken 300 to the left, the width stops
    at 50 and the height stays 340. *)
Lemma resize_move_min_size_example :
  resizing plainResizeState "video-1000" h_e
  /\ findLayer "video-1000" (State.layers plainResizeState) = Some firstVideo
  /\ State.snapToGrid plainResizeState = false
  /\ exists b' v',
       findLayer "video-1000"
         (State.layers (Double.handleCanvasMouseMove printIntegral None
                          plainResizeState 60 190))
       = Some (Video b' v')
       /\ MIN_SIZE <= VideoLayer.width v' /\ MIN_SIZE <= VideoLayer.height v'.
Proof.
  assert (Hres : resizing plainResizeState "video-1000" h_e).
  { by_computation. }
  split; [exact Hres |]. split; [reflexivity |]. split; [reflexivity |].
  destruct (resize_move_min_size printIntegral None plainResizeState 60 190 "video-1000"
              h_e _ _ Hres eq_refl eq_refl) as (b' & v' & Hafter & _ & Hboth).
  exists b', v'. split; [exact Hafter |].
  apply Hboth; [reflexivity | |]; intro Hc; discriminate Hc.
Defined.


(** ** Snapping to the nearest grid line *)

(** No integer is nearer than the one [Math.round] gives. *)
Lemma Math_round_nearest (x : Q) (j : Z) :
  Qabs (inject_Z (Math_round x) - x) <= Qabs (inject_Z j - x).
Proof.
  destruct (Math_round_bounds x) as [Hlo Hhi].
  pose proof (Qle_Qabs (inject_Z j - x)) as Ha1.
  pose proof (Qopp_le_Qabs (inject_Z j - x)) as Ha2.
  remember (Qabs (inject_Z j - x)) as dist eqn:Edist. clear Edist.
  apply Qabs_Qle_condition.
  destruct (Z.lt_total j (Math_round x)) as [Hlt | [Heq | Hgt]].
  - assert (Hj : inject_Z j <= inject_Z (Math_round x) - 1).
    { change 1 with (inject_Z 1). unfold Qminus. rewrite <- inject_Z_opp, <- inject_Z_plus.
      rewrite <- Zle_Qle. lia. }
    split; lra.
  - rewrite Heq in *. split; lra.
  - assert (Hj : inject_Z (Math_round x) + 1 <= inject_Z j).
    { change 1 with (inject_Z 1). rewrite <- inject_Z_plus. rewrite <- Zle_Qle. lia. }
    split; lra.
Qed.

Lemma Qabs_scaled (p g : Q) : 0 < g -> Qabs (p * g) == Qabs p * g.
Proof. intros Hg. rewrite Qabs_Qmult, (Qabs_pos g) by lra. reflexivity. Qed.

Lemma Qabs_difference (p q r : Q) : Qabs (p - r) <= Qabs (p - q) + Qabs (q - r).
Proof.
  assert (Heq : p - r == (p - q) + (q - r)) by ring.
  rewrite Heq. apply Qabs_triangle.
Qed.

Lemma Qabs_swap (p q : Q) : Qabs (p - q) == Qabs (q - p).
Proof.
  assert (Heq : p - q == - (q - p)) by ring.
  rewrite Heq. apply Qabs_opp.
Qed.

(** Snapping keeps the order of non-negative values. *)
Lemma snapValue_double_monotone (g v v' : Q) :
  0 < g -> 0 <= v -> v <= v' ->
  Double.snapValue true g v <= Double.snapValue true g v'.
Proof.
  intros Hg Hv Hle. rewrite !snapValue_double_on.
  assert (Hinv : 0 < / g) by (apply Qinv_lt_0_compat; exact Hg).
  assert (Hq0 : 0 <= v / g) by (unfold Qdiv; apply Qmult_le_0_compat; lra).
  assert (Hq : v / g <= v' / g) by (unfold Qdiv; apply Qmult_le_compat_r; lra).
  pose proof (binary64_monotone _ _ Hq0 Hq) as Hx.
  pose proof (binary64_nonneg _ Hq0) as Hx0.
  pose proof (Math_round_monotone _ _ Hx) as Hk.
  assert (Hk0 : (0 <= Math_round (binary64 (v / g)))%Z).
  { replace 0%Z with (Math_round 0) by reflexivity. apply Math_round_monotone. exact Hx0. }
  rewrite Zle_Qle in Hk, Hk0. change (inject_Z 0) with 0 in Hk0.
  apply binary64_monotone.
  - apply Qmult_le_0_compat; lra.
  - apply Qmult_le_compat_r; lra.
Qed.

(** X10: for a grid size of at least 1 and a value of magnitude at most
    2^50, snapping goes to the nearest grid line up to rounding: the snapped
    value is no farther from the value than any multiple of the grid size,
    and so no farther than half a grid cell, up to a rounding error of at
    most 2^-51 times the sum of the value's magnitude and the grid size; and
    snapping keeps the order of non-negative values. *)
Theorem snapValue_nearest_multiple (gridSize v : Q)
    (Hgrid : 1 <= gridSize) (Hv : Qabs v <= 2 ^ 50) :
  (forall j : Z,
      Qabs (Double.snapValue true gridSize v - v)
      <= Qabs (inject_Z j * gridSize - v)
         + 4 * unitRoundoff * (Qabs v + gridSize))
  /\ Qabs (Double.snapValue true gridSize v - v)
     <= gridSize / 2 + 4 * unitRoundoff * (Qabs v + gridSize)
  /\ (forall v',
        0 <= v -> v <= v' ->
        Double.snapValue true gridSize v <= Double.snapValue true gridSize v').
Proof.
  assert (Hnear : forall j : Z,
             Qabs (Double.snapValue true gridSize v - v)
             <= Qabs (inject_Z j * gridSize - v)
                + 4 * unitRoundoff * (Qabs v + gridSize)).
  { intros j. rewrite snapValue_double_on.
    set (g := gridSize) in *. set (a := v / g).
    assert (Hva : v == a * g) by (unfold a; field; lra).
    set (x := binary64 a). set (k := Math_round x).
    pose proof (binary64_error a) as He. fold x in He.
    pose proof (binary64_error (inject_Z k * g)) as Hs.
    pose proof (Math_round_nearest x j) as Hnearest. fold k in Hnearest.
    destruct (Math_round_bounds x) as [Hk1 Hk2]. fold k in Hk1, Hk2.
    assert (Hhalf : Qabs (inject_Z k - x) <= 1 # 2) by (apply Qabs_Qle_condition; split; lra).
    pose proof (Qabs_difference (inject_Z k) x a) as H1.
    pose proof (Qabs_difference (inject_Z j) a x) as H3.
    rewrite (Qabs_swap a x) in H3.
    pose proof (Qabs_difference (binary64 (inject_Z k * g)) (inject_Z k * g) v) as H6.
    assert (H8 : Qabs (inject_Z k * g)
                 <= Qabs (inject_Z k * g - v) + Qabs v).
    { assert (Heq : inject_Z k * g == (inject_Z k * g - v) + v) by ring.
      rewrite Heq at 1. apply Qabs_triangle. }
    assert (HK : Qabs (inject_Z k * g - v) == Qabs (inject_Z k - a) * g).
    { rewrite <- Qabs_scaled by lra. apply Qabs_wd. rewrite Hva. ring. }
    assert (HJ : Qabs (inject_Z j * g - v) == Qabs (inject_Z j - a) * g).
    { rewrite <- Qabs_scaled by lra. apply Qabs_wd. rewrite Hva. ring. }
    assert (HV : Qabs v == Qabs a * g).
    { rewrite <- Qabs_scaled by lra. apply Qabs_wd. exact Hva. }
    rewrite HK in H6, H8. rewrite HJ. rewrite HV in H8 |- *.
    pose proof halfMinSubnormal_small as Heta. pose proof halfMinSubnormal_pos as Heta0.
    pose proof (Qabs_nonneg a) as HA0.
    pose proof (Qabs_nonneg (inject_Z j - a)) as HJ0.
    unfold unitRoundoff in *.
    remember (Qabs (binary64 (inject_Z k * g) - v)) as total eqn:Etotal.
    remember (Qabs (binary64 (inject_Z k * g) - inject_Z k * g)) as es eqn:Ees.
    remember (Qabs (inject_Z k * g)) as absy eqn:Eabsy.
    remember (Qabs (inject_Z k - a)) as dA eqn:EdA.
    remember (Qabs (inject_Z j - a)) as dJ eqn:EdJ.
    remember (Qabs (inject_Z k - x)) as dK eqn:EdK.
    remember (Qabs (inject_Z j - x)) as dX eqn:EdX.
    remember (Qabs (x - a)) as e eqn:Ee.
    remember (Qabs a) as A eqn:EA.
    remember halfMinSubnormal as eta eqn:Eeta.
    assert (P1 : dA * g <= (dJ + 2 * e) * g) by (apply Qmult_le_compat_r; lra).
    assert (P2 : dA * g <= ((1 # 2) + e) * g) by (apply Qmult_le_compat_r; lra).
    assert (P3 : e * g <= (A * (1 # 9007199254740992) + eta) * g)
      by (apply Qmult_le_compat_r; lra).
    assert (P4 : 0 <= eta * (g - 1)) by (apply Qmult_le_0_compat; lra).
    assert (P5 : 0 <= ((1 # 1152921504606846976) - eta) * g)
      by (apply Qmult_le_0_compat; lra).
    assert (P6 : 0 <= A * g) by (apply Qmult_le_0_compat; lra).
    lra. }
  split; [exact Hnear |].
  split.
  - assert (Hexact : Qabs (snapValue true gridSize v - v) <= gridSize / 2)
      by (apply snapValue_distance; lra).
    rewrite snapValue_on in Hexact.
    pose proof (Hnear (Math_round (v / gridSize))) as Hbest. lra.
  - intros v' Hpos Hle. apply snapValue_double_monotone; [lra | exact Hpos | exact Hle].
Qed.

(** ** A click that does not move the pointer *)

(** The constraint to the canvas keeps a position that is within [slack] of
    a target inside the canvas within [slack] of it. *)
Lemma constrain_near (limit : Z) (size pos target slack bound : Q) :
  0 <= target ->
  Qabs (inject_Z limit - size) <= bound ->
  target + (bound * unitRoundoff + halfMinSubnormal) - slack <= inject_Z limit - size ->
  Qabs (pos - target) <= slack ->
  Qabs (Double.constrain limit size pos - target) <= slack.
Proof.
  intros Htarget Hbound Hroom Hpos. unfold Double.constrain, fsub.
  destruct (binary64_within (inject_Z limit - size) bound Hbound) as [Hm1 Hm2].
  apply Qabs_Qle_condition in Hpos as [Hp1 Hp2].
  remember (binary64 (inject_Z limit - size)) as m eqn:Em. clear Em.
  remember (inject_Z limit - size) as room eqn:Eroom. clear Eroom.
  remember (bound * unitRoundoff + halfMinSubnormal) as err eqn:Eerr. clear Eerr.
  apply Qabs_Qle_condition.
  destruct (Q.min_spec m pos) as [[Hlt Hmin] | [Hle Hmin]];
    destruct (Q.max_spec 0 (Qmin m pos)) as [[Hlt' Hmax] | [Hle' Hmax]];
    rewrite Hmax; try rewrite Hmin; try rewrite Hmin in Hlt'; try rewrite Hmin in Hle';
    split; lra.
Qed.

(** One axis of a pointer-down followed by a pointer-move at the same
    point: the grab offset is subtracted from the pointer again, and the
    result is constrained to the canvas. *)
Lemma click_axis (limit : Z) (p origin size : Q) :
  0 <= origin -> 0 <= size -> origin + size <= inject_Z limit ->
  origin <= p -> p <= fadd origin size ->
  Qabs (Double.constrain limit size (fsub p (fsub p origin)) - origin)
  <= unitRoundoff * (4 * inject_Z limit + 1).
Proof.
  intros Horigin Hsize Hfit Hlow Hhigh. unfold fadd, fsub in *.
  pose proof halfMinSubnormal_small as Heta. pose proof halfMinSubnormal_pos as Heta0.
  assert (Hedge : Qabs (origin + size) <= inject_Z limit)
    by (apply Qabs_Qle_condition; split; lra).
  destruct (binary64_within (origin + size) _ Hedge) as [_ Hfar].
  assert (Ha : Qabs (p - origin)
               <= inject_Z limit + (inject_Z limit * unitRoundoff + halfMinSubnormal))
    by (apply Qabs_Qle_condition; split; lra).
  destruct (binary64_within (p - origin) _ Ha) as [Hd1 Hd2].
  assert (Hc : Qabs (p - binary64 (p - origin))
               <= inject_Z limit
                  + ((inject_Z limit + (inject_Z limit * unitRoundoff + halfMinSubnormal))
                     * unitRoundoff + halfMinSubnormal))
    by (apply Qabs_Qle_condition; split; lra).
  destruct (binary64_within (p - binary64 (p - origin)) _ Hc) as [Hn1 Hn2].
  apply (constrain_near limit size _ origin _ (inject_Z limit)).
  - exact Horigin.
  - apply Qabs_Qle_condition. split; lra.
  - unfold unitRoundoff in *.
    remember halfMinSubnormal as eta eqn:Eeta. clear Eeta.
    remember (inject_Z limit) as C eqn:EC. clear EC. lra.
  - apply Qabs_Qle_condition. unfold unitRoundoff in *.
    remember halfMinSubnormal as eta eqn:Eeta. clear Eeta.
    remember (binary64 (p - binary64 (p - origin))) as n eqn:En. clear En.
    remember (binary64 (p - origin)) as d eqn:Ed. clear Ed.
    remember (binary64 (origin + size)) as far eqn:Efar. clear Efar.
    remember (inject_Z limit) as C eqn:EC. clear EC.
    split; lra.
Qed.

(** ** A grab of a handle that does not move the pointer *)

Lemma fadd_zero (q : Q) : fadd q 0 = binary64 q.
Proof. unfold fadd. apply binary64_comp. ring. Qed.

Lemma fsub_zero (q : Q) : fsub q 0 = binary64 q.
Proof. unfold fsub. apply binary64_comp. ring. Qed.

Lemma fsub_same (q : Q) : fsub q q = 0.
Proof. unfold fsub. apply binary64_zero. ring. Qed.

(** A size of at least [MIN_SIZE] that is rounded and floored again moves
    by one rounding at most. *)
Lemma floor_keeps_size (size : Q) :
  MIN_SIZE <= size ->
  MIN_SIZE <= Qmax MIN_SIZE (binary64 size)
  /\ Qabs (Qmax MIN_SIZE (binary64 size) - size) <= size * unitRoundoff.
Proof.
  intros Hsize. unfold MIN_SIZE in *.
  pose proof minNormal_small as Hmin.
  assert (Hnormal : minNormal <= size) by lra.
  destruct (binary64_within_pos size Hnormal) as [H1 H2].
  split; [apply Q.le_max_l |].
  apply Qabs_Qle_condition.
  destruct (Q.max_spec 50 (binary64 size)) as [[Hlt Hmax] | [Hle Hmax]];
    rewrite Hmax; unfold unitRoundoff in *; split; lra.
Qed.

(** The near edge computed back from the far edge, for a size that moved by
    at most five roundings. *)
Lemma near_edge_back (limit : Z) (origin size size' : Q) :
  0 <= origin -> MIN_SIZE <= size -> origin + size <= inject_Z limit ->
  Qabs (size' - size) <= size * (5 * unitRoundoff) ->
  Qabs (fsub (fadd origin size) size' - origin)
  <= unitRoundoff * (8 * inject_Z limit + 1).
Proof.
  intros Horigin Hsize Hfit Hmoved. unfold MIN_SIZE in *. unfold fadd, fsub.
  pose proof halfMinSubnormal_small as Heta. pose proof halfMinSubnormal_pos as Heta0.
  apply Qabs_Qle_condition in Hmoved as [Hs1 Hs2].
  assert (Hedge : Qabs (origin + size) <= inject_Z limit)
    by (apply Qabs_Qle_condition; split; lra).
  destruct (binary64_within (origin + size) _ Hedge) as [Hf1 Hf2].
  unfold unitRoundoff in *.
  assert (Hinner : Qabs (binary64 (origin + size) - size') <= 2 * inject_Z limit).
  { apply Qabs_Qle_condition.
    remember halfMinSubnormal as eta eqn:Eeta. clear Eeta.
    remember (binary64 (origin + size)) as far eqn:Efar. clear Efar.
    remember (inject_Z limit) as C eqn:EC. clear EC. split; lra. }
  destruct (binary64_within (binary64 (origin + size) - size') _ Hinner) as [Hn1 Hn2].
  unfold unitRoundoff in *.
  apply Qabs_Qle_condition.
  remember halfMinSubnormal as eta eqn:Eeta. clear Eeta.
  remember (binary64 (binary64 (origin + size) - size')) as near eqn:Enear. clear Enear.
  remember (binary64 (origin + size)) as far eqn:Efar. clear Efar.
  remember (inject_Z limit) as C eqn:EC. clear EC.
  split; lra.
Qed.

(** The constraint to the canvas, for a position within the tolerance of a
    layer inside the canvas whose size moved by at most five roundings. *)
Lemma constrain_resized (limit : Z) (origin size size' pos : Q) :
  0 <= origin -> MIN_SIZE <= size -> origin + size <= inject_Z limit ->
  Qabs (size' - size) <= size * (5 * unitRoundoff) ->
  Qabs (pos - origin) <= unitRoundoff * (8 * inject_Z limit + 1) ->
  Qabs (Double.constrain limit size' pos - origin)
  <= unitRoundoff * (8 * inject_Z limit + 1).
Proof.
  intros Horigin Hsize Hfit Hmoved Hpos. unfold MIN_SIZE in *.
  pose proof halfMinSubnormal_small as Heta. pose proof halfMinSubnormal_pos as Heta0.
  apply Qabs_Qle_condition in Hmoved as [Hs1 Hs2].
  unfold unitRoundoff in *.
  apply (constrain_near limit size' pos origin _ (inject_Z limit)).
  - exact Horigin.
  - apply Qabs_Qle_condition.
    remember (inject_Z limit) as C eqn:EC. clear EC. split; lra.
  - unfold unitRoundoff.
    remember halfMinSubnormal as eta eqn:Eeta. clear Eeta.
    remember (inject_Z limit) as C eqn:EC. clear EC. lra.
  - exact Hpos.
Qed.

(** Under aspect lock, the height derived from a width that moved by one
    rounding, and the width derived from such a height, move by at most
    five roundings. *)
Lemma derived_height_near (ratio width height width' : Q) :
  minNormal <= ratio -> ratio <= 2 ^ 1022 ->
  ratioWithinRounding ratio width height ->
  MIN_SIZE <= width' -> Qabs (width' - width) <= width * unitRoundoff ->
  Qabs (fdiv width' ratio - height) <= height * (5 * unitRoundoff).
Proof.
  intros Hr1 Hr2 [Hheight Hrel] Hfloor Hmoved. unfold MIN_SIZE in *. unfold fdiv.
  pose proof minNormal_pos as Hmin0.
  assert (Hone : minNormal * 2 ^ 1022 == 1).
  { unfold minNormal. rewrite <- Qpower_plus by discriminate. reflexivity. }
  assert (Hq : minNormal <= width' / ratio).
  { apply Qle_shift_div_l; [lra |].
    assert (H : minNormal * ratio <= minNormal * 2 ^ 1022)
      by (apply Qmult_le_l; [exact Hmin0 | exact Hr2]).
    lra. }
  destruct (binary64_within_pos (width' / ratio) Hq) as [Hh1 Hh2].
  apply Qabs_Qle_condition in Hrel as [Hrel1 Hrel2].
  apply Qabs_Qle_condition in Hmoved as [Hm1 Hm2].
  unfold unitRoundoff in *.
  assert (Hwh : width == (width / height) * height) by (field; lra).
  assert (Hlow : (ratio - 2 * (1 # 9007199254740992) * ratio) * height <= width).
  { assert (H : (ratio - 2 * (1 # 9007199254740992) * ratio) * height
                <= (width / height) * height)
      by (apply Qmult_le_compat_r; lra).
    lra. }
  assert (Hhigh : width <= (ratio + 2 * (1 # 9007199254740992) * ratio) * height).
  { assert (H : (width / height) * height
                <= (ratio + 2 * (1 # 9007199254740992) * ratio) * height)
      by (apply Qmult_le_compat_r; lra).
    lra. }
  assert (Hq1 : (1 - (1 # 9007199254740992)) * (1 - 2 * (1 # 9007199254740992)) * height
                <= width' / ratio).
  { apply Qle_shift_div_l; [lra |].
    assert (Hrh : 0 <= ratio * height) by (apply Qmult_le_0_compat; lra). lra. }
  assert (Hq2 : width' / ratio
                <= (1 + (1 # 9007199254740992)) * (1 + 2 * (1 # 9007199254740992)) * height).
  { apply Qle_shift_div_r; [lra |].
    assert (Hrh : 0 <= ratio * height) by (apply Qmult_le_0_compat; lra). lra. }
  apply Qabs_Qle_condition.
  remember (binary64 (width' / ratio)) as h' eqn:Eh. clear Eh.
  remember (width' / ratio) as q eqn:Eq. clear Eq.
  split; lra.
Qed.

Lemma derived_width_near (ratio width height height' : Q) :
  minNormal <= ratio ->
  ratioWithinRounding ratio width height ->
  MIN_SIZE <= height' -> Qabs (height' - height) <= height * unitRoundoff ->
  Qabs (fmul height' ratio - width) <= width * (5 * unitRoundoff).
Proof.
  intros Hr1 [Hheight Hrel] Hfloor Hmoved. unfold MIN_SIZE in *. unfold fmul.
  pose proof minNormal_pos as Hmin0.
  assert (Hp : minNormal <= height' * ratio).
  { assert (H : 0 <= (height' - 1) * ratio) by (apply Qmult_le_0_compat; lra). lra. }
  destruct (binary64_within_pos (height' * ratio) Hp) as [Hw1 Hw2].
  apply Qabs_Qle_condition in Hrel as [Hrel1 Hrel2].
  apply Qabs_Qle_condition in Hmoved as [Hm1 Hm2].
  unfold unitRoundoff in *.
  assert (Hwh : width == (width / height) * height) by (field; lra).
  assert (Hlow : (ratio - 2 * (1 # 9007199254740992) * ratio) * height <= width).
  { assert (H : (ratio - 2 * (1 # 9007199254740992) * ratio) * height
                <= (width / height) * height)
      by (apply Qmult_le_compat_r; lra).
    lra. }
  assert (Hhigh : width <= (ratio + 2 * (1 # 9007199254740992) * ratio) * height).
  { assert (H : (width / height) * height
                <= (ratio + 2 * (1 # 9007199254740992) * ratio) * height)
      by (apply Qmult_le_compat_r; lra).
    lra. }
  assert (Hp1 : (height - height * (1 # 9007199254740992)) * ratio <= height' * ratio)
    by (apply Qmult_le_compat_r; lra).
  assert (Hp2 : height' * ratio <= (height + height * (1 # 9007199254740992)) * ratio)
    by (apply Qmult_le_compat_r; lra).
  assert (Hrh : 0 <= ratio * height) by (apply Qmult_le_0_compat; lra).
  apply Qabs_Qle_condition.
  remember (binary64 (height' * ratio)) as w' eqn:Ew. clear Ew.
  remember (height' * ratio) as pr eqn:Epr. clear Epr.
  split; lra.
Qed.

Lemma Qabs_same (q bound : Q) : 0 <= bound -> Qabs (q - q) <= bound.
Proof.
  intros Hb. assert (Hz : q - q == 0) by ring. rewrite Hz. exact Hb.
Qed.

(** A resize whose pointer has not moved computes the geometry the gesture
    started from, up to rounding, when that geometry lies inside the canvas,
    respects the minimum size and, under aspect lock, the stored ratio. *)
Lemma resizeGeometry_no_delta_double (handle : ResizeHandle) (locked : bool) (ratio : Q)
    (x0 y0 w0 h0 : Q) (limitX limitY : Z) :
  MIN_SIZE <= w0 -> MIN_SIZE <= h0 ->
  locked = false
  \/ (minNormal <= ratio <= 2 ^ 1022 /\ ratioWithinRounding ratio w0 h0) ->
  0 <= x0 -> 0 <= y0 ->
  x0 + w0 <= inject_Z limitX -> y0 + h0 <= inject_Z limitY ->
  let g := Double.resizeGeometry handle locked ratio (Rect.mk x0 y0 w0 h0) 0 0 in
  Qabs (Rect.width g - w0) <= w0 * (5 * unitRoundoff)
  /\ Qabs (Rect.height g - h0) <= h0 * (5 * unitRoundoff)
  /\ Qabs (Rect.x g - x0) <= unitRoundoff * (8 * inject_Z limitX + 1)
  /\ Qabs (Rect.y g - y0) <= unitRoundoff * (8 * inject_Z limitY + 1).
Proof.
  intros Hw Hh Hlock Hx Hy Hright Hbottom.
  destruct (floor_keeps_size w0 Hw) as [Hw1 Hw2].
  destruct (floor_keeps_size h0 Hh) as [Hh1 Hh2].
  set (w1 := Qmax MIN_SIZE (binary64 w0)) in *.
  set (h1 := Qmax MIN_SIZE (binary64 h0)) in *.
  assert (Hw0 : 0 <= w0 * (5 * unitRoundoff)).
  { apply Qmult_le_0_compat; [unfold MIN_SIZE in Hw; lra | discriminate]. }
  assert (Hh0 : 0 <= h0 * (5 * unitRoundoff)).
  { apply Qmult_le_0_compat; [unfold MIN_SIZE in Hh; lra | discriminate]. }
  assert (Hw5 : Qabs (w1 - w0) <= w0 * (5 * unitRoundoff)).
  { unfold MIN_SIZE, unitRoundoff in *. lra. }
  assert (Hh5 : Qabs (h1 - h0) <= h0 * (5 * unitRoundoff)).
  { unfold MIN_SIZE, unitRoundoff in *. lra. }
  assert (HxC : 0 <= unitRoundoff * (8 * inject_Z limitX + 1)).
  { unfold MIN_SIZE, unitRoundoff in *. lra. }
  assert (HyC : 0 <= unitRoundoff * (8 * inject_Z limitY + 1)).
  { unfold MIN_SIZE, unitRoundoff in *. lra. }
  pose proof (near_edge_back limitX x0 w0 w1 Hx Hw Hright Hw5) as Hxback.
  pose proof (near_edge_back limitY y0 h0 h1 Hy Hh Hbottom Hh5) as Hyback.
  destruct locked.
  - destruct Hlock as [Hoff | [[Hr1 Hr2] Hrel]]; [discriminate |].
    pose proof (derived_height_near ratio w0 h0 w1 Hr1 Hr2 Hrel Hw1 Hw2) as Hhd.
    pose proof (derived_width_near ratio w0 h0 h1 Hr1 Hrel Hh1 Hh2) as Hwd.
    pose proof (near_edge_back limitY y0 h0 (fdiv w1 ratio) Hy Hh Hbottom Hhd) as Hyback'.
    destruct handle;
      cbn [Double.resizeGeometry Rect.x Rect.y Rect.width Rect.height];
      rewrite ?fadd_zero, ?fsub_zero; fold w1; fold h1;
      repeat split;
      first [ assumption | apply Qabs_same; assumption ].
  - destruct handle;
      cbn [Double.resizeGeometry Rect.x Rect.y Rect.width Rect.height];
      rewrite ?fadd_zero, ?fsub_zero; fold w1; fold h1;
      repeat split;
      first [ assumption | apply Qabs_same; assumption ].
Qed.

Section DoubleHandlers.

Variable numberToString : Q -> string.
Variable ctx : option (string -> string -> Q).

Local Abbreviation roundedDown := (Double.handleCanvasMouseDown numberToString ctx).
Local Abbreviation roundedPointerMove := (Double.handleCanvasMouseMove numberToString ctx).
Local Abbreviation roundedBox := (Double.layerSize numberToString ctx).
Local Abbreviation roundedLookup := (Double.clickedLayer numberToString ctx).

Lemma isPointInLayer_double_spec (layer : Layer) (px py : Q) :
  Double.isPointInLayer numberToString ctx layer px py = true <->
  (BaseLayer.x (base layer) <= px
   /\ px <= fadd (BaseLayer.x (base layer)) (Size.width (roundedBox layer)))
  /\ BaseLayer.y (base layer) <= py
  /\ py <= fadd (BaseLayer.y (base layer)) (Size.height (roundedBox layer)).
Proof.
  destruct layer as [b v | b t];
    cbn [Double.isPointInLayer Double.layerSize base Size.width Size.height];
    rewrite !andb_true_iff, !Qle_bool_iff; tauto.
Qed.

Lemma layerSize_double_position (l : Layer) (qx qy : Q) :
  roundedBox (updatedLayer l (Updates.mk None (Some qx) (Some qy) None None None None
                                None None None None None None None None))
  = roundedBox l.
Proof.
  destruct l as [b [w h locked ratio] | b [txt fs ff col bd it]];
    [destruct locked |]; reflexivity.
Qed.

(** X16: with nothing selected, snapping off and pairwise distinct ids, a
    pointer-down on a layer of non-negative size that lies inside the canvas
    followed by a pointer-move at the same point leaves the layer where it
    is up to rounding: each coordinate changes by at most 2^-53 times four
    canvas sizes plus one; size and all other fields are as before. *)
Theorem click_without_move_keeps_position (st : State.t) (px py : Q) (hit : Layer)
    (Hidle : idle st)
    (Hnone : State.selectedLayer st = None)
    (Hsnap : State.snapToGrid st = false)
    (Hids : NoDup (map id (State.layers st)))
    (Hhit : roundedLookup (State.layers st) px py = Some hit)
    (Hname : id hit <> "")
    (Hx : 0 <= BaseLayer.x (base hit))
    (Hy : 0 <= BaseLayer.y (base hit))
    (Hwidth : 0 <= Size.width (roundedBox hit))
    (Hheight : 0 <= Size.height (roundedBox hit))
    (Hright : BaseLayer.x (base hit) + Size.width (roundedBox hit)
              <= inject_Z (CanvasSize.width (State.canvasSize st)))
    (Hbottom : BaseLayer.y (base hit) + Size.height (roundedBox hit)
               <= inject_Z (CanvasSize.height (State.canvasSize st))) :
  exists after,
    findLayer (id hit) (State.layers (roundedPointerMove (roundedDown st px py) px py))
    = Some after
    /\ Qabs (BaseLayer.x (base after) - BaseLayer.x (base hit))
       <= unitRoundoff * (4 * inject_Z (CanvasSize.width (State.canvasSize st)) + 1)
    /\ Qabs (BaseLayer.y (base after) - BaseLayer.y (base hit))
       <= unitRoundoff * (4 * inject_Z (CanvasSize.height (State.canvasSize st)) + 1)
    /\ roundedBox after = roundedBox hit
    /\ eraseGeometry after = eraseGeometry hit.
Proof.
  destruct Hidle as (Hd & Hr & Hh).
  assert (Hfound : In hit (State.layers st)
                   /\ Double.isPointInLayer numberToString ctx hit px py = true).
  { unfold Double.clickedLayer in Hhit. apply find_some in Hhit as [Hin Htest].
    apply sortLayers_In in Hin. apply andb_true_iff in Htest as [_ Htest].
    split; assumption. }
  destruct Hfound as [Hin Hinside].
  apply isPointInLayer_double_spec in Hinside as ((Hx1 & Hx2) & Hy1 & Hy2).
  assert (Hdown : roundedDown st px py
                  = State.setDragStart
                      (State.setDraggingLayer
                         (State.setSelectedLayer st (Some (id hit))) (Some (id hit)))
                      (Point.mk (fsub px (BaseLayer.x (base hit)))
                                (fsub py (BaseLayer.y (base hit))))).
  { unfold Double.handleCanvasMouseDown. rewrite Hnone. cbn [truthy]. rewrite Hhit.
    reflexivity. }
  assert (Hfind : findLayer (id hit) (State.layers st) = Some hit)
    by (apply findLayer_member; assumption).
  assert (Hmove : roundedPointerMove (roundedDown st px py) px py
                  = State.setLayers (roundedDown st px py)
                      (updateLayer (id hit)
                         (Double.dragUpdates numberToString ctx (roundedDown st px py)
                            hit px py)
                         (State.layers st))).
  { rewrite Hdown. unfold Double.handleCanvasMouseMove, Double.dragMove.
    cbn [State.resizingLayer State.resizeHandle State.draggingLayer State.layers
         State.setDragStart State.setDraggingLayer State.setSelectedLayer].
    rewrite Hr. cbn [truthy]. apply String.eqb_neq in Hname. rewrite Hname.
    cbn [negb]. rewrite Hfind. reflexivity. }
  rewrite Hmove. cbn [State.layers State.setLayers].
  rewrite findLayer_updateLayer, Hfind. cbn [option_map].
  eexists. split; [reflexivity |].
  rewrite Hdown. unfold Double.dragUpdates, Double.snap, Double.snapValue.
  cbn [State.snapToGrid State.gridSize State.canvasSize State.dragStart
       State.setDragStart State.setDraggingLayer State.setSelectedLayer
       Point.x Point.y].
  rewrite Hsnap. cbn [negb].
  split; [| split; [| split]].
  - destruct hit as [b [w h locked ratio] | b t];
      [destruct locked |]; cbn [updatedLayer base BaseLayer.x] in *;
      apply click_axis; assumption.
  - destruct hit as [b [w h locked ratio] | b t];
      [destruct locked |]; cbn [updatedLayer base BaseLayer.y] in *;
      apply click_axis; assumption.
  - apply layerSize_double_position.
  - apply updatedLayer_geometryOnly. repeat split.
Qed.

(** X17: with snapping off, a pointer-down on a handle of the selected
    video layer followed by a pointer-move at the same point leaves the
    layer's position and size as they are up to rounding, provided the
    layer lies inside the canvas, is at least MIN_SIZE wide and high, and,
    if its aspect lock is on, has a normal stored ratio of at most 2^1022
    that width / height equals up to rounding: the width and the height
    change by at most five roundings (a relative error of 5 * 2^-53), each
    coordinate by at most 2^-53 times eight canvas sizes plus one; all
    other fields are as before. *)
Theorem grab_handle_without_move_keeps_geometry (st : State.t) (px py : Q)
    (sel : string) (b : BaseLayer.t) (v : VideoLayer.t) (handle : ResizeHandle)
    (Hidle : idle st)
    (Hsel : State.selectedLayer st = Some sel)
    (Hname : sel <> "")
    (Hfind : findLayer sel (State.layers st) = Some (Video b v))
    (Hgrab : Double.getHandleAtPoint (Video b v) px py = Some handle)
    (Hsnap : State.snapToGrid st = false)
    (Hw : MIN_SIZE <= VideoLayer.width v) (Hh : MIN_SIZE <= VideoLayer.height v)
    (Hlock : VideoLayer.aspectLocked v = false
             \/ (minNormal <= VideoLayer.aspectRatio v <= 2 ^ 1022
                 /\ ratioWithinRounding (VideoLayer.aspectRatio v)
                      (VideoLayer.width v) (VideoLayer.height v)))
    (Hx : 0 <= BaseLayer.x b) (Hy : 0 <= BaseLayer.y b)
    (Hright : BaseLayer.x b + VideoLayer.width v
              <= inject_Z (CanvasSize.width (State.canvasSize st)))
    (Hbottom : BaseLayer.y b + VideoLayer.height v
               <= inject_Z (CanvasSize.height (State.canvasSize st))) :
  exists b' v',
    findLayer sel (State.layers (roundedPointerMove (roundedDown st px py) px py))
    = Some (Video b' v')
    /\ Qabs (BaseLayer.x b' - BaseLayer.x b)
       <= unitRoundoff * (8 * inject_Z (CanvasSize.width (State.canvasSize st)) + 1)
    /\ Qabs (BaseLayer.y b' - BaseLayer.y b)
       <= unitRoundoff * (8 * inject_Z (CanvasSize.height (State.canvasSize st)) + 1)
    /\ Qabs (VideoLayer.width v' - VideoLayer.width v)
       <= VideoLayer.width v * (5 * unitRoundoff)
    /\ Qabs (VideoLayer.height v' - VideoLayer.height v)
       <= VideoLayer.height v * (5 * unitRoundoff)
    /\ eraseGeometry (Video b' v') = eraseGeometry (Video b v).
Proof.
  assert (Hdown : roundedDown st px py
                  = State.setLayerStart
                      (State.setDragStart
                         (State.setResizeHandle
                            (State.setResizingLayer st (Some sel)) (Some handle))
                         (Point.mk px py))
                      (Rect.mk (BaseLayer.x b) (BaseLayer.y b)
                               (VideoLayer.width v) (VideoLayer.height v))).
  { unfold Double.handleCanvasMouseDown. rewrite Hsel. cbn [truthy].
    apply String.eqb_neq in Hname. rewrite Hname. cbn [negb].
    rewrite Hfind, Hgrab. reflexivity. }
  set (st' := roundedDown st px py) in *.
  assert (Hres : resizing st' sel handle) by (rewrite Hdown; repeat split; assumption).
  assert (Hfind' : findLayer sel (State.layers st') = Some (Video b v))
    by (rewrite Hdown; exact Hfind).
  pose proof (resize_move_result_double numberToString ctx st' px py sel handle b v
                Hres Hfind') as Hafter.
  cbv zeta in Hafter.
  do 2 eexists. split; [exact Hafter |].
  assert (Hstart : State.layerStart st'
                   = Rect.mk (BaseLayer.x b) (BaseLayer.y b)
                             (VideoLayer.width v) (VideoLayer.height v))
    by (rewrite Hdown; reflexivity).
  assert (Hgrabbed : State.dragStart st' = Point.mk px py) by (rewrite Hdown; reflexivity).
  assert (Hcanvas : State.canvasSize st' = State.canvasSize st) by (rewrite Hdown; reflexivity).
  assert (Hsnap' : State.snapToGrid st' = false) by (rewrite Hdown; exact Hsnap).
  rewrite Hstart, Hgrabbed, Hcanvas. cbn [Point.x Point.y]. rewrite !fsub_same.
  destruct (resizeGeometry_no_delta_double handle (VideoLayer.aspectLocked v)
              (VideoLayer.aspectRatio v)
              (BaseLayer.x b) (BaseLayer.y b) (VideoLayer.width v) (VideoLayer.height v)
              (CanvasSize.width (State.canvasSize st))
              (CanvasSize.height (State.canvasSize st))
              Hw Hh Hlock Hx Hy Hright Hbottom)
    as (Hgw & Hgh & Hgx & Hgy).
  set (g := Double.resizeGeometry handle (VideoLayer.aspectLocked v)
              (VideoLayer.aspectRatio v)
              (Rect.mk (BaseLayer.x b) (BaseLayer.y b)
                       (VideoLayer.width v) (VideoLayer.height v)) 0 0) in *.
  cbn [BaseLayer.x BaseLayer.y VideoLayer.width VideoLayer.height].
  unfold Double.snap, Double.snapValue. rewrite Hsnap'. cbn [negb].
  split; [apply (constrain_resized _ _ (VideoLayer.width v)); assumption |].
  split; [apply (constrain_resized _ _ (VideoLayer.height v)); assumption |].
  split; [exact Hgw |]. split; [exact Hgh | reflexivity].
Qed.

End DoubleHandlers.

(** ** Instances of the properties in double precision *)

(** X10 at one and a half cells of the grid of 7.3: the value snaps two
    cells up, a little more than half a cell away. *)
Lemma snapValue_nearest_multiple_example :
  1 <= fractionalGrid /\ Qabs oneAndHalfCells <= 2 ^ 50
  /\ Double.snapValue true fractionalGrid oneAndHalfCells
     = binary64 (inject_Z 2 * fractionalGrid)
  /\ Qabs (Double.snapValue true fractionalGrid oneAndHalfCells - oneAndHalfCells)
     <= fractionalGrid / 2 + 4 * unitRoundoff * (Qabs oneAndHalfCells + fractionalGrid)
  /\ fractionalGrid / 2
     < Qabs (Double.snapValue true fractionalGrid oneAndHalfCells - oneAndHalfCells).
Proof.
  assert (Hgrid : 1 <= fractionalGrid) by (intro Hc; vm_compute in Hc; discriminate Hc).
  assert (Hv : Qabs oneAndHalfCells <= 2 ^ 50)
    by (intro Hc; vm_compute in Hc; discriminate Hc).
  split; [exact Hgrid |]. split; [exact Hv |].
  split; [vm_compute; reflexivity |].
  split;
    [exact (proj1 (proj2 (snapValue_nearest_multiple fractionalGrid oneAndHalfCells
                            Hgrid Hv))) |].
  vm_compute. reflexivity.
Defined.

(** X16 at a click on [offGridVideo] at (100, 100). *)
Lemma click_without_move_keeps_position_example :
  Double.clickedLayer printIntegral None (State.layers offGridState) 100 100
  = Some offGridVideo
  /\ exists after,
       findLayer "video-1000"
         (State.layers
            (Double.handleCanvasMouseMove printIntegral None
               (Double.handleCanvasMouseDown printIntegral None offGridState 100 100)
               100 100))
       = Some after
       /\ Qabs (BaseLayer.x (base after) - binary64 (201 # 10))
          <= unitRoundoff * (4 * 504 + 1)
       /\ Qabs (BaseLayer.y (base after) - binary64 (403 # 10))
          <= unitRoundoff * (4 * 846 + 1).
Proof.
  assert (Hhit : Double.clickedLayer printIntegral None (State.layers offGridState) 100 100
                 = Some offGridVideo) by (vm_compute; reflexivity).
  split; [exact Hhit |].
  assert (Hids : NoDup (map id (State.layers offGridState))).
  { repeat constructor; cbn; intuition discriminate. }
  destruct (click_without_move_keeps_position printIntegral None offGridState 100 100
              offGridVideo) as (after & Hfind & Hx & Hy & _);
    try (intro Hc; vm_compute in Hc; discriminate Hc); try reflexivity.
  - by_computation.
  - exact Hids.
  - exists after. split; [exact Hfind |]. split; [exact Hx | exact Hy].
Defined.

(** X17 at the west handle of the selected [offGridVideo]. *)
Lemma grab_handle_without_move_keeps_geometry_example :
  Double.getHandleAtPoint offGridVideo 20 210 = Some h_w
  /\ exists b' v',
       findLayer "video-1000"
         (State.layers
            (Double.handleCanvasMouseMove printIntegral None
               (Double.handleCanvasMouseDown printIntegral None offGridSelectedState
                  20 210)
               20 210))
       = Some (Video b' v')
       /\ Qabs (BaseLayer.x b' - binary64 (201 # 10)) <= unitRoundoff * (8 * 504 + 1)
       /\ Qabs (BaseLayer.y b' - binary64 (403 # 10)) <= unitRoundoff * (8 * 846 + 1)
       /\ Qabs (VideoLayer.width v' - 340) <= 340 * (5 * unitRoundoff)
       /\ Qabs (VideoLayer.height v' - 340) <= 340 * (5 * unitRoundoff).
Proof.
  assert (Hgrab : Double.getHandleAtPoint offGridVideo 20 210 = Some h_w)
    by (vm_compute; reflexivity).
  split; [exact Hgrab |].
  destruct (grab_handle_without_move_keeps_geometry printIntegral None
              offGridSelectedState 20 210 "video-1000"
              (base offGridVideo) (VideoLayer.mk 340 340 false 1) h_w)
    as (b' & v' & Hfind & Hx & Hy & Hw & Hh & _);
    try (intro Hc; vm_compute in Hc; discriminate Hc); try reflexivity.
  - by_computation.
  - left. reflexivity.
  - exists b', v'. repeat split; assumption.
Defined.
